(** * The grading pipeline of [backend/controllers/gradingController.js]

    A shallow embedding of the refactored ("check-first") controller: the
    request handler [gradeSubmission], the AI grading step
    [performCustomGrading], the file scanner [findCodeFiles] and the status
    banding [getGradingStatus].

    JavaScript numbers are IEEE 754 binary64 values; they are modelled by the
    primitive floats of the kernel, so the arithmetic below rounds as the
    program does.  Strings are modelled by [string]; the store is the list of
    rows of the [review] table in insertion order; the file system maps a
    workspace path to the tree checked out there.

    The handler is asynchronous, but awaits every call before the next, so
    one request is a sequential computation over the world it runs in; it
    is modelled in a monad of state and exceptions.  The calls that leave
    the process (store, clone, directory listing, file read, scoring
    service, removal of the workspace) are recorded in a trace, which the
    program does not have: it is there to state which calls a request
    makes.  What the collaborators answer is an input of the model.  The
    [console] output is left out, and times are integers read from a clock
    that moves at every reading.

    The first part of the development is about lines 1 to 345 of the file.
    What follows them there, an earlier version of the controller that
    grades by module number, is modelled apart, in [Legacy].  The modules
    the controller requires and that are outside the file
    ([grading-engine/cloner], [grading-engine/utils/aiHelper], the module
    handlers, the store client) are modelled by their contracts, as said at
    each of them.

    Two more files are covered in part: the text extraction of
    [backend/services/notionService.js], in [Notion], and the two
    computations of [frontend/src/components/Dashboard.jsx] on the reviews
    of the store, in [Dashboard]. *)

From Stdlib Require Import ZArith Lia String Ascii List Bool Uint63 Floats.
From stdpp Require Import gmap strings list pretty.

Set Warnings "-inexact-float,-register-all".

Local Open Scope Z_scope.

(** ** JavaScript numbers *)

Module Num.

(** Integers of magnitude below [2^63] as numbers (exact below [2^53]). *)
Definition of_Z (n : Z) : float :=
  if 0 <=? n then PrimFloat.of_uint63 (Uint63.of_Z n)
  else (- PrimFloat.of_uint63 (Uint63.of_Z (- n)))%float.

Definition of_nat (n : nat) : float := of_Z (Z.of_nat n).

(** [Math.round]: the integer closest to [x], ties towards [+Infinity];
    [NaN], the infinities, the zeros and the integers are returned as they
    are, and a negative [x] that rounds to zero gives [-0].  A finite
    [x] is [v / 2^k] with [v] its signed mantissa, so the closest integer is
    [floor ((2 v + 2^k) / 2^(k+1))]. *)
Definition Math_round (x : float) : float :=
  match Prim2SF x with
  | S754_finite s m e =>
      if 0 <=? e then x
      else
        let k := - e in
        let v := if s then Zneg m else Zpos m in
        let n := (2 * v + 2 ^ k) / 2 ^ (k + 1) in
        if n =? 0 then (if s then (-0)%float else 0%float) else of_Z n
  | _ => x
  end.

(** [Math.min] of two numbers: [NaN] if either is, [-0] below [+0]. *)
Definition Math_min (a b : float) : float :=
  if is_nan a || is_nan b then nan
  else if (b <? a)%float then b
  else if (a <? b)%float then a
  else match classify a with NZero => a | _ => b end.

End Num.

(** ** Status banding: [getGradingStatus] *)

Definition getGradingStatus (score maxScore : float) : string :=
  let percentage := (score / maxScore * 100)%float in
  if (90 <=? percentage)%float then "Excellent"
  else if (80 <=? percentage)%float then "Good"
  else if (70 <=? percentage)%float then "Satisfactory"
  else if (60 <=? percentage)%float then "Needs Improvement"
  else "Unsatisfactory".

(** The [completeness.score] expression of [performCustomGrading]. *)
Definition completeness_score (score : float) : float :=
  if (60 <? score)%float then 40%float
  else Num.Math_round (score * 0.4)%float.

(** ** Values of the request body *)

(** The fields of [req.body] are arbitrary JSON values, or absent.  [VObj]
    stands for an array or an object. *)
Inductive value :=
| VUndefined
| VNull
| VBool (b : bool)
| VNum (n : float)
| VStr (s : string)
| VObj.

(** ToBoolean. *)
Definition truthy (v : value) : bool :=
  match v with
  | VUndefined | VNull => false
  | VBool b => b
  | VNum n => negb (is_zero n || is_nan n)
  | VStr s => negb (String.eqb s "")
  | VObj => true
  end.

(** [typeof v === 'string'] *)
Definition typeof_string (v : value) : bool :=
  match v with VStr _ => true | _ => false end.

(** The string held by a value that passed the [typeof] test. *)
Definition str_of (v : value) : string :=
  match v with VStr s => s | _ => "" end.

(** [v || null] *)
Definition or_null (v : value) : value := if truthy v then v else VNull.

(** [v || d], for the uses that follow the store lookup, which only a string,
    [null] or a falsy [studentName] passes. *)
Definition or_string (v : value) (d : string) : string :=
  if truthy v then str_of v else d.

(** Characters are UTF-16 code units below 256; these are the white space
    and line terminators among them. *)
Definition is_whitespace (c : ascii) : bool :=
  let n := nat_of_ascii c in
  (Nat.eqb n 9 || Nat.eqb n 10 || Nat.eqb n 11 || Nat.eqb n 12 ||
   Nat.eqb n 13 || Nat.eqb n 32 || Nat.eqb n 160)%bool.

Fixpoint trimStart (s : string) : string :=
  match s with
  | String c r => if is_whitespace c then trimStart r else s
  | EmptyString => EmptyString
  end.

Fixpoint trimEnd (s : string) : string :=
  match s with
  | EmptyString => EmptyString
  | String c r =>
      let r' := trimEnd r in
      if is_whitespace c && String.eqb r' "" then EmptyString else String c r'
  end.

Definition trim (s : string) : string := trimEnd (trimStart s).

Record Body := {
  repoName : value;
  branchName : value;
  studentName : value;
  customInstructions : value
}.

(** ** JSON documents *)

Inductive json :=
| JNull
| JBool (b : bool)
| JNum (n : float)
| JStr (s : string)
| JArr (items : list json)
| JObj (props : list (string * json)).

(** A number as [JSON.stringify] and [res.json] write it: [null] when it is
    not finite, and [-0] as [0]. *)
Definition json_number (n : float) : json :=
  if is_finite n then (if is_zero n then JNum 0 else JNum n) else JNull.

Fixpoint assoc (k : string) (props : list (string * json)) : option json :=
  match props with
  | [] => None
  | (k', v) :: rest => if String.eqb k k' then Some v else assoc k rest
  end.

(** Property read [j.k] on a parsed document: a [TypeError] on [null], the
    property of an object, [undefined] on everything else. *)
Definition get_prop (j : json) (k : string) : string + option json :=
  match j with
  | JNull => inl ("Cannot read properties of null (reading '" +:+ k +:+ "')")
  | JObj props => inr (assoc k props)
  | _ => inr None
  end.

(** ** The store: rows of the [review] table *)

Module Review.
Record t := make {
  id : nat;
  repoName : string;
  branchName : string;
  studentName : option string;
  reviewContent : string;
  score : string;
  status : string;
  createdAt : Z
}.
End Review.

(** The [where] argument of [findFirst]. *)
Record WhereClause := {
  where_repoName : string;
  where_branchName : string;
  where_studentName : option string
}.

Definition option_string_eqb (a b : option string) : bool :=
  match a, b with
  | None, None => true
  | Some x, Some y => String.eqb x y
  | _, _ => false
  end.

Definition row_matches (wh : WhereClause) (r : Review.t) : bool :=
  String.eqb (Review.repoName r) (where_repoName wh) &&
  String.eqb (Review.branchName r) (where_branchName wh) &&
  option_string_eqb (Review.studentName r) (where_studentName wh).

(** [findFirst({ where, orderBy: { createdAt: 'desc' } })]: a matching row
    with the greatest [createdAt]; among equals, the one inserted last. *)
Fixpoint find_latest (wh : WhereClause) (rows : list Review.t) : option Review.t :=
  match rows with
  | [] => None
  | r :: rest =>
      match find_latest wh rest with
      | Some b =>
          if row_matches wh r && (Review.createdAt b <? Review.createdAt r)
          then Some r else Some b
      | None => if row_matches wh r then Some r else None
      end
  end.

(** ** The file system *)

(** A directory entry as [readdir(dir, { withFileTypes: true })] reports it:
    a regular file, a directory with its entries in [readdir] order, or
    something that is neither (a link, a socket). *)
Inductive entry :=
| File (name content : string)
| Dir (name : string) (children : list entry)
| Other (name : string).

Definition path_join (dir name : string) : string := dir +:+ "/" +:+ name.

(** [path.relative(from, to)] for a [to] below [from]. *)
Definition path_relative (from to : string) : string :=
  if String.prefix (from +:+ "/") to
  then String.substring (String.length from + 1)%nat
         (String.length to - (String.length from + 1))%nat to
  else to.

(** [path.extname] (POSIX): one pass from the end of the path, as Node's
    implementation makes it. *)
Module Extname.
Record state := {
  startDot : Z;
  startPart : Z;
  end_ : Z;
  matchedSlash : bool;
  preDotState : Z;
  stopped : bool
}.

Definition init : state :=
  {| startDot := -1; startPart := 0; end_ := -1; matchedSlash := true;
     preDotState := 0; stopped := false |}.

Definition step (i : Z) (code : ascii) (st : state) : state :=
  if stopped st then st
  else if Ascii.eqb code "/" then
    if negb (matchedSlash st)
    then {| startDot := startDot st; startPart := i + 1; end_ := end_ st;
            matchedSlash := matchedSlash st; preDotState := preDotState st;
            stopped := true |}
    else st
  else
    let '(ms, en) :=
      if end_ st =? -1 then (false, i + 1) else (matchedSlash st, end_ st) in
    if Ascii.eqb code "." then
      if startDot st =? -1
      then {| startDot := i; startPart := startPart st; end_ := en;
              matchedSlash := ms; preDotState := preDotState st;
              stopped := false |}
      else {| startDot := startDot st; startPart := startPart st; end_ := en;
              matchedSlash := ms; preDotState := 1; stopped := false |}
    else
      {| startDot := startDot st; startPart := startPart st; end_ := en;
         matchedSlash := ms;
         preDotState := if startDot st =? -1 then preDotState st else -1;
         stopped := false |}.

(** [rev_chars] holds the characters at indices [i], [i - 1], ..., 0. *)
Fixpoint loop (rev_chars : list ascii) (i : Z) (st : state) : state :=
  match rev_chars with
  | [] => st
  | c :: rest => loop rest (i - 1) (step i c st)
  end.

Definition extname (path : string) : string :=
  let chars := list_ascii_of_string path in
  let st := loop (rev chars) (Z.of_nat (List.length chars) - 1) init in
  if (startDot st =? -1) || (end_ st =? -1) || (preDotState st =? 0) ||
     ((preDotState st =? 1) && (startDot st =? end_ st - 1) &&
      (startDot st =? startPart st + 1))
  then ""
  else String.substring (Z.to_nat (startDot st))
         (Z.to_nat (end_ st - startDot st)) path.
End Extname.

(** ** The scanner: [findCodeFiles] *)

Definition codeExtensions : list string :=
  [".js"; ".jsx"; ".ts"; ".tsx"; ".py"; ".java"; ".sol"; ".rs"; ".go"].

Definition ignoreDirs : list string :=
  ["node_modules"; ".git"; "dist"; "build"; "__pycache__"; "target"].

(** [l.includes(x)] *)
Definition includes (l : list string) (x : string) : bool :=
  existsb (String.eqb x) l.

(** The array [files] that [scan] pushes to, and the directories it has
    called [readdir] on. *)
Record ScanState := {
  files : list string;
  opened : list string
}.

Definition push (fullPath : string) (st : ScanState) : ScanState :=
  {| files := files st ++ [fullPath]; opened := opened st |}.

Definition readdir (dir : string) (st : ScanState) : ScanState :=
  {| files := files st; opened := opened st ++ [dir] |}.

(** The body of the [for] loop of [scan(dir)], for one entry. *)
Fixpoint visit (dir : string) (e : entry) (st : ScanState) : ScanState :=
  match e with
  | Dir name children =>
      let fullPath := path_join dir name in
      if negb (includes ignoreDirs name)
      then fold_left (fun st' e' => visit fullPath e' st') children
             (readdir fullPath st)
      else st
  | File name _ =>
      let fullPath := path_join dir name in
      let ext := Extname.extname name in
      if includes codeExtensions ext then push fullPath st else st
  | Other _ => st
  end.

(** [scan(dir)], given the entries [readdir] returns for [dir]. *)
Definition scan (dir : string) (entries : list entry) (st : ScanState)
  : ScanState :=
  fold_left (fun st' e => visit dir e st') entries (readdir dir st).

(** The content of the regular file at [path], looked up in an entry of
    the directory [dir]. *)
Fixpoint find_in (dir : string) (e : entry) (path : string) : option string :=
  match e with
  | File name content =>
      if String.eqb (path_join dir name) path then Some content else None
  | Dir name children =>
      (fix first_in (es : list entry) : option string :=
         match es with
         | [] => None
         | e' :: es' =>
             match find_in (path_join dir name) e' path with
             | Some c => Some c
             | None => first_in es'
             end
         end) children
  | Other _ => None
  end.

Fixpoint find_file (dir : string) (entries : list entry) (path : string)
  : option string :=
  match entries with
  | [] => None
  | e :: rest =>
      match find_in dir e path with
      | Some c => Some c
      | None => find_file dir rest path
      end
  end.

(** ** The world around one request *)

(** The calls that leave the process, in the order they are made. *)
Inductive Event :=
| EvFindFirst (repo branch : string) (student : value)
| EvCloneRepo (repo submitter branch : string)
| EvReaddir (dir : string)
| EvReadFile (file : string)
| EvAnalyze (combinedCode instructions branch : string)
| EvCreate (repo branch : string) (student : value) (content : string)
| EvCleanupRepo (path : string).

Record World := {
  reviews : list Review.t;
  fs : gmap string (list entry);
  clock : Z;
  next_id : nat;
  next_token : nat;
  trace : list Event
}.

(** The answer of the AI helper. *)
Module Ai.
Record result := {
  score : float;
  feedback : option string;
  passed : option (list string);
  errors : option (list string)
}.
End Ai.

(** What the collaborators answer during one request: whether the store
    fails on a query or an insert, what the remote repository holds (or why
    the fetch fails), what the scoring service returns (or why it fails),
    and whether removing the workspace fails. *)
Record Outcomes := {
  find_error : option string;
  clone_result : string + list entry;
  ai_result : string + Ai.result;
  create_error : option string;
  cleanup_error : option string
}.

(** The state of one run of the handler: the world and the local
    [clonedPath]. *)
Record Frame := {
  world : World;
  clonedPath : option string
}.

(** Computations that may [throw]: [inl msg] is a thrown [Error] with that
    message. *)
Definition M (A : Type) : Type := Frame -> (string + A) * Frame.

#[export] Instance M_ret : MRet M := fun A a fr => (inr a, fr).

#[export] Instance M_bind : MBind M := fun A B f m fr =>
  match m fr with
  | (inl e, fr') => (inl e, fr')
  | (inr a, fr') => f a fr'
  end.

Definition throw {A : Type} (msg : string) : M A := fun fr => (inl msg, fr).

Definition try_catch {A : Type} (m : M A) (handler : string -> M A) : M A :=
  fun fr =>
    match m fr with
    | (inl e, fr') => handler e fr'
    | (inr a, fr') => (inr a, fr')
    end.

Definition get_world : M World := fun fr => (inr (world fr), fr).

Definition update_world (f : World -> World) : M unit := fun fr =>
  (inr tt, {| world := f (world fr); clonedPath := clonedPath fr |}).

Definition set_clonedPath (p : string) : M unit := fun fr =>
  (inr tt, {| world := world fr; clonedPath := Some p |}).

Definition log_event (e : Event) (w : World) : World :=
  {| reviews := reviews w; fs := fs w; clock := clock w;
     next_id := next_id w; next_token := next_token w;
     trace := trace w ++ [e] |}.

Definition log_events (es : list Event) (w : World) : World :=
  {| reviews := reviews w; fs := fs w; clock := clock w;
     next_id := next_id w; next_token := next_token w;
     trace := trace w ++ es |}.

Definition tick (w : World) : World :=
  {| reviews := reviews w; fs := fs w; clock := clock w + 1;
     next_id := next_id w; next_token := next_token w; trace := trace w |}.

Definition set_fs (f : gmap string (list entry)) (w : World) : World :=
  {| reviews := reviews w; fs := f; clock := clock w;
     next_id := next_id w; next_token := next_token w; trace := trace w |}.

Definition emit (e : Event) : M unit := update_world (log_event e).

(** [new Date()]: the clock is read and moves on. *)
Definition Date_now : M Z :=
  w ← get_world; update_world tick;; mret (clock w).

(** *** The store client *)

(** The client checks [studentName] against the nullable string column. *)
Definition student_column (v : value) : option (option string) :=
  match v with
  | VNull => Some None
  | VStr s => Some (Some s)
  | _ => None
  end.

Definition prisma_findFirst (o : Outcomes) (repo branch : string)
    (student : value) : M (option Review.t) :=
  emit (EvFindFirst repo branch student);;
  match find_error o with
  | Some msg => throw msg
  | None =>
      match student_column student with
      | None => throw "Invalid value provided for argument studentName"
      | Some st =>
          w ← get_world;
          mret (find_latest
                  {| where_repoName := repo; where_branchName := branch;
                     where_studentName := st |} (reviews w))
      end
  end.

(** [create]: the store assigns [id] and [createdAt]. *)
Definition insert_row (r : Review.t) (w : World) : World :=
  {| reviews := reviews w ++ [r]; fs := fs w; clock := clock w + 1;
     next_id := S (next_id w); next_token := next_token w; trace := trace w |}.

Definition prisma_create (o : Outcomes) (repo branch : string)
    (student : value) (content score status : string) : M Review.t :=
  emit (EvCreate repo branch student content);;
  match create_error o with
  | Some msg => throw msg
  | None =>
      match student_column student with
      | None => throw "Invalid value provided for argument studentName"
      | Some st =>
          w ← get_world;
          let r := Review.make (next_id w) repo branch st content score status
                     (clock w) in
          update_world (insert_row r);;
          mret r
      end
  end.

(** *** The workspace manager ([grading-engine/cloner]) *)

Definition workspace_path (submitter : string) (token : nat) : string :=
  "/tmp/grading/" +:+ submitter +:+ "-" +:+ pretty token.

Definition add_workspace (dest : string) (tree : list entry) (w : World)
  : World :=
  {| reviews := reviews w; fs := <[dest := tree]> (fs w); clock := clock w;
     next_id := next_id w; next_token := S (next_token w); trace := trace w |}.

(** Modelled from the spec: [cloneRepo] of [grading-engine/cloner.js] is not
    among the sources. [acquire] resolves a destination derived from the
    submitter label and a uniqueness token, fetches the branch into it and
    returns the path; it fails when the branch or the repository cannot be
    fetched, and then leaves no workspace. *)
Definition cloneRepo (o : Outcomes) (repo submitter branch : string)
  : M string :=
  emit (EvCloneRepo repo submitter branch);;
  match clone_result o with
  | inl msg => throw msg
  | inr tree =>
      w ← get_world;
      let dest := workspace_path submitter (next_token w) in
      update_world (add_workspace dest tree);;
      mret dest
  end.

(** Modelled from the spec: [cleanupRepo] of [grading-engine/cloner.js] is
    not among the sources. [release] removes the path recursively and is a
    no-op on a path that is not there; when the removal fails the path is
    left as it was. *)
Definition cleanupRepo (o : Outcomes) (path : string) : M unit :=
  emit (EvCleanupRepo path);;
  match cleanup_error o with
  | Some msg => throw msg
  | None => update_world (fun w => set_fs (delete path (fs w)) w)
  end.

(** The scoring service ([grading-engine/utils/aiHelper]), by its answer. *)
Definition analyzeCodeWithCustomInstructions (o : Outcomes)
    (combinedCode instructions branch : string) : M Ai.result :=
  emit (EvAnalyze combinedCode instructions branch);;
  match ai_result o with
  | inl msg => throw msg
  | inr r => mret r
  end.

(** *** Files of a workspace *)

Definition findCodeFiles (repoPath : string) : M (list string) :=
  w ← get_world;
  match fs w !! repoPath with
  | None => emit (EvReaddir repoPath);; throw "ENOENT: no such file or directory"
  | Some entries =>
      let st := scan repoPath entries {| files := []; opened := [] |} in
      update_world (log_events (map EvReaddir (opened st)));;
      mret (files st)
  end.

(** [fs.readFile(file, 'utf-8')] for a file of the workspace [repoPath]. *)
Definition readFile (repoPath file : string) : M string :=
  emit (EvReadFile file);;
  w ← get_world;
  match fs w !! repoPath with
  | None => throw "ENOENT: no such file or directory"
  | Some entries =>
      match find_file repoPath entries file with
      | None => throw "ENOENT: no such file or directory"
      | Some content => mret content
      end
  end.

(** ** Grading results *)

Module CodeQuality.
Record t := { score : float; maxScore : float; feedback : option string }.
End CodeQuality.

Module Completeness.
Record t := {
  score : float;
  maxScore : float;
  passed : list string;
  errors : list string
}.
End Completeness.

Record GradingResults := {
  moduleName : string;
  totalScore : float;
  maxTotalScore : float;
  codeQuality : CodeQuality.t;
  completeness : Completeness.t;
  filesAnalyzed : nat;
  customCriteria : string
}.

Module Summary.
Record t := {
  totalScore : float;
  maxScore : float;
  percentage : string;
  status : string
}.
End Summary.

(** The documents [JSON.stringify] and [res.json] make of these objects; a
    property that is [undefined] is left out. *)
Definition json_strings (l : list string) : json := JArr (map JStr l).

Definition json_of_codeQuality (c : CodeQuality.t) : json :=
  JObj ([("score", json_number (CodeQuality.score c));
         ("maxScore", json_number (CodeQuality.maxScore c))] ++
        match CodeQuality.feedback c with
        | Some f => [("feedback", JStr f)]
        | None => []
        end).

Definition json_of_completeness (c : Completeness.t) : json :=
  JObj [("score", json_number (Completeness.score c));
        ("maxScore", json_number (Completeness.maxScore c));
        ("passed", json_strings (Completeness.passed c));
        ("errors", json_strings (Completeness.errors c))].

Definition json_of_results (r : GradingResults) : json :=
  JObj [("moduleName", JStr (moduleName r));
        ("totalScore", json_number (totalScore r));
        ("maxTotalScore", json_number (maxTotalScore r));
        ("codeQuality", json_of_codeQuality (codeQuality r));
        ("completeness", json_of_completeness (completeness r));
        ("filesAnalyzed", json_number (Num.of_nat (filesAnalyzed r)));
        ("customCriteria", JStr (customCriteria r))].

Definition json_of_summary (s : Summary.t) : json :=
  JObj [("totalScore", json_number (Summary.totalScore s));
        ("maxScore", json_number (Summary.maxScore s));
        ("percentage", JStr (Summary.percentage s));
        ("status", JStr (Summary.status s))].

(** [a || []] *)
Definition or_empty (a : option (list string)) : list string :=
  match a with Some l => l | None => [] end.

(** [f || d] for an optional string. *)
Definition option_or (f : option string) (d : string) : string :=
  match f with
  | Some s => if String.eqb s "" then d else s
  | None => d
  end.

Definition newline : string := String (ascii_of_nat 10) EmptyString.

(** ** The response *)

(** The three documents the handler sends. *)
Inductive ResponseBody :=
| Graded (source student branch repository : string)
         (results summary : option json)
         (reviewId : nat) (createdAt timestamp : Z)
| Rejected (error : string)
| Failed (error message : string) (timestamp : Z).

Record Response := {
  status : Z;
  body : ResponseBody
}.

Definition success (r : Response) : bool :=
  match body r with Graded _ _ _ _ _ _ _ _ _ => true | _ => false end.

(** [res.status(code).json(body)] *)
Definition respond (code : Z) (b : ResponseBody) : Response :=
  {| status := code; body := b |}.

Section Controller.

(** The runtime's own functions: [JSON.parse] ([inl] is the message of the
    [SyntaxError] it throws), [JSON.stringify], the conversion of a number
    in a template literal, and [toFixed(2)]. *)
Variable JSON_parse : string -> string + json.
Variable JSON_stringify : json -> string.
Variable Number_toString : float -> string.
Variable toFixed2 : float -> string.

(** [isValidGitHubUrl] of [grading-engine/cloner.js], which is not among
    the sources: a syntactic check of the URL shape. *)
Variable isValidGitHubUrl : string -> bool.

Definition parse_json (text : string) : M json :=
  match JSON_parse text with
  | inl msg => throw msg
  | inr j => mret j
  end.

Definition read_prop (j : json) (k : string) : M (option json) :=
  match get_prop j k with
  | inl msg => throw msg
  | inr v => mret v
  end.

(** The loop that concatenates the files for the analysis. *)
Fixpoint concat_files (repoPath : string) (codeFiles : list string)
    (combinedCode : string) : M string :=
  match codeFiles with
  | [] => mret combinedCode
  | file :: rest =>
      content ← readFile repoPath file;
      concat_files repoPath rest
        (combinedCode +:+ newline +:+ newline +:+ "// File: " +:+
         path_relative repoPath file +:+ newline +:+ content)
  end.

Definition performCustomGrading (o : Outcomes)
    (repoPath customInstructions branchName : string) : M GradingResults :=
  try_catch
    (codeFiles ← findCodeFiles repoPath;
     if Nat.eqb (List.length codeFiles) 0
     then throw "No code files found in the repository"
     else
       combinedCode ← concat_files repoPath codeFiles "";
       aiResult ← analyzeCodeWithCustomInstructions o combinedCode
                    customInstructions branchName;
       mret
         {| moduleName := "Branch: " +:+ branchName;
            totalScore := Ai.score aiResult;
            maxTotalScore := 100%float;
            codeQuality :=
              {| CodeQuality.score := Ai.score aiResult;
                 CodeQuality.maxScore := 100%float;
                 CodeQuality.feedback := Ai.feedback aiResult |};
            completeness :=
              {| Completeness.score := completeness_score (Ai.score aiResult);
                 Completeness.maxScore := 40%float;
                 Completeness.passed := or_empty (Ai.passed aiResult);
                 Completeness.errors := or_empty (Ai.errors aiResult) |};
            filesAnalyzed := List.length codeFiles;
            customCriteria :=
              String.substring 0 200 customInstructions +:+ "..." |})
    (fun error => throw error).

Definition make_summary (gradingResults : GradingResults) : Summary.t :=
  {| Summary.totalScore := totalScore gradingResults;
     Summary.maxScore := maxTotalScore gradingResults;
     Summary.percentage :=
       toFixed2 (totalScore gradingResults / maxTotalScore gradingResults
                 * 100)%float;
     Summary.status :=
       getGradingStatus (totalScore gradingResults)
         (maxTotalScore gradingResults) |}.

Definition review_content (gradingResults : GradingResults)
    (summary : Summary.t) : json :=
  JObj [("feedback",
         JStr (option_or (CodeQuality.feedback (codeQuality gradingResults))
                 "No feedback available"));
        ("results", json_of_results gradingResults);
        ("summary", json_of_summary summary)].

(** The [try] block of [gradeSubmission]; its result is the response it
    sends. *)
Definition try_block (o : Outcomes) (req : Body) : M Response :=
  let repoName := repoName req in
  let branchName := branchName req in
  let studentName := studentName req in
  let customInstructions := customInstructions req in
  if negb (truthy repoName) || negb (typeof_string repoName) then
    mret (respond 400 (Rejected "Invalid or missing repoName"))
  else if negb (truthy branchName) || negb (typeof_string branchName) then
    mret (respond 400 (Rejected "Invalid or missing branchName (Module)"))
  else
    existingReview ← prisma_findFirst o (str_of repoName)
                       (str_of branchName) (or_null studentName);
    match existingReview with
    | Some existingReview =>
        parsedContent ← parse_json (Review.reviewContent existingReview);
        results ← read_prop parsedContent "results";
        summary ← read_prop parsedContent "summary";
        mret (respond 200
                (Graded "database"
                   (option_or (Review.studentName existingReview) "Unknown")
                   (Review.branchName existingReview)
                   (Review.repoName existingReview)
                   results summary
                   (Review.id existingReview)
                   (Review.createdAt existingReview)
                   (Review.createdAt existingReview)))
    | None =>
        if negb (truthy customInstructions)
           || negb (typeof_string customInstructions)
           || String.eqb (trim (str_of customInstructions)) ""
        then
          mret (respond 400
                  (Rejected "customInstructions required for new grading"))
        else if negb (isValidGitHubUrl (str_of repoName)) then
          mret (respond 400 (Rejected "Invalid GitHub URL format"))
        else
          let submitterName := or_string studentName "submission" in
          path ← cloneRepo o (str_of repoName) submitterName
                   (str_of branchName);
          set_clonedPath path;;
          gradingResults ← performCustomGrading o path
                             (str_of customInstructions) (str_of branchName);
          let summary := make_summary gradingResults in
          savedReview ← prisma_create o (str_of repoName)
                          (str_of branchName) (or_null studentName)
                          (JSON_stringify
                             (review_content gradingResults summary))
                          (Number_toString (Summary.totalScore summary) +:+
                           "/" +:+
                           Number_toString (Summary.maxScore summary))
                          "COMPLETED";
          now ← Date_now;
          mret (respond 200
                  (Graded "openai"
                     (or_string studentName "Unknown")
                     (str_of branchName)
                     (str_of repoName)
                     (Some (json_of_results gradingResults))
                     (Some (json_of_summary summary))
                     (Review.id savedReview)
                     (Review.createdAt savedReview)
                     now))
    end.

(** The [catch] block. *)
Definition catch_block (message : string) (fr : Frame) : Response * Frame :=
  (respond 500 (Failed "Grading failed" message (clock (world fr))),
   {| world := tick (world fr); clonedPath := clonedPath fr |}).

(** The [finally] block: the workspace is removed when [clonedPath] is
    set, and an error of the removal is logged and dropped. *)
Definition finally_block (o : Outcomes) (fr : Frame) : Frame :=
  match clonedPath fr with
  | Some path =>
      if negb (String.eqb path "")
      then snd (try_catch (cleanupRepo o path) (fun _ => mret tt) fr)
      else fr
  | None => fr
  end.

Definition gradeSubmission (o : Outcomes) (req : Body) (w : World)
  : Response * World :=
  let '(r, fr1) := try_block o req {| world := w; clonedPath := None |} in
  let '(response, fr2) :=
    match r with
    | inr response => (response, fr1)
    | inl message => catch_block message fr1
    end in
  (response, world (finally_block o fr2)).

End Controller.

(** ** The earlier version of the controller

    What follows line 345 of the file: the handler that grades by module
    number and keeps no store, with [validateRequestData] and
    [routeToModuleHandler]. *)

Module Legacy.

(** [req.body]: [{ repoUrl, moduleNumber, studentName }]. *)
Record Body := {
  repoUrl : value;
  moduleNumber : value;
  studentName : value
}.

(** [typeof v === 'number'] *)
Definition typeof_number (v : value) : bool :=
  match v with VNum _ => true | _ => false end.

(** The number held by a value that passed the [typeof] test. *)
Definition num_of (v : value) : float :=
  match v with VNum n => n | _ => nan end.

(** What a module handler returns, as far as the controller reads it: the
    two scores, and the object as it is sent back. *)
Record Results := {
  totalScore : float;
  maxTotalScore : float;
  document : json
}.

Inductive Event :=
| EvCloneRepo (repo student : string)
| EvGrade (repoPath : string)
| EvCleanupRepo (path : string).

Record World := {
  fs : gmap string (list entry);
  clock : Z;
  next_token : nat;
  trace : list Event
}.

(** What the collaborators answer during one request. *)
Record Outcomes := {
  clone_result : string + list entry;
  grade_result : string + Results;
  cleanup_error : option string
}.

Record Frame := {
  world : World;
  clonedPath : option string
}.

Definition L (A : Type) : Type := Frame -> (string + A) * Frame.

#[export] Instance L_ret : MRet L := fun A a fr => (inr a, fr).

#[export] Instance L_bind : MBind L := fun A B f m fr =>
  match m fr with
  | (inl e, fr') => (inl e, fr')
  | (inr a, fr') => f a fr'
  end.

Definition throw {A : Type} (msg : string) : L A := fun fr => (inl msg, fr).

Definition try_catch {A : Type} (m : L A) (handler : string -> L A) : L A :=
  fun fr =>
    match m fr with
    | (inl e, fr') => handler e fr'
    | (inr a, fr') => (inr a, fr')
    end.

Definition get_world : L World := fun fr => (inr (world fr), fr).

Definition update_world (f : World -> World) : L unit := fun fr =>
  (inr tt, {| world := f (world fr); clonedPath := clonedPath fr |}).

Definition set_clonedPath (p : string) : L unit := fun fr =>
  (inr tt, {| world := world fr; clonedPath := Some p |}).

Definition log_event (e : Event) (w : World) : World :=
  {| fs := fs w; clock := clock w; next_token := next_token w;
     trace := trace w ++ [e] |}.

Definition tick (w : World) : World :=
  {| fs := fs w; clock := clock w + 1; next_token := next_token w;
     trace := trace w |}.

Definition emit (e : Event) : L unit := update_world (log_event e).

(** [new Date()]: the clock is read and moves on. *)
Definition Date_now : L Z :=
  w ← get_world; update_world tick;; mret (clock w).

Definition add_workspace (dest : string) (tree : list entry) (w : World)
  : World :=
  {| fs := <[dest := tree]> (fs w); clock := clock w;
     next_token := S (next_token w); trace := trace w |}.

(** Modelled from the spec: [cloneRepo] of [grading-engine/cloner.js] is not
    among the sources.  Called with the repository and the student, it
    resolves a destination derived from the student and a uniqueness token,
    fetches the repository into it and returns the path; when the fetch
    fails it leaves no workspace. *)
Definition cloneRepo (o : Outcomes) (repo student : string) : L string :=
  emit (EvCloneRepo repo student);;
  match clone_result o with
  | inl msg => throw msg
  | inr tree =>
      w ← get_world;
      let dest := workspace_path student (next_token w) in
      update_world (add_workspace dest tree);;
      mret dest
  end.

(** Modelled from the spec: [cleanupRepo] of [grading-engine/cloner.js] is
    not among the sources.  It removes the path recursively; when the
    removal fails the path is left as it was. *)
Definition cleanupRepo (o : Outcomes) (path : string) : L unit :=
  emit (EvCleanupRepo path);;
  match cleanup_error o with
  | Some msg => throw msg
  | None =>
      update_world (fun w =>
        {| fs := delete path (fs w); clock := clock w;
           next_token := next_token w; trace := trace w |})
  end.

(** [module02Handler.grade] of [grading-engine/module-handlers/module02],
    which is not among the sources, by its answer. *)
Definition module02Handler_grade (o : Outcomes) (repoPath : string)
  : L Results :=
  emit (EvGrade repoPath);;
  match grade_result o with
  | inl msg => throw msg
  | inr r => mret r
  end.

Inductive ResponseBody :=
| Graded (student : string) (moduleNumber : float) (repositoryUrl : string)
         (results : json) (summary : Summary.t) (timestamp : Z)
| Rejected (error : string)
| Failed (error message : string) (timestamp : Z).

Record Response := {
  status : Z;
  body : ResponseBody
}.

Definition success (r : Response) : bool :=
  match body r with Graded _ _ _ _ _ _ => true | _ => false end.

Definition respond (code : Z) (b : ResponseBody) : Response :=
  {| status := code; body := b |}.

Section Handler.

(** [isValidGitHubUrl] of [grading-engine/cloner.js], the conversion of a
    number in a template literal, and [toFixed(2)]. *)
Variable isValidGitHubUrl : string -> bool.
Variable Number_toString : float -> string.
Variable toFixed2 : float -> string.

Definition validateRequestData (repoUrl moduleNumber studentName : value)
  : option string :=
  if negb (truthy repoUrl) || negb (typeof_string repoUrl) then
    Some "Invalid or missing repoUrl"
  else if negb (isValidGitHubUrl (str_of repoUrl)) then
    Some "Invalid GitHub URL format"
  else if negb (truthy moduleNumber) || negb (typeof_number moduleNumber) then
    Some "Invalid or missing moduleNumber"
  else if negb (truthy studentName) || negb (typeof_string studentName)
          || String.eqb (trim (str_of studentName)) "" then
    Some "Invalid or missing studentName"
  else None.

(** The [switch] on the module number, for the numbers the validation lets
    through. *)
Definition routeToModuleHandler (o : Outcomes) (moduleNumber : float)
    (repoPath : string) : L Results :=
  if (moduleNumber =? 2)%float then module02Handler_grade o repoPath
  else
    throw ("Module " +:+ Number_toString moduleNumber +:+
           " grading handler not implemented").

Definition try_block (o : Outcomes) (req : Body) : L Response :=
  let repoUrl := repoUrl req in
  let moduleNumber := moduleNumber req in
  let studentName := studentName req in
  match validateRequestData repoUrl moduleNumber studentName with
  | Some validationError => mret (respond 400 (Rejected validationError))
  | None =>
      path ← cloneRepo o (str_of repoUrl) (str_of studentName);
      set_clonedPath path;;
      gradingResults ← routeToModuleHandler o (num_of moduleNumber) path;
      now ← Date_now;
      mret (respond 200
              (Graded (str_of studentName) (num_of moduleNumber)
                 (str_of repoUrl) (document gradingResults)
                 {| Summary.totalScore := totalScore gradingResults;
                    Summary.maxScore := maxTotalScore gradingResults;
                    Summary.percentage :=
                      toFixed2 (totalScore gradingResults /
                                maxTotalScore gradingResults * 100)%float;
                    Summary.status :=
                      getGradingStatus (totalScore gradingResults)
                        (maxTotalScore gradingResults) |}
                 now))
  end.

Definition catch_block (message : string) (fr : Frame) : Response * Frame :=
  (respond 500 (Failed "Grading failed" message (clock (world fr))),
   {| world := tick (world fr); clonedPath := clonedPath fr |}).

Definition finally_block (o : Outcomes) (fr : Frame) : Frame :=
  match clonedPath fr with
  | Some path =>
      if negb (String.eqb path "")
      then snd (try_catch (cleanupRepo o path) (fun _ => mret tt) fr)
      else fr
  | None => fr
  end.

Definition gradeSubmission (o : Outcomes) (req : Body) (w : World)
  : Response * World :=
  let '(r, fr1) := try_block o req {| world := w; clonedPath := None |} in
  let '(response, fr2) :=
    match r with
    | inr response => (response, fr1)
    | inl message => catch_block message fr1
    end in
  (response, world (finally_block o fr2)).

End Handler.

End Legacy.

(** ** The Notion service: [backend/services/notionService.js]

    The blocks are values of the JSON document the API answers with.  The
    two prefixes that are not ASCII stand here as their UTF-8 bytes. *)

Module Notion.

(** ToBoolean on a value of a JSON document. *)
Definition truthy (j : json) : bool :=
  match j with
  | JNull => false
  | JBool b => b
  | JNum n => negb (is_zero n || is_nan n)
  | JStr s => negb (String.eqb s "")
  | JArr _ | JObj _ => true
  end.

(** [o?.k]: [undefined] on [null] (and on [undefined]), the property
    otherwise. *)
Definition get_optional (o : option json) (k : string) : option json :=
  match o with
  | None | Some JNull => None
  | Some (JObj props) => assoc k props
  | Some _ => None
  end.

Section Service.

(** The conversion of a number to a string. *)
Variable Number_toString : float -> string.

(** ToString on a value, as [join] applies it to the elements of an array:
    inside an array [null] gives the empty string, and an object gives
    [[object Object]], unless it has a property [toString] of its own,
    which is no function, and the conversion throws. *)
Fixpoint to_string (j : json) : string + string :=
  match j with
  | JNull => inr "null"
  | JBool b => inr (if b then "true" else "false")
  | JNum n => inr (Number_toString n)
  | JStr s => inr s
  | JArr items =>
      (fix join (l : list json) : string + string :=
         match l with
         | [] => inr ""
         | x :: rest =>
             match match x with JNull => inr "" | _ => to_string x end with
             | inl e => inl e
             | inr a =>
                 match rest with
                 | [] => inr a
                 | _ :: _ =>
                     match join rest with
                     | inl e => inl e
                     | inr b => inr (a +:+ "," +:+ b)
                     end
                 end
             end
         end) items
  | JObj props =>
      match assoc "toString" props with
      | Some _ => inl "Cannot convert object to primitive value"
      | None => inr "[object Object]"
      end
  end.

(** [textObj => textObj.plain_text || ''] *)
Definition plain_text_or_empty (textObj : json) : string + json :=
  match get_prop textObj "plain_text" with
  | inl e => inl e
  | inr (Some v) => inr (if truthy v then v else JStr "")
  | inr None => inr (JStr "")
  end.

(** [array.map(f)], where [f] may throw. *)
Fixpoint map_throwing {A B : Type} (f : A -> string + B) (l : list A)
  : string + list B :=
  match l with
  | [] => inr []
  | x :: rest =>
      match f x with
      | inl e => inl e
      | inr y =>
          match map_throwing f rest with
          | inl e => inl e
          | inr ys => inr (y :: ys)
          end
      end
  end.

(** [array.join('')] on values that are neither [null] nor [undefined]. *)
Fixpoint join_empty (l : list json) : string + string :=
  match l with
  | [] => inr ""
  | x :: rest =>
      match to_string x with
      | inl e => inl e
      | inr a =>
          match join_empty rest with
          | inl e => inl e
          | inr b => inr (a +:+ b)
          end
      end
  end.

Definition extractRichText (richTextArray : option json) : string + string :=
  match richTextArray with
  | Some (JArr items) =>
      match map_throwing plain_text_or_empty items with
      | inl e => inl e
      | inr texts => join_empty texts
      end
  | _ => inr ""
  end.

(** [block.type === name && block[name]?.rich_text], and then the text
    of [block[name].rich_text]. *)
Definition rich_text_of (block : json) (blockType : option json)
    (name : string) : option (string + string) :=
  match blockType with
  | Some (JStr t) =>
      if String.eqb t name then
        let content :=
          match get_prop block name with
          | inr v => v
          | inl _ => None
          end in
        match get_optional content "rich_text" with
        | Some rich_text =>
            if truthy rich_text then Some (extractRichText (Some rich_text))
            else None
        | None => None
        end
      else None
  | _ => None
  end.

Definition bullet : string := "• ".
Definition bulb : string := "💡 ".
Definition fence : string := "```".

Definition extractTextFromBlock (block : json) : option string :=
  match get_prop block "type" with
  | inl _ => None
  | inr blockType =>
      let text name before after :=
        match rich_text_of block blockType name with
        | Some (inr t) => Some (Some (before +:+ t +:+ after))
        | Some (inl _) => Some None
        | None => None
        end in
      match text "paragraph" "" "" with
      | Some r => r
      | None =>
      match text "heading_1" "# " "" with
      | Some r => r
      | None =>
      match text "heading_2" "## " "" with
      | Some r => r
      | None =>
      match text "heading_3" "### " "" with
      | Some r => r
      | None =>
      match text "bulleted_list_item" bullet "" with
      | Some r => r
      | None =>
      match text "numbered_list_item" "- " "" with
      | Some r => r
      | None =>
      match text "code" (fence +:+ newline) (newline +:+ fence) with
      | Some r => r
      | None =>
      match text "quote" "> " "" with
      | Some r => r
      | None =>
      match text "callout" bulb "" with
      | Some r => r
      | None => None
      end end end end end end end end end
  end.

(** The values a [for ... of] over [response.results] goes through: the
    elements of an array, the characters of a string; anything else is not
    iterable. *)
Definition iterate (v : json) : string + list json :=
  match v with
  | JArr items => inr items
  | JStr s => inr (map (fun c => JStr (String c EmptyString))
                       (list_ascii_of_string s))
  | _ => inl "response.results is not iterable"
  end.

(** The loop that collects the texts that are not empty. *)
Fixpoint collect (blocks : list json) (textContent : list string)
  : list string :=
  match blocks with
  | [] => textContent
  | block :: rest =>
      match extractTextFromBlock block with
      | Some text =>
          if negb (String.eqb text "")
          then collect rest (textContent ++ [text])
          else collect rest textContent
      | None => collect rest textContent
      end
  end.

(** [fetchPageContent], given what [notion.blocks.children.list] answers
    for the page ([inl] is the message of the error it throws). *)
Definition fetchPageContent (answer : string + json) : string + string :=
  let attempt : string + string :=
    match answer with
    | inl message => inl message
    | inr response =>
        match get_prop response "results" with
        | inl e => inl e
        | inr None =>
            inl "Cannot read properties of undefined (reading 'length')"
        | inr (Some JNull) =>
            inl "Cannot read properties of null (reading 'length')"
        | inr (Some results) =>
            match iterate results with
            | inl e => inl e
            | inr blocks =>
                inr (String.concat (newline +:+ newline) (collect blocks []))
            end
        end
    end in
  match attempt with
  | inl message => inl ("Failed to fetch Notion page: " +:+ message)
  | inr combinedText => inr combinedText
  end.

End Service.

End Notion.

(** ** The dashboard: [frontend/src/components/Dashboard.jsx]

    Of the component, the two computations on the reviews of the store: the
    filter of [fetchReviews] and the feedback shown for the selected
    review.  A review is an object of the JSON document the API answers
    with. *)

Module Dashboard.

Section Component.

Variable JSON_parse : string -> string + json.
Variable Number_toString : float -> string.

(** [r => r.status === 'GRADED'] *)
Definition is_graded (r : json) : string + bool :=
  match get_prop r "status" with
  | inl e => inl e
  | inr (Some (JStr s)) => inr (String.eqb s "GRADED")
  | inr _ => inr false
  end.

(** [array.filter(f)], where [f] may throw. *)
Fixpoint filter_throwing {A : Type} (f : A -> string + bool) (l : list A)
  : string + list A :=
  match l with
  | [] => inr []
  | x :: rest =>
      match f x with
      | inl e => inl e
      | inr keep =>
          match filter_throwing f rest with
          | inl e => inl e
          | inr kept => inr (if keep then x :: kept else kept)
          end
      end
  end.

(** [(data.data || []).filter(r => r.status === 'GRADED')] *)
Definition gradedReviews (data : json) : string + list json :=
  match get_prop data "data" with
  | inl e => inl e
  | inr (Some (JArr items)) => filter_throwing is_graded items
  | inr (Some v) =>
      if Notion.truthy v
      then inl "(data.data || []).filter is not a function"
      else inr []
  | inr None => inr []
  end.

(** [v || d] *)
Definition or_else (v : option json) (d : json) : json :=
  match v with
  | Some x => if Notion.truthy x then x else d
  | None => d
  end.

(** The text [JSON.parse] is given: [selectedReview.reviewContent || '{}'],
    converted to a string when it is none. *)
Definition content_text (reviewContent : option json) : string + string :=
  match or_else reviewContent (JStr "{}") with
  | JStr s => inr s
  | v => Notion.to_string Number_toString v
  end.

(** The expression that fills the feedback box of the selected review,
    an object with the properties [selectedReview]. *)
Definition feedback_shown (selectedReview : list (string * json)) : json :=
  let none := JStr "No feedback available" in
  let attempt : string + json :=
    match content_text (assoc "reviewContent" selectedReview) with
    | inl e => inl e
    | inr text =>
        match JSON_parse text with
        | inl e => inl e
        | inr content =>
            match get_prop content "feedback" with
            | inl e => inl e
            | inr feedback =>
                match get_prop content "summary" with
                | inl e => inl e
                | inr summary =>
                    inr (or_else feedback
                           (or_else (Notion.get_optional summary "feedback")
                              none))
                end
            end
        end
    end in
  match attempt with
  | inr shown => shown
  | inl _ =>
      or_else (assoc "feedbackContent" selectedReview)
        (or_else (assoc "aiFeedback" selectedReview) none)
  end.

End Component.

End Dashboard.

(** ** A reference runtime

    Small executable versions of the runtime functions the controller is
    parameterised by, used to run the model on concrete requests.  They cover
    what the examples need: documents whose numbers are integers and whose
    strings need no escape beyond the quote and the backslash.  The parser
    reports every malformed text with one message, where the engine's
    [SyntaxError] also names the token and the position. *)

Module Ref.

Definition quote : ascii := ascii_of_nat 34.
Definition backslash : ascii := ascii_of_nat 92.

(** The integer a number is, if it is one. *)
Definition to_Z (f : float) : option Z :=
  match Prim2SF f with
  | S754_zero _ => Some 0
  | S754_finite s m e =>
      let a :=
        if 0 <=? e then Some (Zpos m * 2 ^ e)
        else if Zpos m mod 2 ^ (- e) =? 0 then Some (Zpos m / 2 ^ (- e))
        else None in
      if s then option_map Z.opp a else a
  | _ => None
  end.

Fixpoint pad_left (n : nat) (s : string) : string :=
  match n with
  | O => s
  | S n' => if Nat.ltb (String.length s) n then pad_left n' ("0" +:+ s) else s
  end.

(** [x.toFixed(2)] for a finite [x]: the closest multiple of 1/100, the
    larger in magnitude on a tie. *)
Definition toFixed2 (x : float) : string :=
  match Prim2SF x with
  | S754_zero _ => "0.00"
  | S754_finite s m e =>
      let n :=
        if 0 <=? e then Zpos m * 2 ^ e * 100
        else (2 * Zpos m * 100 + 2 ^ (- e)) / 2 ^ (- e + 1) in
      let digits := pad_left 3 (pretty n) in
      let k := (String.length digits - 2)%nat in
      (if s then "-" else "") +:+ String.substring 0 k digits +:+ "." +:+
      String.substring k 2 digits
  | S754_infinity s => if s then "-Infinity" else "Infinity"
  | S754_nan => "NaN"
  end.

(** Numbers as text: integers in decimal, the other finite numbers to two
    decimals. *)
Definition Number_toString (x : float) : string :=
  match to_Z x with
  | Some z => pretty z
  | None => toFixed2 x
  end.

Fixpoint escape (s : string) : string :=
  match s with
  | EmptyString => EmptyString
  | String c r =>
      if Ascii.eqb c quote || Ascii.eqb c backslash
      then String backslash (String c (escape r))
      else String c (escape r)
  end.

Definition quoted (s : string) : string :=
  String quote (escape s) +:+ String quote EmptyString.

Definition join (sep : string) (parts : list string) : string :=
  match parts with
  | [] => ""
  | p :: ps => fold_left (fun acc q => acc +:+ sep +:+ q) ps p
  end.

Fixpoint JSON_stringify (j : json) : string :=
  match j with
  | JNull => "null"
  | JBool b => if b then "true" else "false"
  | JNum n => Number_toString n
  | JStr s => quoted s
  | JArr items => "[" +:+ join "," (map JSON_stringify items) +:+ "]"
  | JObj props =>
      "{" +:+
      join "," (map (fun kv => quoted (fst kv) +:+ ":" +:+
                               JSON_stringify (snd kv)) props) +:+
      "}"
  end.

Fixpoint skip_ws (s : string) : string :=
  match s with
  | String c r => if is_whitespace c then skip_ws r else s
  | EmptyString => EmptyString
  end.

Fixpoint strip (p s : string) : option string :=
  match p with
  | EmptyString => Some s
  | String a p' =>
      match s with
      | String b s' => if Ascii.eqb a b then strip p' s' else None
      | EmptyString => None
      end
  end.

(** The characters up to the closing quote. *)
Fixpoint take_string (s : string) : option (string * string) :=
  match s with
  | EmptyString => None
  | String c r =>
      if Ascii.eqb c quote then Some (EmptyString, r)
      else if Ascii.eqb c backslash then
        match r with
        | String d r' =>
            if Ascii.eqb d quote || Ascii.eqb d backslash then
              match take_string r' with
              | Some (a, rest) => Some (String d a, rest)
              | None => None
              end
            else None
        | EmptyString => None
        end
      else
        match take_string r with
        | Some (a, rest) => Some (String c a, rest)
        | None => None
        end
  end.

Definition digit (c : ascii) : option Z :=
  let n := nat_of_ascii c in
  if Nat.leb 48 n && Nat.leb n 57 then Some (Z.of_nat n - 48) else None.

Fixpoint take_digits (s : string) (acc : Z) : Z * string :=
  match s with
  | EmptyString => (acc, s)
  | String c r =>
      match digit c with
      | Some d => take_digits r (10 * acc + d)
      | None => (acc, s)
      end
  end.

Definition number_end (s : string) : bool :=
  match s with
  | String c _ => negb (Ascii.eqb c "." || Ascii.eqb c "e" || Ascii.eqb c "E")
  | EmptyString => true
  end.

Definition take_number (negative : bool) (s : string)
  : option (json * string) :=
  match s with
  | String c _ =>
      match digit c with
      | Some _ =>
          let '(z, rest) := take_digits s 0 in
          if number_end rest
          then Some (JNum (Num.of_Z (if negative then - z else z)), rest)
          else None
      | None => None
      end
  | EmptyString => None
  end.

Section Sequences.
Variable parse : string -> option (json * string).

Fixpoint parse_items (fuel : nat) (s : string) (acc : list json)
  : option (json * string) :=
  match fuel with
  | O => None
  | S n =>
      match parse s with
      | None => None
      | Some (v, r) =>
          match skip_ws r with
          | String c r' =>
              if Ascii.eqb c "," then parse_items n r' (acc ++ [v])
              else if Ascii.eqb c "]" then Some (JArr (acc ++ [v]), r')
              else None
          | EmptyString => None
          end
      end
  end.

Fixpoint parse_members (fuel : nat) (s : string)
    (acc : list (string * json)) : option (json * string) :=
  match fuel with
  | O => None
  | S n =>
      match strip (String quote EmptyString) (skip_ws s) with
      | None => None
      | Some r =>
          match take_string r with
          | None => None
          | Some (k, r1) =>
              match strip ":" (skip_ws r1) with
              | None => None
              | Some r2 =>
                  match parse r2 with
                  | None => None
                  | Some (v, r3) =>
                      match skip_ws r3 with
                      | String c r' =>
                          if Ascii.eqb c ","
                          then parse_members n r' (acc ++ [(k, v)])
                          else if Ascii.eqb c "}"
                          then Some (JObj (acc ++ [(k, v)]), r')
                          else None
                      | EmptyString => None
                      end
                  end
              end
          end
      end
  end.
End Sequences.

Fixpoint parse_value (fuel : nat) (text : string) : option (json * string) :=
  match fuel with
  | O => None
  | S n =>
      let s := skip_ws text in
      match strip "null" s, strip "true" s, strip "false" s with
      | Some r, _, _ => Some (JNull, r)
      | _, Some r, _ => Some (JBool true, r)
      | _, _, Some r => Some (JBool false, r)
      | None, None, None =>
          match s with
          | EmptyString => None
          | String c r =>
              if Ascii.eqb c quote then
                match take_string r with
                | Some (a, rest) => Some (JStr a, rest)
                | None => None
                end
              else if Ascii.eqb c "[" then
                match strip "]" (skip_ws r) with
                | Some rest => Some (JArr [], rest)
                | None => parse_items (parse_value n) n r []
                end
              else if Ascii.eqb c "{" then
                match strip "}" (skip_ws r) with
                | Some rest => Some (JObj [], rest)
                | None => parse_members (parse_value n) n r []
                end
              else if Ascii.eqb c "-" then take_number true r
              else take_number false s
          end
      end
  end.

Definition JSON_parse (text : string) : string + json :=
  match parse_value (S (String.length text)) text with
  | Some (j, rest) =>
      match skip_ws rest with
      | EmptyString => inr j
      | _ => inl "Unexpected non-whitespace character after JSON"
      end
  | None => inl "Unexpected token in JSON"
  end.

(** Modelled from the spec: [isValidGitHubUrl] of
    [grading-engine/cloner.js] is not among the sources; the check is
    that the reference has the URL shape of the hosting provider. *)
Definition isValidGitHubUrl (s : string) : bool :=
  String.prefix "https://github.com/" s &&
  Nat.ltb (String.length "https://github.com/") (String.length s).

Definition gradeSubmission : Outcomes -> Body -> World -> Response * World :=
  gradeSubmission JSON_parse JSON_stringify Number_toString toFixed2
    isValidGitHubUrl.

End Ref.

(** ** Specification-side definitions *)

(** The completeness sub-score as the specification words it. *)
Definition completeness_spec (score : float) : float :=
  if (60 <? score)%float then 40%float
  else Num.Math_min 40 (Num.Math_round (score * 0.4)%float).

(** The first validation step: the field is missing or is not a string. *)
Definition missing_or_malformed (v : value) : bool :=
  negb (truthy v) || negb (typeof_string v).

(** The instructions are absent, not a string, or empty once trimmed. *)
Definition instructions_missing (v : value) : bool :=
  negb (truthy v) || negb (typeof_string v) || String.eqb (trim (str_of v)) "".

(** The cache key of a request: ([repoName], [branchName],
    [studentName || null]). *)
Definition cache_key (req : Body) : option WhereClause :=
  match student_column (or_null (studentName req)) with
  | Some st =>
      Some {| where_repoName := str_of (repoName req);
              where_branchName := str_of (branchName req);
              where_studentName := st |}
  | None => None
  end.

(** The regular files of a tree in traversal order, each with the chain of
    directories that leads to it from the root. *)
Fixpoint walk (dirs : list string) (e : entry) : list (list string * string) :=
  match e with
  | File name _ => [(dirs, name)]
  | Dir name children => flat_map (walk (dirs ++ [name])) children
  | Other _ => []
  end.

Definition listing (entries : list entry) : list (list string * string) :=
  flat_map (walk []) entries.

(** The directories of a tree in traversal order, as chains from the root. *)
Fixpoint walk_dirs (dirs : list string) (e : entry) : list (list string) :=
  match e with
  | Dir name children =>
      (dirs ++ [name]) :: flat_map (walk_dirs (dirs ++ [name])) children
  | _ => []
  end.

Definition not_ignored (dirs : list string) : bool :=
  forallb (fun d => negb (includes ignoreDirs d)) dirs.

(** A file is selected when no directory on the way to it is excluded and
    its extension is allowed. *)
Definition selected (item : list string * string) : bool :=
  not_ignored (fst item) && includes codeExtensions (Extname.extname (snd item)).

Definition below (root : string) (names : list string) : string :=
  fold_left path_join names root.

Definition scan_spec (root : string) (entries : list entry) : list string :=
  map (fun item => below root (fst item ++ [snd item]))
      (List.filter selected (listing entries)).

Definition opened_spec (root : string) (entries : list entry) : list string :=
  root :: map (below root)
            (List.filter not_ignored (flat_map (walk_dirs []) entries)).

Definition empty_scan : ScanState := {| files := []; opened := [] |}.

(** ** Facts about binary64 arithmetic *)

Module FloatFacts.

Lemma SFcompare_refl x : x <> S754_nan -> SFcompare x x = Some Eq.
Proof.
  destruct x as [s|s| |s m e]; simpl; intros H; try congruence;
    destruct s; try reflexivity;
    now rewrite Z.compare_refl, Pos.compare_cont_refl.
Qed.

Lemma is_nan_spec x :
  is_nan x = match Prim2SF x with S754_nan => true | _ => false end.
Proof.
  unfold is_nan. rewrite FloatAxioms.eqb_spec. unfold SFeqb.
  destruct (Prim2SF x) eqn:E; try reflexivity;
    rewrite SFcompare_refl by congruence; reflexivity.
Qed.

Lemma is_nan_eq x : is_nan x = true -> x = nan.
Proof.
  rewrite is_nan_spec. intros H. apply Prim2SF_inj.
  destruct (Prim2SF x); try discriminate. reflexivity.
Qed.

Lemma digits2_pos_le p :
  forall j, 0 <= j -> Zpos p < 2 ^ j -> Zpos (digits2_pos p) <= j.
Proof.
  induction p as [p IH|p IH|]; intros j Hj H; simpl.
  - assert (j <> 0) by (intros ->; simpl in H; lia).
    replace j with (Z.succ (j - 1)) in H by lia.
    rewrite Z.pow_succ_r in H by lia.
    rewrite Pos2Z.inj_succ. specialize (IH (j - 1)). lia.
  - assert (j <> 0) by (intros ->; simpl in H; lia).
    replace j with (Z.succ (j - 1)) in H by lia.
    rewrite Z.pow_succ_r in H by lia.
    rewrite Pos2Z.inj_succ. specialize (IH (j - 1)). lia.
  - assert (j <> 0) by (intros ->; simpl in H; lia). lia.
Qed.

Lemma digits2_pos_gt p : Zpos p < 2 ^ Zpos (digits2_pos p).
Proof.
  induction p as [p IH|p IH|]; simpl; try reflexivity;
    rewrite Pos2Z.inj_succ, Z.pow_succ_r by lia; lia.
Qed.

Lemma Zdigits2_le m j : 0 <= m -> 0 <= j -> m < 2 ^ j -> Zdigits2 m <= j.
Proof.
  destruct m as [|p|p]; simpl; intros; try lia. now apply digits2_pos_le.
Qed.

Lemma shr_m_shr_1 mrs : 0 <= shr_m mrs -> shr_m (shr_1 mrs) = shr_m mrs / 2.
Proof.
  destruct mrs as [m r s]. simpl.
  destruct m as [|[p|p|]|p]; simpl; intros H; try lia; try reflexivity.
  - rewrite (Pos2Z.inj_xI p). apply Z.div_unique with (r := 1); lia.
  - rewrite (Pos2Z.inj_xO p). apply Z.div_unique with (r := 0); lia.
Qed.

Lemma shr_m_iter p : forall mrs, 0 <= shr_m mrs ->
  shr_m (SpecFloat.iter_pos shr_1 p mrs) = shr_m mrs / 2 ^ Zpos p.
Proof.
  assert (Hnn : forall a k, 0 <= a -> 0 <= a / 2 ^ Zpos k).
  { intros. apply Z.div_pos; [assumption|]. apply Z.pow_pos_nonneg; lia. }
  induction p as [p IH|p IH|]; intros mrs H; simpl SpecFloat.iter_pos.
  - rewrite !IH, shr_m_shr_1; try assumption.
    + rewrite !Z.div_div by (try apply Z.pow_pos_nonneg; lia).
      f_equal. rewrite (Pos2Z.inj_xI p).
      replace (2 * Zpos p + 1) with (1 + Zpos p + Zpos p) by lia.
      rewrite !Z.pow_add_r by lia. rewrite Z.pow_1_r. lia.
    + rewrite shr_m_shr_1 by assumption. apply Z.div_pos; lia.
    + rewrite IH, shr_m_shr_1; try assumption.
      * apply Hnn. apply Z.div_pos; lia.
      * rewrite shr_m_shr_1 by assumption. apply Z.div_pos; lia.
  - rewrite !IH; try assumption.
    + rewrite !Z.div_div by (try apply Z.pow_pos_nonneg; lia).
      f_equal. rewrite (Pos2Z.inj_xO p).
      replace (2 * Zpos p) with (Zpos p + Zpos p) by lia.
      now rewrite !Z.pow_add_r by lia.
    + rewrite IH by assumption. now apply Hnn.
  - rewrite shr_m_shr_1 by assumption. now rewrite Z.pow_1_r.
Qed.

Lemma round_nearest_even_bounds m l :
  m <= round_nearest_even m l <= m + 1.
Proof. destruct l as [|[]]; simpl; try destruct (Z.even m); lia. Qed.

(** A right shift keeps a bound [m <= 2^(B - e)] on the value. *)
Lemma shr_le m r s e n B :
  0 <= m -> m <= 2 ^ (B - e) -> e + n <= B ->
  0 <= shr_m (fst (shr (Build_shr_record m r s) e n)) <=
    2 ^ (B - snd (shr (Build_shr_record m r s) e n)) /\
  (snd (shr (Build_shr_record m r s) e n) = e /\ n <= 0 \/
   snd (shr (Build_shr_record m r s) e n) = e + n /\ 0 < n).
Proof.
  intros Hm Hb Hn. destruct n as [|p|p]; simpl; try (split; [lia | left; lia]).
  split; [|right; lia].
  rewrite shr_m_iter by assumption. simpl shr_m.
  assert (0 < 2 ^ Zpos p) by (apply Z.pow_pos_nonneg; lia).
  split; [apply Z.div_pos; lia|].
  apply Z.div_le_upper_bound; [assumption|].
  rewrite <- Z.pow_add_r by lia.
  now replace (Zpos p + (B - (e + Zpos p))) with (B - e) by lia.
Qed.

Lemma shr_lt m r s e n B :
  0 <= m -> m < 2 ^ (B - e) -> e + n <= B -> e <= B ->
  shr_m (fst (shr (Build_shr_record m r s) e n)) <
    2 ^ (B - snd (shr (Build_shr_record m r s) e n)).
Proof.
  intros Hm Hb Hn He. destruct n as [|p|p]; simpl; try lia.
  rewrite shr_m_iter by assumption. simpl shr_m.
  assert (0 < 2 ^ Zpos p) by (apply Z.pow_pos_nonneg; lia).
  apply Z.div_lt_upper_bound; [assumption|].
  rewrite <- Z.pow_add_r by lia.
  now replace (Zpos p + (B - (e + Zpos p))) with (B - e) by lia.
Qed.

(** Rounding a positive value below [2^B] gives a value of at most [2^B]. *)
Lemma binary_round_aux_le s M E B :
  0 < M -> M < 2 ^ (B - E) -> E <= B - 53 -> -1021 <= B <= 1023 ->
  binary_round_aux prec emax s M E loc_Exact = S754_zero s \/
  exists mf ef,
    binary_round_aux prec emax s M E loc_Exact = S754_finite s mf ef /\
    ef <= B - 52 /\ Zpos mf <= 2 ^ (B - ef).
Proof.
  intros HM Hb HE HB.
  unfold binary_round_aux, shr_fexp. simpl shr_record_of_loc.
  assert (HD : Zdigits2 M <= B - E) by (apply Zdigits2_le; lia).
  set (n1 := fexp prec emax (Zdigits2 M + E) - E).
  assert (Hn1 : E + n1 <= B - 53).
  { unfold n1, fexp, emin, prec, emax. lia. }
  pose proof (shr_le M false false E n1 B ltac:(lia) ltac:(lia) ltac:(lia))
    as [[H1 _] H1e].
  pose proof (shr_lt M false false E n1 B ltac:(lia) ltac:(lia) ltac:(lia)
                ltac:(lia)) as H1lt.
  destruct (shr (Build_shr_record M false false) E n1) as [mrs1 e1].
  simpl fst in *; simpl snd in *.
  pose proof (round_nearest_even_bounds (shr_m mrs1) (loc_of_shr_record mrs1))
    as Hr.
  set (m1 := round_nearest_even (shr_m mrs1) (loc_of_shr_record mrs1)) in *.
  assert (He1 : e1 <= B - 53) by lia.
  assert (Hd1 : Zdigits2 m1 <= B - e1 + 1).
  { apply Zdigits2_le; try lia.
    replace (B - e1 + 1) with (Z.succ (B - e1)) by lia.
    rewrite Z.pow_succ_r by lia.
    assert (0 < 2 ^ (B - e1)) by (apply Z.pow_pos_nonneg; lia). lia. }
  set (n2 := fexp prec emax (Zdigits2 m1 + e1) - e1).
  assert (Hn2 : e1 + n2 <= B - 52).
  { unfold n2, fexp, emin, prec, emax. lia. }
  pose proof (shr_le m1 false false e1 n2 B ltac:(lia) ltac:(lia) ltac:(lia))
    as [[H2 H2b] H2e].
  destruct (shr (Build_shr_record m1 false false) e1 n2) as [mrs2 e2].
  simpl fst in *; simpl snd in *.
  destruct (shr_m mrs2) as [|mf|mf]; [now left| |lia].
  right. exists mf, e2.
  assert (e2 <= B - 52) by lia.
  replace (e2 <=? emax - prec) with true
    by (symmetry; apply Z.leb_le; unfold emax, prec; lia).
  auto.
Qed.

Lemma binary_round_aux_sign s m e l :
  match binary_round_aux prec emax s m e l with
  | S754_zero s' | S754_infinity s' | S754_finite s' _ _ => s' = s
  | S754_nan => True
  end.
Proof.
  unfold binary_round_aux.
  destruct (shr_fexp prec emax m e l) as [mrs1 e1].
  destruct (shr_fexp prec emax _ e1 loc_Exact) as [mrs2 e2].
  destruct (shr_m mrs2); try destruct (e2 <=? emax - prec); auto.
Qed.

(** Values that are not above 32: [NaN], the zeros, everything negative,
    and the positive [m * 2^e] with [m <= 2^(5 - e)]. *)
Definition le32 (x : spec_float) : Prop :=
  match x with
  | S754_nan | S754_zero _ => True
  | S754_infinity s => s = true
  | S754_finite s m e => s = true \/ (e <= -47 /\ Zpos m <= 2 ^ (5 - e))
  end.

Definition le32b (x : spec_float) : bool :=
  match x with
  | S754_nan | S754_zero _ => true
  | S754_infinity s => s
  | S754_finite s m e => s || ((e <=? -47) && (Zpos m <=? 2 ^ (5 - e)))
  end.

Lemma le32b_le32 x : le32b x = true -> le32 x.
Proof.
  destruct x as [s|s| |s m e]; simpl; auto.
  destruct s; simpl; auto. rewrite andb_true_iff, Z.leb_le, Z.leb_le. auto.
Qed.

Lemma le32_not_above_40 x : le32 x -> SFltb (Prim2SF 40%float) x = false.
Proof.
  change (Prim2SF 40%float) with (S754_finite false 5629499534213120 (-47)).
  destruct x as [s|s| |s m e]; simpl; try reflexivity.
  - now intros ->.
  - intros [->|[He Hm]]; [reflexivity|]. destruct s; [reflexivity|].
    unfold SFltb, SFcompare.
    destruct (Z.compare_spec (-47) e) as [<-| |]; try reflexivity; try lia.
    change (Pos.compare_cont Eq 5629499534213120 m)
      with (5629499534213120 ?= m)%positive.
    destruct (Pos.compare_spec 5629499534213120 m) as [<-| |];
      try reflexivity.
    exfalso. change (2 ^ (5 - -47)) with 4503599627370496 in Hm. lia.
Qed.

(** The product of a score of at most 60 with 0.4 is at most 32. *)
Lemma mul_04_le32 (s : float) :
  (60 <? s)%float = false -> le32 (Prim2SF (s * 0.4)%float).
Proof.
  rewrite FloatAxioms.ltb_spec, mul_spec. intros H60.
  pose proof (Prim2SF_valid s) as Hv.
  change (Prim2SF 0.4%float) with (S754_finite false 7205759403792794 (-54)).
  change (Prim2SF 60%float)
    with (S754_finite false 8444249301319680 (-47)) in H60.
  destruct (Prim2SF s) as [sx|sx| |sx m e]; simpl; auto.
  - destruct sx; [reflexivity | discriminate].
  - pose proof (binary_round_aux_sign (xorb sx false)
                  (Zpos (m * 7205759403792794)) (e + -54) loc_Exact) as Hs.
    destruct sx; simpl xorb in *.
    { destruct (binary_round_aux _ _ _ _ _ _); simpl; auto. }
    assert (He : e <= -47).
    { unfold SFltb, SFcompare in H60.
      destruct (Z.compare_spec (-47) e); try discriminate; lia. }
    assert (Hm : Zpos m < 2 ^ 53).
    { simpl in Hv. unfold bounded, canonical_mantissa in Hv.
      apply andb_true_iff in Hv as [Hc _]. apply Z.eqb_eq in Hc.
      pose proof (digits2_pos_gt m) as Hd.
      assert (Zpos (digits2_pos m) <= 53)
        by (revert Hc; unfold fexp, emin, prec, emax; lia).
      eapply Z.lt_le_trans; [exact Hd|]. apply Z.pow_le_mono_r; lia. }
    destruct (binary_round_aux_le false (Zpos (m * 7205759403792794))
                (e + -54) 5)
      as [->|(mf & ef & -> & Hef & Hmf)]; simpl; auto; try lia.
    rewrite Pos2Z.inj_mul.
    apply Z.lt_le_trans with (2 ^ 53 * 2 ^ 53).
    + apply Z.mul_lt_mono_nonneg; lia.
    + rewrite <- Z.pow_add_r by lia. apply Z.pow_le_mono_r; lia.
Qed.

Lemma of_Z_small n : 1 <= n <= 32 -> le32 (Prim2SF (Num.of_Z n)).
Proof.
  intros Hn. apply le32b_le32.
  assert (Hall : forallb (fun k => le32b (Prim2SF (Num.of_Z (Z.of_nat k))))
                   (seq 1 32) = true)
    by (vm_compute; reflexivity).
  rewrite forallb_forall in Hall.
  replace n with (Z.of_nat (Z.to_nat n)) by lia.
  apply Hall, in_seq. lia.
Qed.

Lemma of_Z_negative n : n < 0 -> le32 (Prim2SF (Num.of_Z n)).
Proof.
  intros Hn. unfold Num.of_Z.
  replace (0 <=? n) with false by (symmetry; apply Z.leb_gt; lia).
  rewrite opp_spec, of_uint63_spec.
  destruct (Uint63.to_Z_bounded (Uint63.of_Z (- n))) as [Hpos _].
  destruct (Uint63.to_Z (Uint63.of_Z (- n))) as [|p|p]; simpl; auto; try lia.
  unfold binary_round. destruct (shl_align _ _ _) as [mz ez].
  pose proof (binary_round_aux_sign false (Zpos mz) ez loc_Exact) as Hs.
  destruct (binary_round_aux _ _ _ _ _ _); simpl; subst; auto.
Qed.

Lemma Math_round_le32 y :
  le32 (Prim2SF y) -> le32 (Prim2SF (Num.Math_round y)).
Proof.
  unfold Num.Math_round. destruct (Prim2SF y) as [s|s| |s m e] eqn:E;
    try (rewrite E; now auto).
  intros Hy. destruct (0 <=? e) eqn:He; [now rewrite E|].
  apply Z.leb_gt in He.
  set (k := - e). assert (Hk : 0 < k) by (unfold k; lia).
  assert (H2k : 0 < 2 ^ k) by (apply Z.pow_pos_nonneg; lia).
  assert (H2k1 : 2 ^ (k + 1) = 2 * 2 ^ k)
    by (rewrite Z.pow_add_r, Z.pow_1_r by lia; lia).
  set (n := (2 * (if s then Z.neg m else Z.pos m) + 2 ^ k) / 2 ^ (k + 1)).
  destruct (n =? 0) eqn:Hn0; [destruct s; exact I|].
  apply Z.eqb_neq in Hn0. destruct s.
  - apply of_Z_negative.
    assert (n < 1); [|lia].
    apply Z.div_lt_upper_bound; lia.
  - destruct Hy as [Hy|[He' Hm]]; [discriminate|].
    apply of_Z_small.
    assert (Hp : 2 ^ (5 - e) = 32 * 2 ^ k).
    { replace (5 - e) with (5 + k) by (unfold k; lia).
      now rewrite Z.pow_add_r by lia. }
    assert (0 <= n) by (apply Z.div_pos; lia).
    assert (n < 33); [|lia].
    apply Z.div_lt_upper_bound; lia.
Qed.

Lemma Math_min_40_id r : (40 <? r)%float = false -> Num.Math_min 40 r = r.
Proof.
  intros H. unfold Num.Math_min.
  change (is_nan 40) with false. simpl orb.
  destruct (is_nan r) eqn:Hnan; [symmetry; now apply is_nan_eq|].
  destruct (r <? 40)%float; [reflexivity|]. now rewrite H.
Qed.

Lemma completeness_bounded (s : float) :
  (60 <? s)%float = false ->
  (40 <? Num.Math_round (s * 0.4))%float = false.
Proof.
  intros H. rewrite FloatAxioms.ltb_spec.
  now apply le32_not_above_40, Math_round_le32, mul_04_le32.
Qed.

(** The order of two finite values of the same sign. *)
Definition lex (e1 : Z) (m1 : positive) (e2 : Z) (m2 : positive)
  : comparison :=
  match e1 ?= e2 with
  | Lt => Lt
  | Gt => Gt
  | Eq => Pos.compare_cont Eq m1 m2
  end.

Lemma lex_spec e1 m1 e2 m2 :
  match lex e1 m1 e2 m2 with
  | Lt => e1 < e2 \/ (e1 = e2 /\ (m1 < m2)%positive)
  | Eq => e1 = e2 /\ m1 = m2
  | Gt => e2 < e1 \/ (e1 = e2 /\ (m2 < m1)%positive)
  end.
Proof.
  unfold lex. change (Pos.compare_cont Eq m1 m2) with (m1 ?= m2)%positive.
  destruct (Z.compare_spec e1 e2); destruct (Pos.compare_spec m1 m2); lia.
Qed.

Lemma SFcompare_finite s1 m1 e1 s2 m2 e2 :
  SFcompare (S754_finite s1 m1 e1) (S754_finite s2 m2 e2) =
  Some match s1, s2 with
       | true, false => Lt
       | false, true => Gt
       | false, false => lex e1 m1 e2 m2
       | true, true => CompOpp (lex e1 m1 e2 m2)
       end.
Proof.
  unfold lex. simpl. destruct s1, s2; try reflexivity.
  destruct (e1 ?= e2); reflexivity.
Qed.

Lemma SFltb_SFleb_trans x a b :
  SFltb x a = true -> SFleb a b = true -> SFleb b x = false.
Proof.
  unfold SFltb, SFleb.
  destruct x as [sx|sx| |sx mx ex], a as [sa|sa| |sa ma ea],
           b as [sb|sb| |sb mb eb];
    rewrite ?SFcompare_finite;
    try (simpl; congruence);
    try (destruct sx; simpl; congruence);
    try (destruct sa; simpl; congruence);
    try (destruct sb; simpl; congruence);
    try (destruct sx, sa; simpl; congruence);
    try (destruct sx, sb; simpl; congruence);
    try (destruct sa, sb; simpl; congruence);
    try (destruct sx, sa, sb; simpl; congruence).
  pose proof (lex_spec ex mx ea ma); pose proof (lex_spec ea ma eb mb);
    pose proof (lex_spec eb mb ex mx).
  destruct sx, sa, sb; simpl; try congruence;
    destruct (lex ex mx ea ma), (lex ea ma eb mb), (lex eb mb ex mx);
    simpl; try congruence; intros _ _; exfalso; lia.
Qed.

(** Below [a], hence not at or above any [b] that [a] does not exceed. *)
Lemma ltb_leb_trans x a b :
  (x <? a)%float = true -> (a <=? b)%float = true -> (b <=? x)%float = false.
Proof.
  rewrite FloatAxioms.ltb_spec, !FloatAxioms.leb_spec.
  apply SFltb_SFleb_trans.
Qed.

End FloatFacts.

Lemma completeness_score_spec score :
  completeness_score score = completeness_spec score.
Proof.
  unfold completeness_score, completeness_spec.
  destruct (60 <? score)%float eqn:E; [reflexivity|].
  symmetry. now apply FloatFacts.Math_min_40_id, FloatFacts.completeness_bounded.
Qed.



(** ** Running the computations *)

(** The frame after some events were logged. *)
Definition frame_log (evs : list Event) (fr : Frame) : Frame :=
  {| world := log_events evs (world fr); clonedPath := clonedPath fr |}.

Lemma bind_run {A B : Type} (m : M A) (f : A -> M B) (fr : Frame) :
  (m ≫= f) fr =
  match m fr with
  | (inl e, fr') => (inl e, fr')
  | (inr a, fr') => f a fr'
  end.
Proof. reflexivity. Qed.

Lemma ret_run {A : Type} (a : A) (fr : Frame) :
  (mret a : M A) fr = (inr a, fr).
Proof. reflexivity. Qed.

Lemma throw_run {A : Type} (msg : string) (fr : Frame) :
  @throw A msg fr = (inl msg, fr).
Proof. reflexivity. Qed.

Ltac mrun :=
  repeat first
    [ rewrite bind_run | rewrite ret_run | rewrite throw_run
    | progress cbv beta iota zeta ].

Lemma emit_run e fr : emit e fr = (inr tt, frame_log [e] fr).
Proof. reflexivity. Qed.

Lemma frame_log_app a b fr : frame_log b (frame_log a fr) = frame_log (a ++ b) fr.
Proof.
  unfold frame_log, log_events. simpl. now rewrite app_assoc.
Qed.

Lemma frame_log_nil fr : frame_log [] fr = fr.
Proof.
  destruct fr as [[] ?]. unfold frame_log, log_events. simpl. now rewrite app_nil_r.
Qed.

Lemma findCodeFiles_cases p fr :
  findCodeFiles p fr =
  match fs (world fr) !! p with
  | None => (inl "ENOENT: no such file or directory", frame_log [EvReaddir p] fr)
  | Some entries =>
      let st := scan p entries empty_scan in
      (inr (files st), frame_log (map EvReaddir (opened st)) fr)
  end.
Proof.
  unfold findCodeFiles. rewrite bind_run. cbn [get_world].
  destruct (fs (world fr) !! p); reflexivity.
Qed.

Lemma readFile_cases p f fr :
  readFile p f fr =
  match fs (world fr) !! p with
  | Some entries =>
      match find_file p entries f with
      | Some content => (inr content, frame_log [EvReadFile f] fr)
      | None => (inl "ENOENT: no such file or directory", frame_log [EvReadFile f] fr)
      end
  | None => (inl "ENOENT: no such file or directory", frame_log [EvReadFile f] fr)
  end.
Proof.
  unfold readFile. rewrite bind_run, emit_run, bind_run. cbn [get_world].
  change (fs (world (frame_log [EvReadFile f] fr))) with (fs (world fr)).
  destruct (fs (world fr) !! p) as [entries|]; [|reflexivity].
  destruct (find_file p entries f); reflexivity.
Qed.

Definition is_read (e : Event) : Prop :=
  match e with EvReadFile _ => True | _ => False end.

Lemma concat_files_frame p l : forall acc fr,
  exists evs, snd (concat_files p l acc fr) = frame_log evs fr /\ Forall is_read evs.
Proof.
  induction l as [|f l IH]; intros acc fr; cbn [concat_files].
  - exists []. now rewrite frame_log_nil.
  - rewrite bind_run, readFile_cases.
    assert (Hf : Forall is_read [EvReadFile f]) by (repeat constructor).
    destruct (fs (world fr) !! p) as [entries|]; [|now exists [EvReadFile f]].
    destruct (find_file p entries f) as [content|]; [|now exists [EvReadFile f]].
    destruct (IH (acc +:+ newline +:+ newline +:+ "// File: " +:+ path_relative p f +:+ newline +:+ content) (frame_log [EvReadFile f] fr)) as (evs & E & HF).
    exists (EvReadFile f :: evs). split; [|constructor; [exact I|assumption]].
    rewrite E. now rewrite frame_log_app.
Qed.

Definition results_of (aiResult : Ai.result) (n : nat)
    (customInstructions branchName : string) : GradingResults :=
  {| moduleName := "Branch: " +:+ branchName;
     totalScore := Ai.score aiResult;
     maxTotalScore := 100%float;
     codeQuality :=
       {| CodeQuality.score := Ai.score aiResult;
          CodeQuality.maxScore := 100%float;
          CodeQuality.feedback := Ai.feedback aiResult |};
     completeness :=
       {| Completeness.score := completeness_score (Ai.score aiResult);
          Completeness.maxScore := 40%float;
          Completeness.passed := or_empty (Ai.passed aiResult);
          Completeness.errors := or_empty (Ai.errors aiResult) |};
     filesAnalyzed := n;
     customCriteria := String.substring 0 200 customInstructions +:+ "..." |}.

Lemma performCustomGrading_cases o p ci b fr :
  performCustomGrading o p ci b fr =
  match fs (world fr) !! p with
  | None => (inl "ENOENT: no such file or directory", frame_log [EvReaddir p] fr)
  | Some entries =>
      let st := scan p entries empty_scan in
      let fr1 := frame_log (map EvReaddir (opened st)) fr in
      if Nat.eqb (List.length (files st)) 0
      then (inl "No code files found in the repository", fr1)
      else
        match concat_files p (files st) "" fr1 with
        | (inl e, fr2) => (inl e, fr2)
        | (inr code, fr2) =>
            match ai_result o with
            | inl msg => (inl msg, frame_log [EvAnalyze code ci b] fr2)
            | inr ai =>
                (inr (results_of ai (List.length (files st)) ci b),
                 frame_log [EvAnalyze code ci b] fr2)
            end
        end
  end.
Proof.
  unfold performCustomGrading, try_catch. rewrite bind_run, findCodeFiles_cases.
  destruct (fs (world fr) !! p) as [entries|]; [|reflexivity].
  cbv beta iota zeta.
  destruct (Nat.eqb (List.length (files (scan p entries empty_scan))) 0);
    [reflexivity|].
  rewrite bind_run.
  destruct (concat_files p _ _ _) as [[e|code] fr2]; [reflexivity|].
  unfold analyzeCodeWithCustomInstructions.
  rewrite bind_run, bind_run, emit_run.
  destruct (ai_result o); reflexivity.
Qed.

Lemma prisma_findFirst_cases o repo branch student fr :
  prisma_findFirst o repo branch student fr =
  let fr1 := frame_log [EvFindFirst repo branch student] fr in
  match find_error o with
  | Some msg => (inl msg, fr1)
  | None =>
      match student_column student with
      | None => (inl "Invalid value provided for argument studentName", fr1)
      | Some st =>
          (inr (find_latest {| where_repoName := repo;
                               where_branchName := branch;
                               where_studentName := st |}
                  (reviews (world fr))), fr1)
      end
  end.
Proof.
  unfold prisma_findFirst. rewrite bind_run, emit_run. cbv beta iota zeta.
  destruct (find_error o); [reflexivity|].
  destruct (student_column student); reflexivity.
Qed.

Definition new_row (w : World) (repo branch : string) (st : option string)
    (content score status : string) : Review.t :=
  Review.make (next_id w) repo branch st content score status (clock w).

Lemma prisma_create_cases o repo branch student content score status fr :
  prisma_create o repo branch student content score status fr =
  let fr1 := frame_log [EvCreate repo branch student content] fr in
  match create_error o with
  | Some msg => (inl msg, fr1)
  | None =>
      match student_column student with
      | None => (inl "Invalid value provided for argument studentName", fr1)
      | Some st =>
          let r := new_row (world fr) repo branch st content score status in
          (inr r, {| world := insert_row r (world fr1);
                     clonedPath := clonedPath fr |})
      end
  end.
Proof.
  unfold prisma_create. rewrite bind_run, emit_run. cbv beta iota zeta.
  destruct (create_error o); [reflexivity|].
  destruct (student_column student); reflexivity.
Qed.

Lemma cloneRepo_cases o repo submitter branch fr :
  cloneRepo o repo submitter branch fr =
  let fr1 := frame_log [EvCloneRepo repo submitter branch] fr in
  match clone_result o with
  | inl msg => (inl msg, fr1)
  | inr tree =>
      let dest := workspace_path submitter (next_token (world fr)) in
      (inr dest, {| world := add_workspace dest tree (world fr1);
                    clonedPath := clonedPath fr |})
  end.
Proof.
  unfold cloneRepo. rewrite bind_run, emit_run. cbv beta iota zeta.
  destruct (clone_result o); reflexivity.
Qed.

Lemma cleanupRepo_cases o path fr :
  cleanupRepo o path fr =
  let fr1 := frame_log [EvCleanupRepo path] fr in
  match cleanup_error o with
  | Some msg => (inl msg, fr1)
  | None =>
      (inr tt, {| world := set_fs (delete path (fs (world fr))) (world fr1);
                  clonedPath := clonedPath fr |})
  end.
Proof.
  unfold cleanupRepo. rewrite bind_run, emit_run. cbv beta iota zeta.
  destruct (cleanup_error o); reflexivity.
Qed.

(** Events of the grading step: directory listings, file reads and the
    analysis call. *)
Definition is_scan_event (e : Event) : Prop :=
  match e with EvReaddir _ | EvReadFile _ => True | _ => False end.

Lemma is_read_scan evs : Forall is_read evs -> Forall is_scan_event evs.
Proof.
  intros H. eapply Forall_impl; [exact H|]. intros []; simpl; auto.
Qed.

Lemma readdirs_scan dirs : Forall is_scan_event (map EvReaddir dirs).
Proof. induction dirs; simpl; constructor; simpl; auto. Qed.

(** [performCustomGrading] only adds events: it fails before the analysis,
    or it calls the analysis once and returns what the call gives. *)
Lemma performCustomGrading_frame o p ci b fr :
  exists evs, Forall is_scan_event evs /\
    ((exists msg,
        performCustomGrading o p ci b fr = (inl msg, frame_log evs fr)) \/
     (exists code msg,
        ai_result o = inl msg /\
        performCustomGrading o p ci b fr =
          (inl msg, frame_log (evs ++ [EvAnalyze code ci b]) fr)) \/
     (exists code ai n,
        ai_result o = inr ai /\
        performCustomGrading o p ci b fr =
          (inr (results_of ai n ci b),
           frame_log (evs ++ [EvAnalyze code ci b]) fr))).
Proof.
  rewrite performCustomGrading_cases.
  destruct (fs (world fr) !! p) as [entries|].
  2:{ exists [EvReaddir p]. split; [repeat constructor|]. left. eauto. }
  cbv zeta. set (st := scan p entries empty_scan).
  destruct (Nat.eqb (List.length (files st)) 0).
  { exists (map EvReaddir (opened st)). split; [apply readdirs_scan|]. left. eauto. }
  destruct (concat_files_frame p (files st) ""
              (frame_log (map EvReaddir (opened st)) fr)) as (reads & E & HF).
  destruct (concat_files p (files st) "" _) as [[e|code] fr2]; simpl in E; subst fr2;
    rewrite ?frame_log_app;
    exists (map EvReaddir (opened st) ++ reads);
    (split; [apply Forall_app; split;
               [apply readdirs_scan | now apply is_read_scan]|]).
  - left. eauto.
  - right. destruct (ai_result o) as [msg|ai] eqn:Hai.
    + left. exists code, msg. now rewrite <- app_assoc.
    + right. exists code, ai, (List.length (files st)). now rewrite <- app_assoc.
Qed.


(** ** The scanner against its specification *)

(** Induction on trees: the children of a directory satisfy the property. *)
Lemma entry_tree_ind (P : entry -> Prop) :
  (forall name content, P (File name content)) ->
  (forall name children, Forall P children -> P (Dir name children)) ->
  (forall name, P (Other name)) ->
  forall e, P e.
Proof.
  intros HF HD HO.
  fix IH 1. intros [name content|name children|name].
  - apply HF.
  - apply HD. induction children as [|c cs IHcs]; constructor.
    + apply IH.
    + apply IHcs.
  - apply HO.
Qed.

Lemma below_app root a b : below root (a ++ b) = below (below root a) b.
Proof. unfold below. apply fold_left_app. Qed.

Lemma not_ignored_app a b : not_ignored (a ++ b) = not_ignored a && not_ignored b.
Proof. unfold not_ignored. apply forallb_app. Qed.

(** The paths of the selected items, and of the directories that are not
    excluded. *)
Definition file_paths (root : string) (items : list (list string * string)) : list string :=
  map (fun item => below root (fst item ++ [snd item])) (List.filter selected items).

Definition dir_paths (root : string) (chains : list (list string)) : list string :=
  map (below root) (List.filter not_ignored chains).

Lemma file_paths_app root a b :
  file_paths root (a ++ b) = file_paths root a ++ file_paths root b.
Proof. unfold file_paths. now rewrite List.filter_app, map_app. Qed.

Lemma dir_paths_app root a b :
  dir_paths root (a ++ b) = dir_paths root a ++ dir_paths root b.
Proof. unfold dir_paths. now rewrite List.filter_app, map_app. Qed.

(** Below an excluded directory nothing is selected. *)
Lemma walk_prefix e : forall dirs item,
  In item (walk dirs e) -> exists rest, fst item = dirs ++ rest.
Proof.
  induction e as [name content|name children IH|name] using entry_tree_ind;
    intros dirs item; simpl.
  - intros [<-|[]]. exists []. simpl. now rewrite app_nil_r.
  - rewrite in_flat_map. intros (c & Hc & Hin).
    rewrite Forall_forall in IH.
    destruct (IH c (proj2 (list_elem_of_In _ _) Hc) _ _ Hin) as (rest & ->).
    exists (name :: rest). now rewrite <- app_assoc.
  - intros [].
Qed.

Lemma walk_dirs_prefix e : forall dirs chain,
  In chain (walk_dirs dirs e) -> exists rest, chain = dirs ++ rest.
Proof.
  induction e as [name content|name children IH|name] using entry_tree_ind;
    intros dirs chain; simpl; try tauto.
  intros [<-|Hin]; [now exists [name]|].
  rewrite in_flat_map in Hin. destruct Hin as (c & Hc & Hin).
  rewrite Forall_forall in IH.
  destruct (IH c (proj2 (list_elem_of_In _ _) Hc) _ _ Hin) as (rest & ->).
  exists (name :: rest). now rewrite <- app_assoc.
Qed.

Lemma filter_none {A} (f : A -> bool) l :
  (forall x, In x l -> f x = false) -> List.filter f l = [].
Proof.
  induction l as [|a l IH]; simpl; intros H; [reflexivity|].
  rewrite (H a (or_introl eq_refl)). apply IH. intros x Hx. apply H. now right.
Qed.

Lemma excluded_has_no_file name (He : includes ignoreDirs name = true) dirs e items :
  (forall item, In item items -> exists rest, fst item = (dirs ++ [name]) ++ rest) ->
  file_paths e items = [].
Proof.
  intros H. unfold file_paths. rewrite filter_none; [reflexivity|].
  intros item Hin. destruct (H item Hin) as (rest & E).
  unfold selected. rewrite E, !not_ignored_app.
  cbn [not_ignored forallb]. rewrite He. simpl.
  now rewrite andb_false_r.
Qed.

Lemma excluded_has_no_dir name (He : includes ignoreDirs name = true) dirs e chains :
  (forall chain, In chain chains -> exists rest, chain = (dirs ++ [name]) ++ rest) ->
  dir_paths e chains = [].
Proof.
  intros H. unfold dir_paths. rewrite filter_none; [reflexivity|].
  intros chain Hin. destruct (H chain Hin) as (rest & ->).
  rewrite !not_ignored_app. cbn [not_ignored forallb]. rewrite He. simpl.
  now rewrite andb_false_r.
Qed.

(** What one entry adds to the state of the scan. *)
Lemma visit_spec root e : forall dirs st,
  not_ignored dirs = true ->
  visit (below root dirs) e st =
  {| files := files st ++ file_paths root (walk dirs e);
     opened := opened st ++ dir_paths root (walk_dirs dirs e) |}.
Proof.
  induction e as [name content|name children IH|name] using entry_tree_ind;
    intros dirs st Hd.
  - cbn [visit walk walk_dirs]. unfold file_paths, dir_paths, selected.
    cbn [List.filter fst snd map]. rewrite Hd. cbn [andb].
    destruct (includes codeExtensions (Extname.extname name));
      cbn [map fst snd]; rewrite ?below_app;
      destruct st; unfold push; simpl; now rewrite ?app_nil_r.
  - cbn [visit walk walk_dirs].
    destruct (includes ignoreDirs name) eqn:He; cbn [negb].
    + rewrite (excluded_has_no_file name He dirs).
      2:{ intros item Hin. apply in_flat_map in Hin as (c & _ & Hin).
          now apply walk_prefix in Hin. }
      replace (dir_paths root _) with (@nil string).
      { destruct st; simpl. now rewrite !app_nil_r. }
      symmetry. apply (excluded_has_no_dir name He dirs).
      intros chain [<-|Hin]; [exists []; now rewrite app_nil_r|].
      apply in_flat_map in Hin as (c & _ & Hin).
      now apply walk_dirs_prefix in Hin.
    + assert (Hd' : not_ignored (dirs ++ [name]) = true).
      { rewrite not_ignored_app, Hd. cbn [not_ignored forallb]. now rewrite He. }
      change (path_join (below root dirs) name) with (below (below root dirs) [name]).
      rewrite <- below_app.
      assert (Hloop : forall st0,
        fold_left (fun st' e' => visit (below root (dirs ++ [name])) e' st') children st0 =
        {| files := files st0 ++ file_paths root (flat_map (walk (dirs ++ [name])) children);
           opened := opened st0 ++ dir_paths root (flat_map (walk_dirs (dirs ++ [name])) children) |}).
      { induction IH as [|c cs Hc _ IHcs]; intros st0; cbn [fold_left flat_map].
        - destruct st0; simpl. unfold file_paths, dir_paths. simpl. now rewrite !app_nil_r.
        - rewrite Hc by assumption. rewrite IHcs. cbn [files opened].
          now rewrite file_paths_app, dir_paths_app, <- !app_assoc. }
      rewrite Hloop. unfold readdir. cbn [files opened].
      unfold dir_paths at 2. cbn [List.filter]. rewrite Hd'. cbn [map].
      fold (dir_paths root (flat_map (walk_dirs (dirs ++ [name])) children)).
      now rewrite <- app_assoc.
  - cbn [visit walk walk_dirs]. destruct st; unfold file_paths, dir_paths; simpl.
    now rewrite !app_nil_r.
Qed.

Lemma scan_spec_correct root entries :
  scan root entries empty_scan =
  {| files := scan_spec root entries; opened := opened_spec root entries |}.
Proof.
  unfold scan, scan_spec, opened_spec, listing.
  fold (file_paths root (flat_map (walk []) entries)).
  fold (dir_paths root (flat_map (walk_dirs []) entries)).
  assert (Hloop : forall st0,
    fold_left (fun st' e => visit root e st') entries st0 =
    {| files := files st0 ++ file_paths root (flat_map (walk []) entries);
       opened := opened st0 ++ dir_paths root (flat_map (walk_dirs []) entries) |}).
  { induction entries as [|c cs IH]; intros st0; cbn [fold_left flat_map].
    - destruct st0; simpl. unfold file_paths, dir_paths. simpl. now rewrite !app_nil_r.
    - change root with (below root []) at 2.
      rewrite visit_spec by reflexivity. change (below root []) with root.
      rewrite IH. cbn [files opened].
      now rewrite file_paths_app, dir_paths_app, <- !app_assoc. }
  rewrite Hloop. reflexivity.
Qed.

Lemma includes_In l x : includes l x = true <-> In x l.
Proof.
  unfold includes. rewrite existsb_exists. split.
  - intros (y & Hy & E). apply String.eqb_eq in E. now subst.
  - intros H. exists x. split; [assumption|apply String.eqb_refl].
Qed.



(** ** The status bands *)

(** C5. [getGradingStatus] is a function of its two arguments alone, and
    with [percentage = score / maxScore * 100] as the program computes it,
    it returns "Excellent" when [percentage >= 90], "Good" when
    [80 <= percentage < 90], "Satisfactory" when [70 <= percentage < 80],
    "Needs Improvement" when [60 <= percentage < 70] and "Unsatisfactory"
    when [percentage < 60]; at the boundary values 90, 80, 70 and 60 the
    higher band applies.  This holds for every [maxScore], positive or
    not. *)
Theorem getGradingStatus_bands (score maxScore : float) :
  let percentage := (score / maxScore * 100)%float in
  ((90 <=? percentage)%float = true ->
     getGradingStatus score maxScore = "Excellent") /\
  ((80 <=? percentage)%float = true -> (percentage <? 90)%float = true ->
     getGradingStatus score maxScore = "Good") /\
  ((70 <=? percentage)%float = true -> (percentage <? 80)%float = true ->
     getGradingStatus score maxScore = "Satisfactory") /\
  ((60 <=? percentage)%float = true -> (percentage <? 70)%float = true ->
     getGradingStatus score maxScore = "Needs Improvement") /\
  ((percentage <? 60)%float = true ->
     getGradingStatus score maxScore = "Unsatisfactory") /\
  (percentage = 90%float -> getGradingStatus score maxScore = "Excellent") /\
  (percentage = 80%float -> getGradingStatus score maxScore = "Good") /\
  (percentage = 70%float -> getGradingStatus score maxScore = "Satisfactory") /\
  (percentage = 60%float ->
     getGradingStatus score maxScore = "Needs Improvement").
Proof.
  intros p. unfold getGradingStatus. fold p.
  assert (below : forall a b, (p <? a)%float = true ->
            (a <=? b)%float = true -> (b <=? p)%float = false)
    by (intros a b; apply FloatFacts.ltb_leb_trans).
  repeat split.
  - intros ->. reflexivity.
  - intros H1 H2. now rewrite (below 90%float 90%float H2 eq_refl), H1.
  - intros H1 H2.
    now rewrite (below 80%float 90%float H2 eq_refl), (below 80%float 80%float H2 eq_refl), H1.
  - intros H1 H2.
    now rewrite (below 70%float 90%float H2 eq_refl), (below 70%float 80%float H2 eq_refl),
      (below 70%float 70%float H2 eq_refl), H1.
  - intros H2.
    now rewrite (below 60%float 90%float H2 eq_refl), (below 60%float 80%float H2 eq_refl),
      (below 60%float 70%float H2 eq_refl), (below 60%float 60%float H2 eq_refl).
  - intros ->. reflexivity.
  - intros ->. reflexivity.
  - intros ->. reflexivity.
  - intros ->. reflexivity.
Qed.

(** The boundary cases of the specification, for a maximum of 100. *)
Example getGradingStatus_boundaries :
  getGradingStatus 100 100 = "Excellent" /\
  getGradingStatus 90 100 = "Excellent" /\
  getGradingStatus 89.99 100 = "Good" /\
  getGradingStatus 80 100 = "Good" /\
  getGradingStatus 79.99 100 = "Satisfactory" /\
  getGradingStatus 70 100 = "Satisfactory" /\
  getGradingStatus 69.99 100 = "Needs Improvement" /\
  getGradingStatus 60 100 = "Needs Improvement" /\
  getGradingStatus 59.99 100 = "Unsatisfactory" /\
  getGradingStatus 0 100 = "Unsatisfactory".
Proof. repeat split; reflexivity. Qed.

(** ** The grading step: [performCustomGrading] *)

(** *** Strings *)

Lemma append_cons (x : ascii) (a b : string) :
  String x a +:+ b = String x (a +:+ b).
Proof. reflexivity. Qed.

Lemma append_assoc (a b c : string) : (a +:+ b) +:+ c = a +:+ (b +:+ c).
Proof.
  induction a as [|x a IH]; [reflexivity|].
  now rewrite !append_cons, IH.
Qed.

Lemma append_nil_r (a : string) : a +:+ "" = a.
Proof.
  induction a as [|x a IH]; [reflexivity|]. now rewrite append_cons, IH.
Qed.

Lemma length_append (a b : string) :
  String.length (a +:+ b) = (String.length a + String.length b)%nat.
Proof.
  induction a as [|x a IH]; [reflexivity|].
  rewrite append_cons. cbn [String.length]. now rewrite IH.
Qed.

Lemma prefix_append (a b : string) : String.prefix a (a +:+ b) = true.
Proof.
  induction a as [|x a IH]; [now destruct b|].
  rewrite append_cons. cbn [String.prefix].
  destruct (ascii_dec x x); [assumption|contradiction].
Qed.

Lemma substring_append (a b : string) :
  String.substring (String.length a) (String.length b) (a +:+ b) = b.
Proof.
  induction a as [|x a IH].
  - change ("" +:+ b) with b. cbn [String.length].
    induction b as [|y b IHb]; [reflexivity|].
    cbn [String.length String.substring]. now rewrite IHb.
  - rewrite append_cons. cbn [String.length String.substring]. exact IH.
Qed.

Lemma substring_prefix (n : nat) (s : string) :
  exists rest, s = String.substring 0 n s +:+ rest.
Proof.
  revert n. induction s as [|x s IH]; intros [|n]; simpl.
  - now exists "".
  - now exists "".
  - now exists (String x s).
  - destruct (IH n) as (rest & E). exists rest.
    rewrite append_cons. now rewrite <- E.
Qed.

Lemma length_substring (n : nat) (s : string) :
  String.length (String.substring 0 n s) = Nat.min n (String.length s).
Proof.
  revert n. induction s as [|x s IH]; intros [|n]; simpl; try reflexivity.
  now rewrite IH.
Qed.

Lemma substring_all (n : nat) (s : string) :
  (String.length s <= n)%nat -> String.substring 0 n s = s.
Proof.
  revert n. induction s as [|x s IH]; intros [|n]; simpl; try reflexivity.
  - lia.
  - intros H. rewrite IH; [reflexivity|lia].
Qed.

(** *** Paths *)

(** The path of a file relative to the directory it was joined to. *)
Lemma path_relative_join (from rest : string) :
  path_relative from (from +:+ "/" +:+ rest) = rest.
Proof.
  unfold path_relative. rewrite <- (append_assoc from "/" rest).
  rewrite prefix_append, !length_append. cbn [String.length].
  replace (String.length from + 1 + String.length rest
           - (String.length from + 1))%nat with (String.length rest) by lia.
  pose proof (substring_append (from +:+ "/") rest) as H.
  rewrite length_append in H. exact H.
Qed.

Lemma below_cons (root name : string) (names : list string) :
  below root (name :: names) =
  root +:+ "/" +:+ String.concat "/" (name :: names).
Proof.
  revert root name. induction names as [|m names IH]; intros root name.
  - reflexivity.
  - change (below root (name :: m :: names))
      with (below (path_join root name) (m :: names)).
    rewrite IH. unfold path_join.
    change (String.concat "/" (name :: m :: names))
      with (name +:+ "/" +:+ String.concat "/" (m :: names)).
    now rewrite !append_assoc.
Qed.

(** [path.relative] undoes the [path.join]s of the scan. *)
Lemma path_relative_below (root : string) (dirs : list string) (name : string) :
  path_relative root (below root (dirs ++ [name])) =
  String.concat "/" (dirs ++ [name]).
Proof.
  destruct dirs as [|d dirs]; cbn [app]; rewrite below_cons;
    apply path_relative_join.
Qed.

(** *** Reading what the scan found *)

Lemma find_in_walk (e : entry) : forall dir ds item,
  In item (walk ds e) ->
  exists rest,
    fst item = ds ++ rest /\
    is_Some (find_in dir e (below dir (rest ++ [snd item]))).
Proof.
  induction e as [name content|name children IH|name] using entry_tree_ind;
    intros dir ds item; cbn [walk].
  - intros [<-|[]]. exists []. cbn [fst snd app]. rewrite app_nil_r.
    split; [reflexivity|]. cbn. unfold path_join.
    rewrite String.eqb_refl. eauto.
  - rewrite in_flat_map. intros (c & Hc & Hin).
    cbn [find_in].
    induction IH as [|c0 cs H0 _ IHcs]; [destruct Hc|].
    destruct Hc as [->|Hc].
    + destruct (H0 (path_join dir name) _ _ Hin) as (rest & E & [x Hx]).
      exists (name :: rest). split; [now rewrite E, <- app_assoc|].
      change (below dir ((name :: rest) ++ [snd item]))
        with (below (path_join dir name) (rest ++ [snd item])).
      rewrite Hx. eauto.
    + destruct (IHcs Hc) as (rest & E & Hs). exists rest.
      split; [assumption|].
      destruct (find_in (path_join dir name) c0 _); [eauto|assumption].
  - intros [].
Qed.

Lemma find_file_listed (root : string) (entries : list entry) item :
  In item (listing entries) ->
  is_Some (find_file root entries (below root (fst item ++ [snd item]))).
Proof.
  unfold listing. rewrite in_flat_map. intros (c & Hc & Hin).
  induction entries as [|c0 cs IH]; [destruct Hc|]. cbn [find_file].
  destruct Hc as [->|Hc].
  - destruct (find_in_walk c root [] item Hin) as (rest & E & [x Hx]).
    cbn [app] in E. rewrite E, Hx. eauto.
  - destruct (find_in root c0 _); [eauto|now apply IH].
Qed.

(** Every file the scan returns can be read. *)
Lemma find_file_scanned (root : string) (entries : list entry) (file : string) :
  In file (scan_spec root entries) -> is_Some (find_file root entries file).
Proof.
  unfold scan_spec. rewrite in_map_iff. intros (item & <- & Hin).
  apply filter_In in Hin as [Hin _]. now apply find_file_listed.
Qed.

(** One section of the text for the analysis. *)
Definition file_section (repoPath file content : string) : string :=
  newline +:+ newline +:+ "// File: " +:+ path_relative repoPath file +:+
  newline +:+ content.

(** The sections of the files that were read, one after the other. *)
Fixpoint sections (repoPath : string) (read : list (string * string)) : string :=
  match read with
  | [] => ""
  | (file, content) :: rest =>
      file_section repoPath file content +:+ sections repoPath rest
  end.

(** The files with what reading them gives. *)
Definition read_all (repoPath : string) (entries : list entry)
    (codeFiles : list string) : list (string * string) :=
  map (fun file => (file, default "" (find_file repoPath entries file)))
      codeFiles.

Lemma concat_files_cases (p : string) (entries : list entry) (l : list string) :
  forall acc fr,
  fs (world fr) !! p = Some entries ->
  Forall (fun file => is_Some (find_file p entries file)) l ->
  concat_files p l acc fr =
  (inr (acc +:+ sections p (read_all p entries l)),
   frame_log (map EvReadFile l) fr).
Proof.
  induction l as [|f l IH]; intros acc fr Hfs Hl; cbn [concat_files].
  - cbn. now rewrite append_nil_r, frame_log_nil.
  - apply Forall_cons in Hl as [[c Hc] Hl].
    rewrite bind_run, readFile_cases, Hfs, Hc.
    rewrite IH by assumption.
    cbn [read_all map sections]. rewrite Hc. cbn [default from_option id].
    rewrite frame_log_app. unfold file_section.
    now rewrite !append_assoc.
Qed.

(** The grading step on a workspace that is there. *)
Lemma performCustomGrading_exact o p ci b fr entries :
  fs (world fr) !! p = Some entries ->
  performCustomGrading o p ci b fr =
  let found := scan_spec p entries in
  let listed := map EvReaddir (opened_spec p entries) in
  if Nat.eqb (List.length found) 0
  then (inl "No code files found in the repository", frame_log listed fr)
  else
    let code := sections p (read_all p entries found) in
    let evs := listed ++ map EvReadFile found ++ [EvAnalyze code ci b] in
    match ai_result o with
    | inl msg => (inl msg, frame_log evs fr)
    | inr ai => (inr (results_of ai (List.length found) ci b), frame_log evs fr)
    end.
Proof.
  intros Hfs. rewrite performCustomGrading_cases, Hfs. cbv zeta.
  rewrite scan_spec_correct. cbn [files opened].
  destruct (Nat.eqb (List.length (scan_spec p entries)) 0); [reflexivity|].
  rewrite (concat_files_cases p entries).
  - change ("" +:+ ?x) with x. cbv beta iota.
    destruct (ai_result o); now rewrite !frame_log_app.
  - exact Hfs.
  - apply Forall_forall. intros x Hx. apply list_elem_of_In in Hx.
    now apply find_file_scanned.
Qed.

Lemma read_all_zip (p : string) (entries : list entry) (l : list string) :
  Forall (fun file => is_Some (find_file p entries file)) l ->
  exists contents,
    Forall2 (fun file content => find_file p entries file = Some content)
            l contents /\
    read_all p entries l = zip l contents.
Proof.
  induction 1 as [|f l [c Hc] _ (contents & H2 & E)].
  - exists []. split; [constructor|reflexivity].
  - exists (c :: contents). split; [now constructor|].
    cbn [read_all map zip zip_with]. rewrite Hc. cbn.
    f_equal. exact E.
Qed.

(** X1. On a workspace whose scan selects some file, the grading step lists
    the directories, then reads each selected file once, in the order of
    the scan, and then calls the scoring service with the concatenation of
    one section per file: two newlines, [// File: ] and the path of the
    file relative to the workspace, a newline, and the content of the
    file.  The path in the heading is the chain of names that leads to
    the file, joined by [/], and [filesAnalyzed] is the number of
    sections. *)
Theorem combined_code_is_sections o repoPath customInstructions branchName fr
    entries :
  fs (world fr) !! repoPath = Some entries ->
  files (scan repoPath entries empty_scan) <> [] ->
  let found := files (scan repoPath entries empty_scan) in
  let run := performCustomGrading o repoPath customInstructions branchName fr in
  exists contents,
    Forall2 (fun file content => find_file repoPath entries file = Some content)
            found contents /\
    trace (world (snd run)) =
      trace (world fr) ++
      map EvReaddir (opened (scan repoPath entries empty_scan)) ++
      map EvReadFile found ++
      [EvAnalyze (sections repoPath (zip found contents)) customInstructions
         branchName] /\
    (forall gr, fst run = inr gr -> filesAnalyzed gr = List.length found) /\
    Forall (fun file =>
              exists dirs name,
                In (dirs, name) (listing entries) /\
                file = below repoPath (dirs ++ [name]) /\
                path_relative repoPath file = String.concat "/" (dirs ++ [name]))
           found.
Proof.
  intros Hfs Hne found run. subst found run.
  rewrite (performCustomGrading_exact o _ _ _ fr entries Hfs).
  rewrite scan_spec_correct in *. cbn [files opened] in *. cbv zeta.
  destruct (read_all_zip repoPath entries (scan_spec repoPath entries))
    as (contents & H2 & E).
  { apply Forall_forall. intros x Hx. apply list_elem_of_In in Hx.
    now apply find_file_scanned. }
  exists contents. split; [assumption|]. rewrite <- E.
  destruct (scan_spec repoPath entries) eqn:Hs at 1; [congruence|].
  assert (Hlen : Nat.eqb (List.length (scan_spec repoPath entries)) 0 = false).
  { rewrite Hs. reflexivity. }
  rewrite Hlen.
  split; [|split].
  - destruct (ai_result o); reflexivity.
  - destruct (ai_result o); cbn [fst]; intros gr [= <-]. reflexivity.
  - apply Forall_forall. intros file Hin. apply list_elem_of_In in Hin.
    unfold scan_spec in Hin. apply in_map_iff in Hin as ([dirs name] & <- & Hin).
    apply filter_In in Hin as [Hin _]. exists dirs, name. cbn [fst snd].
    repeat split; [assumption|]. apply path_relative_below.
Qed.

(** X2. Whatever happens in it, the grading step only reads: the store,
    the file system, the identifiers and the clock are as before, the
    events it adds are directory listings and file reads, followed by at
    most one call of the scoring service, which is then the last event;
    and it returns a result exactly when that call was made and
    succeeded. *)
Theorem performCustomGrading_only_reads o repoPath customInstructions
    branchName fr :
  let run := performCustomGrading o repoPath customInstructions branchName fr in
  reviews (world (snd run)) = reviews (world fr) /\
  fs (world (snd run)) = fs (world fr) /\
  next_id (world (snd run)) = next_id (world fr) /\
  clock (world (snd run)) = clock (world fr) /\
  clonedPath (snd run) = clonedPath fr /\
  exists reads calls,
    trace (world (snd run)) = trace (world fr) ++ reads ++ calls /\
    Forall is_scan_event reads /\
    (calls = [] \/
     exists code, calls = [EvAnalyze code customInstructions branchName]) /\
    ((exists gr, fst run = inr gr) <->
     calls <> [] /\ exists ai, ai_result o = inr ai).
Proof.
  cbv zeta.
  destruct (performCustomGrading_frame o repoPath customInstructions
              branchName fr)
    as (evs & Hev & [(msg & ->)|[(code & msg & Hai & ->)|(code & ai & n & Hai & ->)]]);
    cbn [fst snd frame_log world clonedPath log_events reviews fs next_id clock
         trace]; repeat (split; [reflexivity|]).
  - exists evs, []. rewrite app_nil_r.
    split; [reflexivity|]. split; [assumption|]. split; [now left|].
    split; [intros (gr & H); discriminate|intros (H & _); now elim H].
  - exists evs, [EvAnalyze code customInstructions branchName].
    split; [reflexivity|]. split; [assumption|]. split; [right; eauto|].
    split; [intros (gr & H); discriminate|].
    intros (_ & ai & Hai'). congruence.
  - exists evs, [EvAnalyze code customInstructions branchName].
    split; [reflexivity|]. split; [assumption|]. split; [right; eauto|].
    split; [intros _; split; [discriminate|eauto]|eauto].
Qed.

(** X3. The [customCriteria] of a grading result is the first 200
    characters of the instructions followed by three dots: it is a prefix
    of the instructions with the dots, it has at most 203 characters, and
    the dots are there also when the instructions were short enough to be
    kept whole. *)
Theorem customCriteria_is_truncated o repoPath customInstructions branchName
    fr gr fr' :
  performCustomGrading o repoPath customInstructions branchName fr =
    (inr gr, fr') ->
  (exists kept rest,
     customInstructions = kept +:+ rest /\
     customCriteria gr = kept +:+ "..." /\
     String.length kept = Nat.min 200 (String.length customInstructions)) /\
  (String.length (customCriteria gr) <= 203)%nat /\
  ((String.length customInstructions <= 200)%nat ->
   customCriteria gr = customInstructions +:+ "...").
Proof.
  intros H.
  destruct (performCustomGrading_frame o repoPath customInstructions
              branchName fr)
    as (evs & _ & [(msg & E)|[(code & msg & _ & E)|(code & ai & n & _ & E)]]);
    rewrite E in H; try discriminate.
  injection H as <- _. cbn [customCriteria results_of].
  split; [|split].
  - destruct (substring_prefix 200 customInstructions) as (rest & Hrest).
    exists (String.substring 0 200 customInstructions), rest.
    repeat split; [assumption|apply length_substring].
  - rewrite length_append, length_substring. cbn [String.length]. lia.
  - intros Hlen. now rewrite substring_all.
Qed.

(** ** The handler *)

Section ControllerFacts.

Variable JSON_parse : string -> string + json.
Variable JSON_stringify : json -> string.
Variable Number_toString : float -> string.
Variable toFixed2 : float -> string.
Variable isValidGitHubUrl : string -> bool.

Local Abbreviation gradeSubmission :=
  (gradeSubmission JSON_parse JSON_stringify Number_toString toFixed2
     isValidGitHubUrl).
Local Abbreviation try_block :=
  (try_block JSON_parse JSON_stringify Number_toString toFixed2
     isValidGitHubUrl).
Local Abbreviation make_summary := (make_summary toFixed2).

(** The statements of the [try] block that follow the assignment of
    [clonedPath]. *)
Definition grade_new (o : Outcomes) (req : Body) (path : string) : M Response :=
  gradingResults ← performCustomGrading o path
                     (str_of (customInstructions req)) (str_of (branchName req));
  let summary := make_summary gradingResults in
  savedReview ← prisma_create o (str_of (repoName req))
                  (str_of (branchName req)) (or_null (studentName req))
                  (JSON_stringify (review_content gradingResults summary))
                  (Number_toString (Summary.totalScore summary) +:+ "/" +:+
                   Number_toString (Summary.maxScore summary))
                  "COMPLETED";
  now ← Date_now;
  mret (respond 200
          (Graded "openai"
             (or_string (studentName req) "Unknown")
             (str_of (branchName req))
             (str_of (repoName req))
             (Some (json_of_results gradingResults))
             (Some (json_of_summary summary))
             (Review.id savedReview)
             (Review.createdAt savedReview)
             now)).

Definition hit_response (r : Review.t) (results summary : option json) : Response :=
  respond 200
    (Graded "database" (option_or (Review.studentName r) "Unknown")
       (Review.branchName r) (Review.repoName r) results summary
       (Review.id r) (Review.createdAt r) (Review.createdAt r)).

(** The cache-hit branch, once the row is found. *)
Definition serve_hit (r : Review.t) : string + Response :=
  match JSON_parse (Review.reviewContent r) with
  | inl msg => inl msg
  | inr j =>
      match get_prop j "results" with
      | inl msg => inl msg
      | inr results =>
          match get_prop j "summary" with
          | inl msg => inl msg
          | inr summary => inr (hit_response r results summary)
          end
      end
  end.

Lemma try_block_cases o req w :
  let fr0 := {| world := w; clonedPath := None |} in
  let repo := str_of (repoName req) in
  let branch := str_of (branchName req) in
  try_block o req fr0 =
  if missing_or_malformed (repoName req) then
    (inr (respond 400 (Rejected "Invalid or missing repoName")), fr0)
  else if missing_or_malformed (branchName req) then
    (inr (respond 400 (Rejected "Invalid or missing branchName (Module)")), fr0)
  else
    let fr1 := frame_log [EvFindFirst repo branch (or_null (studentName req))] fr0 in
    match find_error o with
    | Some msg => (inl msg, fr1)
    | None =>
        match cache_key req with
        | None => (inl "Invalid value provided for argument studentName", fr1)
        | Some key =>
            match find_latest key (reviews w) with
            | Some r => (serve_hit r, fr1)
            | None =>
                if instructions_missing (customInstructions req) then
                  (inr (respond 400
                          (Rejected "customInstructions required for new grading")),
                   fr1)
                else if negb (isValidGitHubUrl repo) then
                  (inr (respond 400 (Rejected "Invalid GitHub URL format")), fr1)
                else
                  let submitter := or_string (studentName req) "submission" in
                  let fr2 := frame_log [EvCloneRepo repo submitter branch] fr1 in
                  match clone_result o with
                  | inl msg => (inl msg, fr2)
                  | inr tree =>
                      let dest := workspace_path submitter (next_token w) in
                      grade_new o req dest
                        {| world := add_workspace dest tree (world fr2);
                           clonedPath := Some dest |}
                  end
            end
        end
    end.
Proof.
  intros fr0 repo branch. unfold try_block, missing_or_malformed.
  destruct (negb (truthy (repoName req)) || negb (typeof_string (repoName req)));
    [reflexivity|].
  destruct (negb (truthy (branchName req)) || negb (typeof_string (branchName req)));
    [reflexivity|].
  rewrite bind_run, prisma_findFirst_cases. mrun.
  destruct (find_error o); [reflexivity|].
  unfold cache_key.
  destruct (student_column (or_null (studentName req))); [|reflexivity].
  fold repo branch. change (world fr0) with w. mrun.
  destruct (find_latest _ (reviews w)) as [r|].
  - unfold serve_hit, parse_json, read_prop. mrun.
    destruct (JSON_parse (Review.reviewContent r)) as [msg|j]; [reflexivity|].
    mrun.
    destruct (get_prop j "results"); [reflexivity|].
    mrun.
    destruct (get_prop j "summary"); reflexivity.
  - unfold instructions_missing.
    destruct (negb (truthy (customInstructions req))
              || negb (typeof_string (customInstructions req))
              || String.eqb (trim (str_of (customInstructions req))) "");
      [reflexivity|].
    destruct (negb (isValidGitHubUrl repo)); [reflexivity|].
    mrun. rewrite cloneRepo_cases. mrun.
    destruct (clone_result o); reflexivity.
Qed.


Definition graded_response (req : Body) (gr : GradingResults) (row : Review.t)
    (now : Z) : Response :=
  respond 200
    (Graded "openai"
       (or_string (studentName req) "Unknown")
       (str_of (branchName req))
       (str_of (repoName req))
       (Some (json_of_results gr))
       (Some (json_of_summary (make_summary gr)))
       (Review.id row) (Review.createdAt row) now).

Definition review_row (req : Body) (st : option string) (gr : GradingResults)
    (w : World) : Review.t :=
  new_row w (str_of (repoName req)) (str_of (branchName req)) st
    (JSON_stringify (review_content gr (make_summary gr)))
    (Number_toString (totalScore gr) +:+ "/" +:+
     Number_toString (maxTotalScore gr))
    "COMPLETED".

Definition create_event (req : Body) (gr : GradingResults) : Event :=
  EvCreate (str_of (repoName req)) (str_of (branchName req))
    (or_null (studentName req))
    (JSON_stringify (review_content gr (make_summary gr))).

Lemma grade_new_cases o req path fr :
  grade_new o req path fr =
  match performCustomGrading o path (str_of (customInstructions req))
          (str_of (branchName req)) fr with
  | (inl e, fr1) => (inl e, fr1)
  | (inr gr, fr1) =>
      let fr2 := frame_log [create_event req gr] fr1 in
      match create_error o with
      | Some msg => (inl msg, fr2)
      | None =>
          match student_column (or_null (studentName req)) with
          | None =>
              (inl "Invalid value provided for argument studentName", fr2)
          | Some st =>
              let row := review_row req st gr (world fr1) in
              (inr (graded_response req gr row (clock (world fr1) + 1)),
               {| world := tick (insert_row row (world fr2));
                  clonedPath := clonedPath fr1 |})
          end
      end
  end.
Proof.
  unfold grade_new. mrun.
  destruct (performCustomGrading o path _ _ fr) as [[e|gr] fr1]; [reflexivity|].
  mrun. rewrite prisma_create_cases. mrun.
  destruct (create_error o); [reflexivity|].
  destruct (student_column (or_null (studentName req))); reflexivity.
Qed.


Lemma grade_new_clonedPath o req path fr :
  clonedPath (snd (grade_new o req path fr)) = clonedPath fr.
Proof.
  rewrite grade_new_cases.
  destruct (performCustomGrading_frame o path
              (str_of (customInstructions req)) (str_of (branchName req)) fr)
    as (evs & _ & [(msg & ->)|[(code & msg & _ & ->)|(code & ai & n & _ & ->)]]);
    try reflexivity.
  cbv zeta. destruct (create_error o); [reflexivity|].
  destruct (student_column (or_null (studentName req))); reflexivity.
Qed.

(** The response and the world of a failed request. *)
Definition failed (message : string) (w : World) : Response * World :=
  (respond 500 (Failed "Grading failed" message (clock w)), tick w).

(** The world after the [finally] block removed (or failed to remove) the
    workspace. *)
Definition release (o : Outcomes) (path : string) (w : World) : World :=
  match cleanup_error o with
  | Some _ => log_event (EvCleanupRepo path) w
  | None => set_fs (delete path (fs w)) (log_event (EvCleanupRepo path) w)
  end.

Definition settle (o : Outcomes) (path : string)
    (res : (string + Response) * Frame) : Response * World :=
  match fst res with
  | inr response => (response, release o path (world (snd res)))
  | inl message =>
      (fst (failed message (world (snd res))),
       release o path (snd (failed message (world (snd res)))))
  end.

Lemma workspace_path_nonempty submitter token :
  String.eqb (workspace_path submitter token) "" = false.
Proof. reflexivity. Qed.

Lemma finally_block_release o path w :
  String.eqb path "" = false ->
  world (finally_block o {| world := w; clonedPath := Some path |}) =
  release o path w.
Proof.
  intros H. unfold finally_block, release. cbn [clonedPath]. rewrite H.
  cbn [negb]. unfold try_catch. rewrite cleanupRepo_cases. cbv zeta.
  destruct (cleanup_error o); reflexivity.
Qed.

Lemma gradeSubmission_cases o req w :
  let repo := str_of (repoName req) in
  let branch := str_of (branchName req) in
  gradeSubmission o req w =
  if missing_or_malformed (repoName req) then
    (respond 400 (Rejected "Invalid or missing repoName"), w)
  else if missing_or_malformed (branchName req) then
    (respond 400 (Rejected "Invalid or missing branchName (Module)"), w)
  else
    let w1 := log_event (EvFindFirst repo branch (or_null (studentName req))) w in
    match find_error o with
    | Some msg => failed msg w1
    | None =>
        match cache_key req with
        | None => failed "Invalid value provided for argument studentName" w1
        | Some key =>
            match find_latest key (reviews w) with
            | Some r =>
                match serve_hit r with
                | inl msg => failed msg w1
                | inr response => (response, w1)
                end
            | None =>
                if instructions_missing (customInstructions req) then
                  (respond 400
                     (Rejected "customInstructions required for new grading"),
                   w1)
                else if negb (isValidGitHubUrl repo) then
                  (respond 400 (Rejected "Invalid GitHub URL format"), w1)
                else
                  let submitter := or_string (studentName req) "submission" in
                  let w2 := log_event (EvCloneRepo repo submitter branch) w1 in
                  match clone_result o with
                  | inl msg => failed msg w2
                  | inr tree =>
                      let dest := workspace_path submitter (next_token w) in
                      settle o dest
                        (grade_new o req dest
                           {| world := add_workspace dest tree w2;
                              clonedPath := Some dest |})
                  end
            end
        end
    end.
Proof.
  intros repo branch. unfold gradeSubmission.
  rewrite try_block_cases. fold repo branch. cbv zeta.
  destruct (missing_or_malformed (repoName req)); [reflexivity|].
  destruct (missing_or_malformed (branchName req)); [reflexivity|].
  destruct (find_error o); [reflexivity|].
  destruct (cache_key req) as [key|]; [|reflexivity].
  destruct (find_latest key (reviews w)) as [r|].
  { destruct (serve_hit r); reflexivity. }
  destruct (instructions_missing (customInstructions req)); [reflexivity|].
  destruct (negb (isValidGitHubUrl repo)); [reflexivity|].
  destruct (clone_result o) as [msg|tree]; [reflexivity|].
  set (dest := workspace_path _ _).
  set (fr := {| world := _; clonedPath := Some dest |}).
  pose proof (grade_new_clonedPath o req dest fr) as Hc.
  unfold settle.
  destruct (grade_new o req dest fr) as [[msg|response] [w' c']].
  - cbn [snd clonedPath fr] in Hc. subst c'. cbn [fst snd world].
    unfold catch_block, failed. cbn [world clonedPath fst snd].
    now rewrite finally_block_release by apply workspace_path_nonempty.
  - cbn [snd clonedPath fr] in Hc. subst c'. cbn [fst snd world].
    now rewrite finally_block_release by apply workspace_path_nonempty.
Qed.


(** Events of the grading branch: listings, reads, the analysis call and
    the insert of the review of this request. *)
Definition is_grading_event (req : Body) (e : Event) : Prop :=
  match e with
  | EvReaddir _ | EvReadFile _ | EvAnalyze _ _ _ => True
  | EvCreate repo branch student _ =>
      repo = str_of (repoName req) /\ branch = str_of (branchName req) /\
      student = or_null (studentName req)
  | _ => False
  end.

Lemma scan_events_grading req evs :
  Forall is_scan_event evs -> Forall (is_grading_event req) evs.
Proof.
  intros H. eapply Forall_impl; [exact H|]. intros []; simpl; tauto.
Qed.

(** The three ways the grading branch ends: a failure before the insert, a
    failure of the insert, or a new review. *)
Lemma grade_new_outcome o req path fr :
  exists evs, Forall (is_grading_event req) evs /\
    ((exists msg,
        grade_new o req path fr = (inl msg, frame_log evs fr)) \/
     (exists gr st,
        create_error o = None /\
        student_column (or_null (studentName req)) = Some st /\
        grade_new o req path fr =
          (inr (graded_response req gr (review_row req st gr (world fr))
                  (clock (world fr) + 1)),
           {| world :=
                tick (insert_row (review_row req st gr (world fr))
                        (log_events evs (world fr)));
              clonedPath := clonedPath fr |}))).
Proof.
  rewrite grade_new_cases.
  destruct (performCustomGrading_frame o path
              (str_of (customInstructions req)) (str_of (branchName req)) fr)
    as (evs & Hev & [(msg & ->)|[(code & msg & _ & ->)|(code & ai & n & _ & ->)]]).
  - exists evs. split; [now apply scan_events_grading|]. left. eauto.
  - exists (evs ++ [EvAnalyze code (str_of (customInstructions req))
                      (str_of (branchName req))]).
    split; [|left; eauto].
    apply Forall_app. split; [now apply scan_events_grading|].
    repeat constructor.
  - set (gr := results_of ai n _ _). cbv zeta.
    set (evs1 := evs ++ [EvAnalyze code (str_of (customInstructions req))
                           (str_of (branchName req))]).
    assert (H1 : Forall (is_grading_event req) evs1).
    { apply Forall_app. split; [now apply scan_events_grading|].
      repeat constructor. }
    assert (H2 : Forall (is_grading_event req) (evs1 ++ [create_event req gr])).
    { apply Forall_app. split; [assumption|]. repeat constructor. }
    rewrite frame_log_app.
    exists (evs1 ++ [create_event req gr]). split; [assumption|].
    destruct (create_error o) eqn:Hc; [left; eauto|].
    destruct (student_column (or_null (studentName req))) as [st|] eqn:Hs;
      [|left; eauto].
    right. exists gr, st. repeat split; auto.
Qed.

Definition find_event (req : Body) : Event :=
  EvFindFirst (str_of (repoName req)) (str_of (branchName req))
    (or_null (studentName req)).

Definition clone_event (req : Body) : Event :=
  EvCloneRepo (str_of (repoName req))
    (or_string (studentName req) "submission") (str_of (branchName req)).

Definition workspace_of (req : Body) (w : World) : string :=
  workspace_path (or_string (studentName req) "submission") (next_token w).

Lemma release_trace o path w :
  trace (release o path w) = trace w ++ [EvCleanupRepo path].
Proof. unfold release. destruct (cleanup_error o); reflexivity. Qed.

Lemma release_reviews o path w : reviews (release o path w) = reviews w.
Proof. unfold release. destruct (cleanup_error o); reflexivity. Qed.

Lemma release_fs o path w :
  cleanup_error o = None -> fs (release o path w) !! path = None.
Proof.
  intros H. unfold release. rewrite H. cbn [set_fs fs].
  apply lookup_delete_eq.
Qed.

(** The events of one request: nothing, the lookup alone, the lookup and a
    failed clone, or the lookup, the clone, the grading and the release of
    the workspace. *)
Lemma gradeSubmission_events o req w :
  exists evs,
    trace (snd (gradeSubmission o req w)) = trace w ++ evs /\
    (evs = [] \/
     evs = [find_event req] \/
     (evs = [find_event req; clone_event req] /\
      exists msg, clone_result o = inl msg) \/
     (exists tree mid,
        clone_result o = inr tree /\
        evs = [find_event req; clone_event req] ++ mid ++
              [EvCleanupRepo (workspace_of req w)] /\
        Forall (is_grading_event req) mid /\
        (cleanup_error o = None ->
         fs (snd (gradeSubmission o req w)) !! workspace_of req w = None))).
Proof.
  rewrite gradeSubmission_cases. cbv zeta.
  fold (find_event req) (clone_event req) (workspace_of req w).
  destruct (missing_or_malformed (repoName req)).
  { exists []. cbn [snd]. rewrite app_nil_r. auto. }
  destruct (missing_or_malformed (branchName req)).
  { exists []. cbn [snd]. rewrite app_nil_r. auto. }
  destruct (find_error o); [exists [find_event req]; auto|].
  destruct (cache_key req) as [key|]; [|exists [find_event req]; auto].
  destruct (find_latest key (reviews w)) as [r|].
  { exists [find_event req]. destruct (serve_hit r); auto. }
  destruct (instructions_missing (customInstructions req));
    [exists [find_event req]; auto|].
  destruct (negb (isValidGitHubUrl (str_of (repoName req))));
    [exists [find_event req]; auto|].
  destruct (clone_result o) as [msg|tree] eqn:Hclone.
  { exists [find_event req; clone_event req]. split.
    - cbn. now rewrite <- app_assoc.
    - right. right. left. eauto. }
  set (dest := workspace_of req w).
  set (fr := {| world := _; clonedPath := Some dest |}).
  destruct (grade_new_outcome o req dest fr)
    as (mid & Hmid & [(msg & E)|(gr & st & _ & _ & E)]);
    rewrite E; unfold settle; cbn [fst snd];
    exists ([find_event req; clone_event req] ++ mid ++ [EvCleanupRepo dest]).
  - split.
    + rewrite release_trace. cbn. now rewrite <- !app_assoc.
    + right. right. right. exists tree, mid. repeat split; auto.
      intros Hc. now apply release_fs.
  - split.
    + rewrite release_trace. cbn. now rewrite <- !app_assoc.
    + right. right. right. exists tree, mid. repeat split; auto.
      intros Hc. now apply release_fs.
Qed.

(** The store after one request: as it was, or with the review of this
    request appended. *)
Lemma gradeSubmission_reviews o req w :
  reviews (snd (gradeSubmission o req w)) = reviews w \/
  exists st gr w1,
    student_column (or_null (studentName req)) = Some st /\
    reviews (snd (gradeSubmission o req w)) =
      reviews w ++ [review_row req st gr w1].
Proof.
  rewrite gradeSubmission_cases. cbv zeta.
  destruct (missing_or_malformed (repoName req)); [now left|].
  destruct (missing_or_malformed (branchName req)); [now left|].
  destruct (find_error o); [now left|].
  destruct (cache_key req) as [key|]; [|now left].
  destruct (find_latest key (reviews w)) as [r|].
  { destruct (serve_hit r); now left. }
  destruct (instructions_missing (customInstructions req)); [now left|].
  destruct (negb (isValidGitHubUrl (str_of (repoName req)))); [now left|].
  destruct (clone_result o) as [msg|tree]; [now left|].
  set (dest := workspace_path _ _).
  set (fr := {| world := _; clonedPath := Some dest |}).
  destruct (grade_new_outcome o req dest fr)
    as (mid & Hmid & [(msg & E)|(gr & st & _ & Hst & E)]);
    rewrite E; unfold settle; cbn [fst snd]; rewrite release_reviews.
  - now left.
  - right. exists st, gr, (world fr). split; [assumption|reflexivity].
Qed.


(** *** The store lookup *)

Lemma find_latest_none key rows :
  find_latest key rows = None ->
  forall r, In r rows -> row_matches key r = false.
Proof.
  induction rows as [|a rows IH]; cbn [find_latest]; [intros _ r []|].
  destruct (find_latest key rows) as [b|].
  - destruct (andb _ _); discriminate.
  - destruct (row_matches key a) eqn:Ha; [discriminate|].
    intros _ r [<-|Hr]; [assumption|now apply IH].
Qed.


(** A row inserted after a miss is the one the next lookup finds. *)
Lemma find_latest_after_miss key rows row :
  find_latest key rows = None -> row_matches key row = true ->
  find_latest key (rows ++ [row]) = Some row.
Proof.
  intros Hnone Hrow. induction rows as [|a rows IH]; cbn [find_latest app].
  - now rewrite Hrow.
  - pose proof (find_latest_none key _ Hnone a (or_introl eq_refl)) as Ha.
    rewrite IH, Ha; [reflexivity|].
    cbn [find_latest] in Hnone.
    destruct (find_latest key rows); [|reflexivity].
    revert Hnone. destruct (andb _ _); discriminate.
Qed.

(** *** The cache hit *)

(** The property [k] of a parsed document, [None] for [undefined]. *)
Definition prop_of (doc : json) (k : string) : option json :=
  match doc with JObj props => assoc k props | _ => None end.

Lemma get_prop_not_null doc k : doc <> JNull -> get_prop doc k = inr (prop_of doc k).
Proof. destruct doc; try reflexivity. congruence. Qed.

Lemma serve_hit_parsed r doc :
  JSON_parse (Review.reviewContent r) = inr doc -> doc <> JNull ->
  serve_hit r =
  inr (hit_response r (prop_of doc "results") (prop_of doc "summary")).
Proof.
  intros Hp Hn. unfold serve_hit. rewrite Hp.
  now rewrite !get_prop_not_null by assumption.
Qed.

Lemma serve_hit_invalid r msg :
  JSON_parse (Review.reviewContent r) = inl msg -> serve_hit r = inl msg.
Proof. intros Hp. unfold serve_hit. now rewrite Hp. Qed.

Lemma gradeSubmission_hit o req w key r :
  missing_or_malformed (repoName req) = false ->
  missing_or_malformed (branchName req) = false ->
  find_error o = None ->
  cache_key req = Some key ->
  find_latest key (reviews w) = Some r ->
  gradeSubmission o req w =
  match serve_hit r with
  | inl msg => failed msg (log_event (find_event req) w)
  | inr response => (response, log_event (find_event req) w)
  end.
Proof.
  intros H1 H2 H3 H4 H5. rewrite gradeSubmission_cases. cbv zeta.
  now rewrite H1, H2, H3, H4, H5.
Qed.

(** The feedback stored beside the results, read back from them. *)
Definition feedback_in (results : json) : string :=
  match prop_of results "codeQuality" with
  | Some quality =>
      match prop_of quality "feedback" with
      | Some (JStr f) => if String.eqb f "" then "No feedback available" else f
      | _ => "No feedback available"
      end
  | None => "No feedback available"
  end.

(** The document a new grading stores, in terms of what it responds. *)
Definition stored_document (results summary : json) : json :=
  JObj [("feedback", JStr (feedback_in results));
        ("results", results);
        ("summary", summary)].

Lemma stored_document_content gr :
  review_content gr (make_summary gr) =
  stored_document (json_of_results gr) (json_of_summary (make_summary gr)).
Proof.
  unfold review_content, stored_document. do 3 f_equal.
  unfold feedback_in, json_of_results, json_of_codeQuality, option_or.
  cbn [prop_of assoc String.eqb Ascii.eqb Bool.eqb andb].
  destruct (CodeQuality.feedback (codeQuality gr)) as [f|]; reflexivity.
Qed.

(** What a response of a new grading tells about the request and the
    store. *)
Lemma new_grading_inversion o req w st br rp res sum id c t w1 :
  gradeSubmission o req w =
    (respond 200 (Graded "openai" st br rp res sum id c t), w1) ->
  exists key stcol gr wc,
    missing_or_malformed (repoName req) = false /\
    missing_or_malformed (branchName req) = false /\
    cache_key req = Some key /\
    find_latest key (reviews w) = None /\
    student_column (or_null (studentName req)) = Some stcol /\
    reviews w1 = reviews w ++ [review_row req stcol gr wc] /\
    res = Some (json_of_results gr) /\
    sum = Some (json_of_summary (make_summary gr)) /\
    id = Review.id (review_row req stcol gr wc) /\
    c = Review.createdAt (review_row req stcol gr wc) /\
    st = or_string (studentName req) "Unknown" /\
    br = str_of (branchName req) /\ rp = str_of (repoName req).
Proof.
  rewrite gradeSubmission_cases. cbv zeta.
  destruct (missing_or_malformed (repoName req)); [discriminate|].
  destruct (missing_or_malformed (branchName req)); [discriminate|].
  destruct (find_error o); [discriminate|].
  destruct (cache_key req) as [key|] eqn:Hkey; [|discriminate].
  destruct (find_latest key (reviews w)) as [r|] eqn:Hfind.
  { unfold serve_hit.
    destruct (JSON_parse _); [discriminate|].
    destruct (get_prop _ "results"); [discriminate|].
    destruct (get_prop _ "summary"); discriminate. }
  destruct (instructions_missing (customInstructions req)); [discriminate|].
  destruct (negb (isValidGitHubUrl (str_of (repoName req)))); [discriminate|].
  destruct (clone_result o) as [msg|tree]; [discriminate|].
  set (dest := workspace_path _ _).
  set (fr := {| world := _; clonedPath := Some dest |}).
  destruct (grade_new_outcome o req dest fr)
    as (mid & Hmid & [(msg & E)|(gr & stcol & _ & Hst & E)]);
    rewrite E; unfold settle; cbn [fst snd]; [discriminate|].
  unfold graded_response. intros [= <- <- <- <- <- <- <- <- <-].
  exists key, stcol, gr, (world fr).
  rewrite release_reviews. repeat split; auto.
Qed.

Lemma option_string_eqb_refl a : option_string_eqb a a = true.
Proof. destruct a; [apply String.eqb_refl|reflexivity]. Qed.

Lemma student_label v stcol :
  student_column (or_null v) = Some stcol ->
  option_or stcol "Unknown" = or_string v "Unknown".
Proof.
  unfold or_null, or_string.
  destruct v as [| |b|n|s|]; cbn [truthy]; try (intros [= <-]; reflexivity).
  - destruct b; [discriminate|]. intros [= <-]. reflexivity.
  - destruct (negb _); [discriminate|]. intros [= <-]. reflexivity.
  - destruct (String.eqb s "") eqn:E; cbn [negb student_column];
      intros [= <-]; cbn [option_or str_of]; [reflexivity|now rewrite E].
Qed.

(** After a new grading, a request with the same key is served from the
    store, whatever else it carries. *)
Lemma second_call_is_hit o1 req1 w0 st br rp res sum id c t w1 o2 req2 :
  gradeSubmission o1 req1 w0 =
    (respond 200 (Graded "openai" st br rp (Some res) (Some sum) id c t), w1) ->
  repoName req2 = repoName req1 ->
  branchName req2 = branchName req1 ->
  cache_key req2 = cache_key req1 ->
  find_error o2 = None ->
  JSON_parse (JSON_stringify (stored_document res sum)) =
    inr (stored_document res sum) ->
  gradeSubmission o2 req2 w1 =
    (respond 200 (Graded "database" st br rp (Some res) (Some sum) id c c),
     log_event (find_event req2) w1).
Proof.
  intros H1 Hrepo Hbranch Hkey Hfind Hparse.
  apply new_grading_inversion in H1
    as (key & stcol & gr & wc & Hr & Hb & Hk & Hmiss & Hst & Hrev & Hres & Hsum
        & -> & -> & -> & -> & ->).
  injection Hres as ->. injection Hsum as ->.
  set (row := review_row req1 stcol gr wc) in *.
  assert (Hrow : row_matches key row = true).
  { unfold cache_key in Hk. rewrite Hst in Hk. injection Hk as <-.
    unfold row_matches. cbn. now rewrite !String.eqb_refl, option_string_eqb_refl. }
  rewrite (gradeSubmission_hit o2 req2 w1 key row); try congruence.
  2:{ rewrite Hrev. now apply find_latest_after_miss. }
  rewrite (serve_hit_parsed row (stored_document (json_of_results gr)
             (json_of_summary (make_summary gr)))).
  - unfold hit_response. cbn [prop_of stored_document assoc String.eqb
                                Ascii.eqb Bool.eqb andb].
    do 3 f_equal. cbn. f_equal. now apply student_label.
  - cbn [Review.reviewContent row review_row new_row].
    now rewrite stored_document_content.
  - discriminate.
Qed.


(** *** Properties of the handler *)

(** C10. When the lookup finds a row whose [reviewContent] is not valid
    JSON, the request fails: the response is the 500 of the [catch] block
    with the message of the parse error, [success] is false, and nothing
    besides the lookup has happened. *)
Theorem cache_hit_invalid_json_fails o req w key r msg :
  missing_or_malformed (repoName req) = false ->
  missing_or_malformed (branchName req) = false ->
  find_error o = None ->
  cache_key req = Some key ->
  find_latest key (reviews w) = Some r ->
  JSON_parse (Review.reviewContent r) = inl msg ->
  gradeSubmission o req w =
    (respond 500 (Failed "Grading failed" msg (clock w)),
     tick (log_event (find_event req) w)) /\
  success (fst (gradeSubmission o req w)) = false.
Proof.
  intros H1 H2 H3 H4 H5 H6.
  rewrite (gradeSubmission_hit o req w key r) by assumption.
  rewrite (serve_hit_invalid r msg H6). split; reflexivity.
Qed.


(** C3. The instructions are not part of the cache key: the key of a
    request does not change with them; when the lookup finds a row, the
    whole outcome of the request is the same whatever the instructions
    are; and after a new grading, a request for the same repository,
    branch and student is served from the store with the results of that
    grading, whether its instructions differ or are absent. *)
Theorem instructions_not_in_cache_key :
  (forall rn bn sn ci1 ci2,
     cache_key {| repoName := rn; branchName := bn; studentName := sn;
                  customInstructions := ci1 |} =
     cache_key {| repoName := rn; branchName := bn; studentName := sn;
                  customInstructions := ci2 |}) /\
  (forall o rn bn sn ci1 ci2 w key r,
     missing_or_malformed rn = false ->
     missing_or_malformed bn = false ->
     find_error o = None ->
     cache_key {| repoName := rn; branchName := bn; studentName := sn;
                  customInstructions := ci1 |} = Some key ->
     find_latest key (reviews w) = Some r ->
     gradeSubmission o {| repoName := rn; branchName := bn; studentName := sn;
                          customInstructions := ci1 |} w =
     gradeSubmission o {| repoName := rn; branchName := bn; studentName := sn;
                          customInstructions := ci2 |} w) /\
  (forall o1 rn bn sn ci1 ci2 w0 st br rp res sum id c t w1 o2,
     gradeSubmission o1 {| repoName := rn; branchName := bn;
                           studentName := sn; customInstructions := ci1 |} w0 =
       (respond 200 (Graded "openai" st br rp (Some res) (Some sum) id c t),
        w1) ->
     find_error o2 = None ->
     JSON_parse (JSON_stringify (stored_document res sum)) =
       inr (stored_document res sum) ->
     fst (gradeSubmission o2 {| repoName := rn; branchName := bn;
                                studentName := sn;
                                customInstructions := ci2 |} w1) =
       respond 200 (Graded "database" st br rp (Some res) (Some sum) id c c)).
Proof.
  split; [reflexivity|]. split.
  - intros o rn bn sn ci1 ci2 w key r H1 H2 H3 H4 H5.
    rewrite !(gradeSubmission_hit o _ w key r) by assumption. reflexivity.
  - intros o1 rn bn sn ci1 ci2 w0 st br rp res sum id c t w1 o2 H1 H2 H3.
    now rewrite (second_call_is_hit o1 _ w0 st br rp res sum id c t w1 o2
                   {| repoName := rn; branchName := bn; studentName := sn;
                      customInstructions := ci2 |} H1).
Qed.


Definition is_cleanup (e : Event) : Prop :=
  match e with EvCleanupRepo _ => True | _ => False end.

Definition is_clone (e : Event) : Prop :=
  match e with EvCloneRepo _ _ _ => True | _ => False end.

(** The same answers of the collaborators, but for the removal of the
    workspace. *)
Definition with_cleanup_error (o : Outcomes) (e : option string) : Outcomes :=
  {| find_error := find_error o;
     clone_result := clone_result o;
     ai_result := ai_result o;
     create_error := create_error o;
     cleanup_error := e |}.

Lemma grading_event_not_cleanup req mid :
  Forall (is_grading_event req) mid -> Forall (fun e => ~ is_cleanup e) mid.
Proof.
  intros H. eapply Forall_impl; [exact H|]. intros []; simpl; tauto.
Qed.

Lemma grading_event_not_clone req mid :
  Forall (is_grading_event req) mid -> Forall (fun e => ~ is_clone e) mid.
Proof.
  intros H. eapply Forall_impl; [exact H|]. intros []; simpl; tauto.
Qed.

Lemma response_ignores_cleanup o e req w :
  fst (gradeSubmission (with_cleanup_error o e) req w) =
  fst (gradeSubmission o req w).
Proof.
  rewrite !gradeSubmission_cases. cbv zeta.
  cbn [with_cleanup_error find_error clone_result].
  destruct (missing_or_malformed (repoName req)); [reflexivity|].
  destruct (missing_or_malformed (branchName req)); [reflexivity|].
  destruct (find_error o); [reflexivity|].
  destruct (cache_key req) as [key|]; [|reflexivity].
  destruct (find_latest key (reviews w)) as [r|].
  { destruct (serve_hit r); reflexivity. }
  destruct (instructions_missing (customInstructions req)); [reflexivity|].
  destruct (negb (isValidGitHubUrl (str_of (repoName req)))); [reflexivity|].
  destruct (clone_result o) as [msg|tree]; [reflexivity|].
  set (dest := workspace_path _ _).
  set (fr := {| world := _; clonedPath := Some dest |}).
  change (grade_new (with_cleanup_error o e) req dest fr)
    with (grade_new o req dest fr).
  unfold settle. destruct (fst (grade_new o req dest fr)); reflexivity.
Qed.

(** C2. With [evs] the events of one request: when the clone succeeded,
    the release of the workspace it created is the last event and the only
    release, on every way out of the handler, and the path is gone from the
    file system unless the release itself failed; when no workspace was
    created, no release is attempted; and the response is the same whether
    the release fails or not. *)
Theorem workspace_released_on_every_path o req w :
  exists evs,
    trace (snd (gradeSubmission o req w)) = trace w ++ evs /\
    (forall tree,
       clone_result o = inr tree -> Exists is_clone evs ->
       exists pre,
         evs = pre ++ [EvCleanupRepo (workspace_of req w)] /\
         Forall (fun e => ~ is_cleanup e) pre /\
         (cleanup_error o = None ->
          fs (snd (gradeSubmission o req w)) !! workspace_of req w = None)) /\
    ((~ Exists is_clone evs \/ exists msg, clone_result o = inl msg) ->
     Forall (fun e => ~ is_cleanup e) evs) /\
    (forall e,
       fst (gradeSubmission (with_cleanup_error o e) req w) =
       fst (gradeSubmission o req w)).
Proof.
  destruct (gradeSubmission_events o req w) as (evs & Htrace & Hshape).
  exists evs. split; [assumption|].
  split; [|split; [|intros e; apply response_ignores_cleanup]].
  - intros tree Hclone Hex.
    destruct Hshape as [->|[->|[(-> & msg & Hmsg)|(tree' & mid & _ & -> & Hmid & Hfs)]]].
    + now apply Exists_nil in Hex.
    + apply Exists_cons in Hex as [[]|Hex]. now apply Exists_nil in Hex.
    + congruence.
    + exists ([find_event req; clone_event req] ++ mid).
      split; [now rewrite <- app_assoc|]. split; [|assumption].
      apply Forall_app. split.
      * repeat constructor; simpl; tauto.
      * now apply (grading_event_not_cleanup req).
  - intros Hno.
    destruct Hshape as [->|[->|[(-> & msg & Hmsg)|(tree' & mid & Htree & -> & Hmid & Hfs)]]].
    + constructor.
    + repeat constructor; simpl; tauto.
    + repeat constructor; simpl; tauto.
    + exfalso. destruct Hno as [Hno|(msg & Hmsg)]; [|congruence].
      apply Hno. cbn [app]. apply Exists_cons. right.
      apply Exists_cons. left. exact I.
Qed.

(** C7. On a cache miss with valid instructions and URL and a clone that
    succeeds, when the scan of the workspace selects no file the request
    fails with the 500 of "No code files found in the repository"; the
    store is as it was, the events are the lookup, the clone, the
    directory listings and the release of the workspace (no read, no
    analysis, no insert), and the workspace is gone unless the release
    failed. *)
Theorem empty_corpus_fails o req w key tree :
  missing_or_malformed (repoName req) = false ->
  missing_or_malformed (branchName req) = false ->
  find_error o = None ->
  cache_key req = Some key ->
  find_latest key (reviews w) = None ->
  instructions_missing (customInstructions req) = false ->
  isValidGitHubUrl (str_of (repoName req)) = true ->
  clone_result o = inr tree ->
  files (scan (workspace_of req w) tree empty_scan) = [] ->
  let w' := snd (gradeSubmission o req w) in
  fst (gradeSubmission o req w) =
    respond 500
      (Failed "Grading failed" "No code files found in the repository"
         (clock w)) /\
  reviews w' = reviews w /\
  trace w' =
    trace w ++ [find_event req; clone_event req] ++
    map EvReaddir (opened (scan (workspace_of req w) tree empty_scan)) ++
    [EvCleanupRepo (workspace_of req w)] /\
  (cleanup_error o = None -> fs w' !! workspace_of req w = None).
Proof.
  intros H1 H2 H3 H4 H5 H6 H7 H8 H9 w'. subst w'.
  rewrite gradeSubmission_cases. cbv zeta.
  rewrite H1, H2, H3, H4, H5, H6, H7, H8. cbn [negb].
  fold (find_event req) (clone_event req) (workspace_of req w).
  set (dest := workspace_of req w) in *.
  rewrite grade_new_cases, performCustomGrading_cases.
  cbn [world add_workspace fs]. rewrite lookup_insert_eq. cbv zeta.
  rewrite H9. cbn [List.length Nat.eqb].
  unfold settle. cbn [fst snd failed].
  split; [reflexivity|]. split; [now rewrite release_reviews|]. split.
  - rewrite release_trace. cbn. now rewrite <- !app_assoc.
  - intros Hc. now apply release_fs.
Qed.


(** The lookup completed and found no row for the key of the request. *)
Definition cache_miss (o : Outcomes) (req : Body) (w : World) : Prop :=
  find_error o = None /\
  exists key, cache_key req = Some key /\ find_latest key (reviews w) = None.


Lemma or_null_falsy v : truthy v = false -> or_null v = VNull.
Proof. intros H. unfold or_null. now rewrite H. Qed.

Lemma or_string_falsy v d : truthy v = false -> or_string v d = d.
Proof. intros H. unfold or_string. now rewrite H. Qed.

(** C9. A [studentName] that is falsy (the empty string among others) is
    the same as an absent one: the key of the lookup has [null] for the
    student, the whole outcome of the request is that of the request
    without [studentName], a row the request adds has no student, and the
    clone is made under the label "submission". *)
Theorem falsy_student_is_anonymous (v rn bn ci : value) :
  truthy v = false ->
  let req := {| repoName := rn; branchName := bn; studentName := v;
                customInstructions := ci |} in
  let anonymous := {| repoName := rn; branchName := bn;
                      studentName := VUndefined;
                      customInstructions := ci |} in
  cache_key req =
    Some {| where_repoName := str_of rn; where_branchName := str_of bn;
            where_studentName := None |} /\
  cache_key req = cache_key anonymous /\
  (forall o w, gradeSubmission o req w = gradeSubmission o anonymous w) /\
  (forall o w row,
     In row (reviews (snd (gradeSubmission o req w))) ->
     In row (reviews w) \/ Review.studentName row = None) /\
  (forall o w repo submitter branch,
     In (EvCloneRepo repo submitter branch)
        (trace (snd (gradeSubmission o req w))) ->
     In (EvCloneRepo repo submitter branch) (trace w) \/
     submitter = "submission").
Proof.
  intros Hv req anonymous.
  pose proof (or_null_falsy v Hv) as Hnull.
  assert (Hkey : cache_key req =
            Some {| where_repoName := str_of rn; where_branchName := str_of bn;
                    where_studentName := None |}).
  { unfold cache_key, req. cbn [studentName repoName branchName].
    now rewrite Hnull. }
  split; [assumption|]. split; [now rewrite Hkey|].
  split; [|split].
  - intros o w. rewrite !gradeSubmission_cases.
    unfold grade_new, cache_key, find_event, clone_event, workspace_of.
    subst req anonymous.
    cbn [repoName branchName studentName customInstructions].
    rewrite Hnull, !(or_string_falsy v) by assumption. reflexivity.
  - intros o w row Hin.
    destruct (gradeSubmission_reviews o req w)
      as [E|(st & gr & w1 & Hst & E)]; rewrite E in Hin; [now left|].
    apply in_app_or in Hin as [Hin|[<-|[]]]; [now left|right].
    subst req. cbn [studentName] in Hst. rewrite Hnull in Hst.
    now injection Hst as <-.
  - intros o w repo submitter branch Hin.
    destruct (gradeSubmission_events o req w) as (evs & E & Hshape).
    rewrite E in Hin. apply in_app_or in Hin as [Hin|Hin]; [now left|right].
    assert (Hclone : clone_event req =
              EvCloneRepo (str_of rn) "submission" (str_of bn)).
    { unfold clone_event, req. cbn [studentName repoName branchName].
      now rewrite or_string_falsy. }
    unfold find_event in Hshape.
    destruct Hshape as [->|[->|[(-> & _)|(tree & mid & _ & -> & Hmid & _)]]];
      cbn [In app] in Hin.
    + destruct Hin.
    + destruct Hin as [Hin|Hin]; [discriminate|destruct Hin].
    + destruct Hin as [Hin|[Hin|Hin]]; [discriminate| |destruct Hin].
      rewrite Hclone in Hin. now injection Hin as _ <- _.
    + destruct Hin as [Hin|[Hin|Hin]]; [discriminate| |].
      * rewrite Hclone in Hin. now injection Hin as _ <- _.
      * apply in_app_or in Hin as [Hin|Hin].
        -- apply grading_event_not_clone in Hmid.
           rewrite Forall_forall in Hmid.
           exfalso.
           apply (Hmid _ (proj2 (list_elem_of_In _ _) Hin)). exact I.
        -- cbn [In] in Hin. destruct Hin as [Hin|Hin];
             [discriminate|destruct Hin].
Qed.

(** *** The calls of one request *)

(** The grading branch on a workspace that is there. *)
Lemma grade_new_exact o req path fr tree :
  fs (world fr) !! path = Some tree ->
  let ci := str_of (customInstructions req) in
  let b := str_of (branchName req) in
  let found := scan_spec path tree in
  let listed := map EvReaddir (opened_spec path tree) in
  grade_new o req path fr =
  if Nat.eqb (List.length found) 0
  then (inl "No code files found in the repository", frame_log listed fr)
  else
    let code := sections path (read_all path tree found) in
    let evs := listed ++ map EvReadFile found ++ [EvAnalyze code ci b] in
    match ai_result o with
    | inl msg => (inl msg, frame_log evs fr)
    | inr ai =>
        let gr := results_of ai (List.length found) ci b in
        let fr2 := frame_log (evs ++ [create_event req gr]) fr in
        match create_error o with
        | Some msg => (inl msg, fr2)
        | None =>
            match student_column (or_null (studentName req)) with
            | None =>
                (inl "Invalid value provided for argument studentName", fr2)
            | Some st =>
                let row := review_row req st gr (world fr) in
                (inr (graded_response req gr row (clock (world fr) + 1)),
                 {| world := tick (insert_row row (world fr2));
                    clonedPath := clonedPath fr |})
            end
        end
    end.
Proof.
  intros Hfs ci b found listed.
  rewrite grade_new_cases, (performCustomGrading_exact o _ _ _ fr tree Hfs).
  fold ci b found listed. cbv zeta.
  destruct (Nat.eqb (List.length found) 0); [reflexivity|].
  destruct (ai_result o) as [msg|ai]; [reflexivity|].
  rewrite frame_log_app.
  destruct (create_error o); [reflexivity|].
  destruct (student_column (or_null (studentName req))); reflexivity.
Qed.

(** The request is one for a new grading: it passes the checks, the lookup
    finds nothing, and the instructions and the URL are accepted. *)
Definition new_grading (o : Outcomes) (req : Body) (w : World) : Prop :=
  missing_or_malformed (repoName req) = false /\
  missing_or_malformed (branchName req) = false /\
  cache_miss o req w /\
  instructions_missing (customInstructions req) = false /\
  isValidGitHubUrl (str_of (repoName req)) = true.

(** The workspace after the clone. *)
Definition cloned (req : Body) (tree : list entry) (w : World) : World :=
  add_workspace (workspace_of req w) tree
    (log_event (clone_event req) (log_event (find_event req) w)).

Lemma gradeSubmission_new o req w tree :
  new_grading o req w -> clone_result o = inr tree ->
  gradeSubmission o req w =
  settle o (workspace_of req w)
    (grade_new o req (workspace_of req w)
       {| world := cloned req tree w;
          clonedPath := Some (workspace_of req w) |}).
Proof.
  intros (H1 & H2 & (H3 & key & H4 & H5) & H6 & H7) H8.
  rewrite gradeSubmission_cases. cbv zeta.
  now rewrite H1, H2, H3, H4, H5, H6, H7, H8.
Qed.

Lemma cloned_fs req tree w :
  fs (cloned req tree w) !! workspace_of req w = Some tree.
Proof. unfold cloned. cbn [add_workspace fs]. apply lookup_insert_eq. Qed.

Lemma cloned_reviews req tree w : reviews (cloned req tree w) = reviews w.
Proof. reflexivity. Qed.

Lemma cloned_trace req tree w :
  trace (cloned req tree w) = trace w ++ [find_event req; clone_event req].
Proof. unfold cloned. cbn. now rewrite <- app_assoc. Qed.




(** *** The ways a request ends *)

(** A failure once the workspace exists: the response of the [catch]
    block, and the release of the workspace. *)
Definition fail_release (o : Outcomes) (path message : string) (w : World)
  : Response * World :=
  (fst (failed message w), release o path (snd (failed message w))).

(** The request for a new grading whose clone succeeded. *)
Lemma graded_cases o req w tree :
  new_grading o req w -> clone_result o = inr tree ->
  let dest := workspace_of req w in
  let ci := str_of (customInstructions req) in
  let b := str_of (branchName req) in
  let found := scan_spec dest tree in
  let listed := map EvReaddir (opened_spec dest tree) in
  let w2 := cloned req tree w in
  gradeSubmission o req w =
  if Nat.eqb (List.length found) 0
  then fail_release o dest "No code files found in the repository"
         (log_events listed w2)
  else
    let code := sections dest (read_all dest tree found) in
    let evs := listed ++ map EvReadFile found ++ [EvAnalyze code ci b] in
    match ai_result o with
    | inl msg => fail_release o dest msg (log_events evs w2)
    | inr ai =>
        let gr := results_of ai (List.length found) ci b in
        let w3 := log_events (evs ++ [create_event req gr]) w2 in
        match create_error o with
        | Some msg => fail_release o dest msg w3
        | None =>
            match student_column (or_null (studentName req)) with
            | None =>
                fail_release o dest
                  "Invalid value provided for argument studentName" w3
            | Some st =>
                let row := review_row req st gr w2 in
                (graded_response req gr row (clock w + 1),
                 release o dest (tick (insert_row row w3)))
            end
        end
    end.
Proof.
  intros Hnew Hclone dest ci b found listed w2.
  rewrite (gradeSubmission_new o req w tree Hnew Hclone).
  rewrite (grade_new_exact o req (workspace_of req w)
             {| world := cloned req tree w;
                clonedPath := Some (workspace_of req w) |} tree
             (cloned_fs req tree w)).
  fold dest ci b found listed w2. cbv zeta.
  unfold settle, fail_release.
  destruct (Nat.eqb (List.length found) 0); [reflexivity|].
  destruct (ai_result o) as [msg|ai]; [reflexivity|].
  destruct (create_error o); [reflexivity|].
  destruct (student_column (or_null (studentName req))); reflexivity.
Qed.

(** The ways a request ends before a workspace exists, and the one way it
    goes on. *)
Lemma gradeSubmission_classes o req w :
  let w1 := log_event (find_event req) w in
  (missing_or_malformed (repoName req) = true /\
   gradeSubmission o req w =
     (respond 400 (Rejected "Invalid or missing repoName"), w)) \/
  (missing_or_malformed (repoName req) = false /\
   missing_or_malformed (branchName req) = true /\
   gradeSubmission o req w =
     (respond 400 (Rejected "Invalid or missing branchName (Module)"), w)) \/
  (missing_or_malformed (repoName req) = false /\
   missing_or_malformed (branchName req) = false /\
   ((exists msg, find_error o = Some msg /\
                 gradeSubmission o req w = failed msg w1) \/
    (find_error o = None /\ cache_key req = None /\
     gradeSubmission o req w =
       failed "Invalid value provided for argument studentName" w1) \/
    (exists key r,
       find_error o = None /\ cache_key req = Some key /\
       find_latest key (reviews w) = Some r /\
       gradeSubmission o req w =
         match serve_hit r with
         | inl msg => failed msg w1
         | inr response => (response, w1)
         end) \/
    (cache_miss o req w /\
     instructions_missing (customInstructions req) = true /\
     gradeSubmission o req w =
       (respond 400 (Rejected "customInstructions required for new grading"),
        w1)) \/
    (cache_miss o req w /\
     instructions_missing (customInstructions req) = false /\
     isValidGitHubUrl (str_of (repoName req)) = false /\
     gradeSubmission o req w =
       (respond 400 (Rejected "Invalid GitHub URL format"), w1)) \/
    (new_grading o req w /\
     exists msg, clone_result o = inl msg /\
       gradeSubmission o req w =
         failed msg (log_event (clone_event req) w1)) \/
    (new_grading o req w /\ exists tree, clone_result o = inr tree))).
Proof.
  intros w1. rewrite gradeSubmission_cases. cbv zeta.
  fold (find_event req) (clone_event req) w1.
  destruct (missing_or_malformed (repoName req)) eqn:H1; [now left|].
  destruct (missing_or_malformed (branchName req)) eqn:H2; [right; now left|].
  right. right. split; [reflexivity|]. split; [reflexivity|].
  destruct (find_error o) as [e|] eqn:H3; [left; eauto|].
  destruct (cache_key req) as [key|] eqn:H4; [|right; left; auto].
  destruct (find_latest key (reviews w)) as [r|] eqn:H5.
  { right. right. left. exists key, r. auto. }
  assert (Hmiss : cache_miss o req w) by (unfold cache_miss; eauto).
  destruct (instructions_missing (customInstructions req)) eqn:H6.
  { do 3 right. left. auto. }
  destruct (isValidGitHubUrl (str_of (repoName req))) eqn:H7; cbn [negb].
  2:{ do 4 right. left. auto. }
  assert (Hnew : new_grading o req w) by (unfold new_grading; auto).
  destruct (clone_result o) as [msg|tree] eqn:H8.
  - do 5 right. left. eauto.
  - do 6 right. eauto.
Qed.

Lemma serve_hit_response r response :
  serve_hit r = inr response ->
  exists results summary, response = hit_response r results summary.
Proof.
  unfold serve_hit. destruct (JSON_parse _); [discriminate|].
  destruct (get_prop _ "results"); [discriminate|].
  destruct (get_prop _ "summary"); [discriminate|].
  intros [= <-]. eauto.
Qed.

Lemma nonempty_length {A : Type} (l : list A) :
  l <> [] -> Nat.eqb (List.length l) 0 = false.
Proof. destruct l; [congruence|reflexivity]. Qed.

(** *** Failures of the collaborators *)

(** X5. When the scoring service fails on a request for a new grading,
    the response is the 500 of the [catch] block with the message of the
    service; the files were listed and read and the service was called
    once, no insert was attempted and the store is as it was, and the
    workspace was released. *)
Theorem scoring_failure_is_surfaced o req w tree msg :
  new_grading o req w ->
  clone_result o = inr tree ->
  files (scan (workspace_of req w) tree empty_scan) <> [] ->
  ai_result o = inl msg ->
  let dest := workspace_of req w in
  let w' := snd (gradeSubmission o req w) in
  fst (gradeSubmission o req w) =
    respond 500 (Failed "Grading failed" msg (clock w)) /\
  reviews w' = reviews w /\
  (exists code,
     trace w' =
       trace w ++ [find_event req; clone_event req] ++
       map EvReaddir (opened (scan dest tree empty_scan)) ++
       map EvReadFile (files (scan dest tree empty_scan)) ++
       [EvAnalyze code (str_of (customInstructions req))
          (str_of (branchName req));
        EvCleanupRepo dest]) /\
  (cleanup_error o = None -> fs w' !! dest = None).
Proof.
  intros Hnew Hclone Hne Hai dest w'. subst dest w'.
  rewrite (graded_cases o req w tree Hnew Hclone). cbv zeta.
  rewrite scan_spec_correct in *. cbn [files opened] in *.
  rewrite (nonempty_length _ Hne), Hai.
  unfold fail_release. cbn [fst snd failed].
  split; [reflexivity|]. split; [now rewrite release_reviews|]. split.
  - eexists. rewrite release_trace. cbn [tick trace log_events].
    rewrite cloned_trace. now rewrite <- !app_assoc.
  - intros Hc. now apply release_fs.
Qed.

(** X6. When the insert fails after the scoring service has answered, the
    response is the 500 of the [catch] block with the message of the
    store: the scoring call was made and its result is lost, since the
    store is as it was, so the same request is still one for a new
    grading; the workspace was released. *)
Theorem insert_failure_loses_the_grading o req w tree ai msg :
  new_grading o req w ->
  clone_result o = inr tree ->
  files (scan (workspace_of req w) tree empty_scan) <> [] ->
  ai_result o = inr ai ->
  create_error o = Some msg ->
  let dest := workspace_of req w in
  let w' := snd (gradeSubmission o req w) in
  fst (gradeSubmission o req w) =
    respond 500 (Failed "Grading failed" msg (clock w)) /\
  reviews w' = reviews w /\
  (exists code gr,
     totalScore gr = Ai.score ai /\
     trace w' =
       trace w ++ [find_event req; clone_event req] ++
       map EvReaddir (opened (scan dest tree empty_scan)) ++
       map EvReadFile (files (scan dest tree empty_scan)) ++
       [EvAnalyze code (str_of (customInstructions req))
          (str_of (branchName req));
        create_event req gr;
        EvCleanupRepo dest]) /\
  new_grading o req w' /\
  (cleanup_error o = None -> fs w' !! dest = None).
Proof.
  intros Hnew Hclone Hne Hai Hcreate dest w'. subst dest w'.
  rewrite (graded_cases o req w tree Hnew Hclone). cbv zeta.
  rewrite scan_spec_correct in *. cbn [files opened] in *.
  rewrite (nonempty_length _ Hne), Hai, Hcreate.
  unfold fail_release. cbn [fst snd failed].
  split; [reflexivity|]. split; [now rewrite release_reviews|]. split; [|split].
  - eexists. eexists. split; [|rewrite release_trace; cbn [tick trace log_events];
      rewrite cloned_trace; now rewrite <- !app_assoc].
    reflexivity.
  - destruct Hnew as (H1 & H2 & (H3 & key & H4 & H5) & H6 & H7).
    unfold new_grading, cache_miss. rewrite release_reviews.
    cbn [tick reviews log_events]. rewrite cloned_reviews. eauto 10.
  - intros Hc. now apply release_fs.
Qed.


(** *** The response and the store *)

(** X8. The response is one of three documents, and its status tells
    which: a 200 carries a grading whose source is "database" or "openai"
    and has [success] true; a 400 carries the message of a rejection; a 500
    carries the error "Grading failed" with a message; the last two have
    [success] false. *)
Theorem response_shape o req w :
  let response := fst (gradeSubmission o req w) in
  (status response = 200 /\ success response = true /\
   exists source st br rp res sum id c t,
     body response = Graded source st br rp res sum id c t /\
     (source = "database" \/ source = "openai")) \/
  (status response = 400 /\ success response = false /\
   exists e, body response = Rejected e) \/
  (status response = 500 /\ success response = false /\
   exists m t, body response = Failed "Grading failed" m t).
Proof.
  cbv zeta.
  assert (Hfail : forall m x,
    status (fst (failed m x)) = 500 /\ success (fst (failed m x)) = false /\
    exists m' t, body (fst (failed m x)) = Failed "Grading failed" m' t).
  { intros m x. cbn. eauto. }
  destruct (gradeSubmission_classes o req w)
    as [(_ & ->)|[(_ & _ & ->)|(_ & _ & H)]];
    [right; left; cbn; eauto|right; left; cbn; eauto|].
  destruct H as [(msg & _ & ->)|[(_ & _ & ->)|[(key & r & _ & _ & _ & ->)|
                 [(_ & _ & ->)|[(_ & _ & _ & ->)|[(_ & msg & _ & ->)|
                 (Hnew & tree & Hclone)]]]]]];
    try (right; right; apply Hfail); try (right; left; cbn; now eauto).
  - destruct (serve_hit r) as [msg|response] eqn:E;
      [right; right; apply Hfail|].
    apply serve_hit_response in E as (results & summary & ->).
    left. cbn. repeat split. do 9 eexists. split; [reflexivity|now left].
  - rewrite (graded_cases o req w tree Hnew Hclone). cbv zeta.
    unfold fail_release.
    destruct (Nat.eqb _ 0); [right; right; apply Hfail|].
    destruct (ai_result o); [right; right; apply Hfail|].
    destruct (create_error o); [right; right; apply Hfail|].
    destruct (student_column _); [|right; right; apply Hfail].
    left. cbn. repeat split. do 9 eexists. split; [reflexivity|now right].
Qed.


(** X10. The store only grows, and by new gradings only.  After a request
    the store is as it was and the response is no new grading, or one row
    was appended and the response is the 200 with source "openai" for that
    row: the row has the id and the creation time the response gives, the
    repository and the branch of the request, its student or none, the
    status "COMPLETED", the score of the scoring service over 100, and as
    content the serialized document of the feedback, the results and the
    summary that the response carries. *)
Theorem store_grows_by_new_gradings_only o req w :
  let response := fst (gradeSubmission o req w) in
  let w' := snd (gradeSubmission o req w) in
  (reviews w' = reviews w /\
   forall st br rp res sum id c t,
     body response <> Graded "openai" st br rp res sum id c t) \/
  (exists row ai gr st br rp t,
     reviews w' = reviews w ++ [row] /\
     new_grading o req w /\
     ai_result o = inr ai /\
     totalScore gr = Ai.score ai /\
     response =
       respond 200
         (Graded "openai" st br rp (Some (json_of_results gr))
            (Some (json_of_summary (make_summary gr)))
            (Review.id row) (Review.createdAt row) t) /\
     Review.repoName row = str_of (repoName req) /\
     Review.branchName row = str_of (branchName req) /\
     student_column (or_null (studentName req)) = Some (Review.studentName row) /\
     Review.status row = "COMPLETED" /\
     Review.score row =
       Number_toString (Ai.score ai) +:+ "/" +:+ Number_toString 100 /\
     Review.reviewContent row =
       JSON_stringify (review_content gr (make_summary gr))).
Proof.
  cbv zeta.
  assert (Hfail : forall m x st br rp res sum id c t,
    body (fst (failed m x)) <> Graded "openai" st br rp res sum id c t)
    by (intros; discriminate).
  destruct (gradeSubmission_classes o req w)
    as [(_ & ->)|[(_ & _ & ->)|(_ & _ & H)]];
    [left; split; [reflexivity|discriminate]
    |left; split; [reflexivity|discriminate]|].
  destruct H as [(msg & _ & ->)|[(_ & _ & ->)|[(key & r & _ & _ & _ & ->)|
                 [(_ & _ & ->)|[(_ & _ & _ & ->)|[(_ & msg & _ & ->)|
                 (Hnew & tree & Hclone)]]]]]];
    try (left; split; [reflexivity|discriminate]).
  - left. destruct (serve_hit r) as [msg|response] eqn:E;
      [split; [reflexivity|discriminate]|].
    apply serve_hit_response in E as (results & summary & ->).
    split; [reflexivity|discriminate].
  - rewrite (graded_cases o req w tree Hnew Hclone). cbv zeta.
    unfold fail_release.
    assert (Hrel : forall m x,
      reviews x = reviews w ->
      reviews (snd (fst (failed m x),
                    release o (workspace_of req w) (snd (failed m x)))) =
      reviews w).
    { intros m x Hx. cbn [fst snd]. now rewrite release_reviews. }
    destruct (Nat.eqb _ 0);
      [left; split; [now apply Hrel|apply Hfail]|].
    destruct (ai_result o) as [msg|ai] eqn:Hai;
      [left; split; [now apply Hrel|apply Hfail]|].
    destruct (create_error o);
      [left; split; [now apply Hrel|apply Hfail]|].
    destruct (student_column _) as [st|] eqn:Hst;
      [|left; split; [now apply Hrel|apply Hfail]].
    right. cbn [fst snd]. rewrite release_reviews.
    eexists _, ai, (results_of ai _ _ _), _, _, _, _.
    split; [reflexivity|]. split; [assumption|].
    split; [reflexivity|]. split; [reflexivity|].
    split; [reflexivity|]. repeat split.
Qed.

(** The store after a request, and when it grew. *)
Lemma store_after o req w :
  reviews (snd (gradeSubmission o req w)) = reviews w \/
  exists st gr x,
    new_grading o req w /\
    student_column (or_null (studentName req)) = Some st /\
    reviews (snd (gradeSubmission o req w)) =
      reviews w ++ [review_row req st gr x].
Proof.
  destruct (gradeSubmission_classes o req w)
    as [(_ & ->)|[(_ & _ & ->)|(_ & _ & H)]]; [now left|now left|].
  destruct H as [(msg & _ & ->)|[(_ & _ & ->)|[(key & r & _ & _ & _ & ->)|
                 [(_ & _ & ->)|[(_ & _ & _ & ->)|[(_ & msg & _ & ->)|
                 (Hnew & tree & Hclone)]]]]]]; try (now left).
  - left. now destruct (serve_hit r).
  - rewrite (graded_cases o req w tree Hnew Hclone). cbv zeta.
    unfold fail_release.
    destruct (Nat.eqb _ 0); [left; cbn [snd]; now rewrite release_reviews|].
    destruct (ai_result o) as [msg|ai];
      [left; cbn [snd]; now rewrite release_reviews|].
    destruct (create_error o); [left; cbn [snd]; now rewrite release_reviews|].
    destruct (student_column _) as [st|] eqn:Hst;
      [|left; cbn [snd]; now rewrite release_reviews].
    right. cbn [snd]. rewrite release_reviews. eauto 10.
Qed.

(** The rows of the store for a key. *)
Definition rows_for (key : WhereClause) (rows : list Review.t) : list Review.t :=
  List.filter (row_matches key) rows.

Lemma option_string_eqb_eq a b : option_string_eqb a b = true -> a = b.
Proof.
  destruct a, b; cbn; try discriminate; [|reflexivity].
  intros H. apply String.eqb_eq in H. now subst.
Qed.

Lemma review_row_key req st gr x key :
  student_column (or_null (studentName req)) = Some st ->
  row_matches key (review_row req st gr x) = true <-> cache_key req = Some key.
Proof.
  intros Hst. unfold cache_key. rewrite Hst. destruct key as [rp br sn].
  unfold row_matches.
  cbn [Review.repoName Review.branchName Review.studentName review_row new_row
       where_repoName where_branchName where_studentName].
  split.
  - intros H. apply andb_true_iff in H as [H Hs].
    apply andb_true_iff in H as [Hr Hb].
    apply String.eqb_eq in Hr, Hb. apply option_string_eqb_eq in Hs.
    now subst.
  - intros [= <- <- <-].
    now rewrite !String.eqb_refl, option_string_eqb_refl.
Qed.

Lemma find_latest_app_other key rows row :
  row_matches key row = false ->
  find_latest key (rows ++ [row]) = find_latest key rows.
Proof.
  intros H. induction rows as [|a rows IH]; cbn [app find_latest].
  - now rewrite H.
  - now rewrite IH.
Qed.

(** X11. A request changes what the store holds for at most one key, its
    own, and only when that key had no review.  For every key, the rows of
    the key and the answer of the lookup are after the request what they
    were before, or else the key is the key of the request, it had no row,
    and it has now exactly one, which the lookup finds. *)
Theorem requests_keep_keys_apart o req w key :
  let w' := snd (gradeSubmission o req w) in
  (rows_for key (reviews w') = rows_for key (reviews w) /\
   find_latest key (reviews w') = find_latest key (reviews w)) \/
  (cache_key req = Some key /\
   rows_for key (reviews w) = [] /\
   exists row,
     rows_for key (reviews w') = [row] /\
     find_latest key (reviews w') = Some row).
Proof.
  cbv zeta.
  destruct (store_after o req w) as [->|(st & gr & x & Hnew & Hst & ->)];
    [now left|].
  destruct (row_matches key (review_row req st gr x)) eqn:Hrow.
  - right. apply (review_row_key req st gr x key Hst) in Hrow as Hkey.
    destruct Hnew as (_ & _ & (_ & key' & Hkey' & Hnone) & _).
    assert (key' = key) by congruence. subst key'.
    assert (Hempty : rows_for key (reviews w) = []).
    { apply filter_none. now apply find_latest_none. }
    split; [assumption|]. split; [assumption|].
    exists (review_row req st gr x). split.
    + unfold rows_for in *. rewrite List.filter_app, Hempty.
      cbn [List.filter app]. now rewrite Hrow.
    + now apply find_latest_after_miss.
  - left. split.
    + unfold rows_for. rewrite List.filter_app. cbn [List.filter].
      rewrite Hrow. apply app_nil_r.
    + now apply find_latest_app_other.
Qed.

End ControllerFacts.

(** ** The completeness sub-score *)

(** C8. The completeness sub-score is a function of the score alone: it is
    40 when the score is above 60 and [min(40, round(score * 0.4))]
    otherwise.  In what [performCustomGrading] returns, it is that function
    of the score the scoring service gave, its [maxScore] is 40, and the
    scoring service was called once. *)
Theorem completeness_is_function_of_score :
  (forall score, completeness_score score = completeness_spec score) /\
  (forall o repoPath customInstructions branchName fr gr fr',
     performCustomGrading o repoPath customInstructions branchName fr =
       (inr gr, fr') ->
     exists ai,
       ai_result o = inr ai /\
       totalScore gr = Ai.score ai /\
       Completeness.score (completeness gr) =
         completeness_spec (Ai.score ai) /\
       Completeness.maxScore (completeness gr) = 40%float /\
       exists evs code,
         trace (world fr') =
           trace (world fr) ++ evs ++
           [EvAnalyze code customInstructions branchName] /\
         Forall is_scan_event evs).
Proof.
  split; [apply completeness_score_spec|].
  intros o p ci b fr gr fr' H.
  destruct (performCustomGrading_frame o p ci b fr)
    as (evs & Hev & [(msg & E)|[(code & msg & _ & E)|(code & ai & n & Hai & E)]]);
    rewrite E in H; try discriminate.
  injection H as <- <-. exists ai.
  repeat split; auto.
  - cbn. apply completeness_score_spec.
  - exists evs, code. split; [reflexivity|assumption].
Qed.

(** ** More on the status bands *)

Lemma SFleb_trans a b c :
  SFleb a b = true -> SFleb b c = true -> SFleb a c = true.
Proof.
  unfold SFleb.
  destruct a as [sa|sa| |sa ma ea], b as [sb|sb| |sb mb eb],
           c as [sc|sc| |sc mc ec];
    rewrite ?FloatFacts.SFcompare_finite;
    try (simpl; congruence);
    try (destruct sa; simpl; congruence);
    try (destruct sb; simpl; congruence);
    try (destruct sc; simpl; congruence);
    try (destruct sa, sb; simpl; congruence);
    try (destruct sa, sc; simpl; congruence);
    try (destruct sb, sc; simpl; congruence);
    try (destruct sa, sb, sc; simpl; congruence).
  pose proof (FloatFacts.lex_spec ea ma eb mb);
    pose proof (FloatFacts.lex_spec eb mb ec mc);
    pose proof (FloatFacts.lex_spec ea ma ec mc).
  destruct sa, sb, sc; simpl; try congruence;
    destruct (FloatFacts.lex ea ma eb mb), (FloatFacts.lex eb mb ec mc),
             (FloatFacts.lex ea ma ec mc);
    simpl; try congruence; intros _ _; exfalso; lia.
Qed.

Lemma leb_trans (a b c : float) :
  (a <=? b)%float = true -> (b <=? c)%float = true -> (a <=? c)%float = true.
Proof. rewrite !FloatAxioms.leb_spec. apply SFleb_trans. Qed.

(** The bands in their order. *)
Definition band (status : string) : nat :=
  if String.eqb status "Excellent" then 4
  else if String.eqb status "Good" then 3
  else if String.eqb status "Satisfactory" then 2
  else if String.eqb status "Needs Improvement" then 1
  else 0.

(** X12. The status never goes down when the percentage goes up: if the
    percentage the program computes for one score is at most the one it
    computes for another, the band of the first is at most the band of the
    second; and a percentage that is not a number gets the lowest band. *)
Theorem getGradingStatus_monotone (s1 m1 s2 m2 : float) :
  ((s1 / m1 * 100 <=? s2 / m2 * 100)%float = true ->
   (band (getGradingStatus s1 m1) <= band (getGradingStatus s2 m2))%nat) /\
  (is_nan (s1 / m1 * 100)%float = true ->
   getGradingStatus s1 m1 = "Unsatisfactory").
Proof.
  split.
  - intros H. unfold getGradingStatus.
    set (p1 := (s1 / m1 * 100)%float) in *.
    set (p2 := (s2 / m2 * 100)%float) in *.
    assert (up : forall t, (t <=? p1)%float = true -> (t <=? p2)%float = true)
      by (intros t Ht; now apply (leb_trans t p1 p2)).
    destruct (90 <=? p1)%float eqn:E90; [rewrite (up _ E90); cbn; lia|].
    destruct (80 <=? p1)%float eqn:E80.
    { rewrite (up _ E80). destruct (90 <=? p2)%float; cbn; lia. }
    destruct (70 <=? p1)%float eqn:E70.
    { rewrite (up _ E70).
      destruct (90 <=? p2)%float; [cbn; lia|].
      destruct (80 <=? p2)%float; cbn; lia. }
    destruct (60 <=? p1)%float eqn:E60.
    { rewrite (up _ E60).
      destruct (90 <=? p2)%float; [cbn; lia|].
      destruct (80 <=? p2)%float; [cbn; lia|].
      destruct (70 <=? p2)%float; cbn; lia. }
    cbn. lia.
  - intros H. apply FloatFacts.is_nan_eq in H. unfold getGradingStatus.
    rewrite H. reflexivity.
Qed.

(** X13. A maximum of zero: the division gives an infinity or no number,
    and the status is "Excellent" for every score above zero and
    "Unsatisfactory" for every other score. *)
Theorem getGradingStatus_zero_maximum (score : float) :
  getGradingStatus score 0 =
  if (0 <? score)%float then "Excellent" else "Unsatisfactory".
Proof.
  unfold getGradingStatus.
  rewrite !FloatAxioms.leb_spec, FloatAxioms.ltb_spec, !mul_spec, !div_spec.
  destruct (Prim2SF score) as [s|s| |s m e] eqn:E.
  - destruct s; reflexivity.
  - destruct s; reflexivity.
  - reflexivity.
  - destruct s; reflexivity.
Qed.

Definition whole_scores : list Z := map Z.of_nat (seq 0 101).

Definition band_of_whole (n : Z) : string :=
  if 90 <=? n then "Excellent"
  else if 80 <=? n then "Good"
  else if 70 <=? n then "Satisfactory"
  else if 60 <=? n then "Needs Improvement"
  else "Unsatisfactory".

Lemma whole_scores_In n : 0 <= n <= 100 -> In n whole_scores.
Proof.
  intros H. unfold whole_scores. apply in_map_iff. exists (Z.to_nat n).
  split; [lia|]. apply in_seq. lia.
Qed.

(** X14. For a whole score from 0 to 100 out of 100, the rounding of the
    division and the multiplication never moves the score across a
    boundary: the status is the band of the score itself. *)
Theorem getGradingStatus_whole_scores (n : Z) :
  0 <= n <= 100 ->
  getGradingStatus (Num.of_Z n) 100 = band_of_whole n.
Proof.
  intros H. apply whole_scores_In in H.
  assert (Hall : forallb (fun k => String.eqb (getGradingStatus (Num.of_Z k) 100)
                                     (band_of_whole k)) whole_scores = true)
    by (vm_compute; reflexivity).
  rewrite forallb_forall in Hall. now apply String.eqb_eq, Hall.
Qed.

(** ** More on the completeness sub-score *)

Lemma not_le32_40 : ~ FloatFacts.le32 (Prim2SF 40%float).
Proof.
  vm_compute. intros [H|[_ H]]; [discriminate|]. apply H. reflexivity.
Qed.

(** X15. The completeness sub-score never exceeds its maximum of 40, and
    it is 40 exactly when the score is above 60: no score of 60 or less,
    however the product is rounded, reaches it. *)
Theorem completeness_reaches_maximum_above_60 (score : float) :
  (40 <? completeness_score score)%float = false /\
  (completeness_score score = 40%float <-> (60 <? score)%float = true).
Proof.
  unfold completeness_score.
  destruct (60 <? score)%float eqn:E.
  - split; [reflexivity|]. split; reflexivity.
  - split; [now apply FloatFacts.completeness_bounded|].
    split; [|discriminate].
    intros H. exfalso. apply not_le32_40. rewrite <- H.
    apply FloatFacts.Math_round_le32. now apply FloatFacts.mul_04_le32.
Qed.

(** The same number, bit for bit. *)
Definition same_float (a b : float) : bool :=
  match Prim2SF a, Prim2SF b with
  | S754_zero s, S754_zero s' => Bool.eqb s s'
  | S754_infinity s, S754_infinity s' => Bool.eqb s s'
  | S754_nan, S754_nan => true
  | S754_finite s m e, S754_finite s' m' e' =>
      Bool.eqb s s' && Pos.eqb m m' && Z.eqb e e'
  | _, _ => false
  end.

Lemma same_float_eq (a b : float) : same_float a b = true -> a = b.
Proof.
  unfold same_float. intros H. apply Prim2SF_inj.
  destruct (Prim2SF a) as [s|s| |s m e], (Prim2SF b) as [s'|s'| |s' m' e'];
    try discriminate; try reflexivity.
  - apply Bool.eqb_prop in H. now subst.
  - apply Bool.eqb_prop in H. now subst.
  - apply andb_true_iff in H as [H He]. apply andb_true_iff in H as [Hs Hm].
    apply Bool.eqb_prop in Hs. apply Pos.eqb_eq in Hm. apply Z.eqb_eq in He.
    now subst.
Qed.

Definition completeness_of_whole (n : Z) : Z :=
  if 60 <? n then 40 else (4 * n + 5) / 10.

(** X16. For a whole score from 0 to 100, the completeness sub-score is
    the whole number closest to four tenths of the score when the score is
    60 or less, and 40 above: it goes from 24 at a score of 60 to 40 at a
    score of 61. *)
Theorem completeness_of_whole_scores (n : Z) :
  0 <= n <= 100 ->
  completeness_score (Num.of_Z n) = Num.of_Z (completeness_of_whole n) /\
  0 <= completeness_of_whole n <= 40.
Proof.
  intros H. split.
  - apply whole_scores_In in H.
    assert (Hall : forallb (fun k => same_float (completeness_score (Num.of_Z k))
                                       (Num.of_Z (completeness_of_whole k)))
                     whole_scores = true)
      by (vm_compute; reflexivity).
    rewrite forallb_forall in Hall. now apply same_float_eq, Hall.
  - unfold completeness_of_whole. destruct (60 <? n) eqn:E; [lia|].
    apply Z.ltb_ge in E. split; [apply Z.div_pos; lia|].
    apply Z.div_le_upper_bound; lia.
Qed.

(** ** File names and their extensions *)

Definition no_slash (s : string) : Prop :=
  Forall (fun c => c <> "/"%char) (list_ascii_of_string s).

Definition no_dot (s : string) : Prop :=
  Forall (fun c => c <> "."%char) (list_ascii_of_string s).

Lemma list_ascii_of_append (a b : string) :
  list_ascii_of_string (a +:+ b) =
  list_ascii_of_string a ++ list_ascii_of_string b.
Proof.
  induction a as [|x a IH]; [reflexivity|].
  rewrite append_cons. cbn [list_ascii_of_string app]. now rewrite IH.
Qed.

Lemma length_list_ascii (s : string) :
  List.length (list_ascii_of_string s) = String.length s.
Proof. induction s as [|x s IH]; [reflexivity|]. cbn. now rewrite IH. Qed.

Lemma loop_app (l1 l2 : list ascii) (i : Z) (st : Extname.state) :
  Extname.loop (l1 ++ l2) i st =
  Extname.loop l2 (i - Z.of_nat (List.length l1)) (Extname.loop l1 i st).
Proof.
  revert i st. induction l1 as [|c l1 IH]; intros i st.
  - cbn [app Extname.loop List.length]. f_equal. lia.
  - cbn [app Extname.loop]. rewrite IH. f_equal.
    cbn [List.length]. lia.
Qed.

Lemma ascii_eqb_neq (c d : ascii) : c <> d -> Ascii.eqb c d = false.
Proof. intros H. now apply Ascii.eqb_neq. Qed.

(** Characters after the last dot: they fix the end of the name. *)
Lemma loop_after_dot (l : list ascii) : forall i st,
  Forall (fun c => c <> "/"%char) l -> Forall (fun c => c <> "."%char) l ->
  Z.of_nat (List.length l) - 1 <= i ->
  Extname.stopped st = false -> Extname.startDot st = -1 ->
  l <> [] ->
  Extname.loop l i st =
  {| Extname.startDot := -1;
     Extname.startPart := Extname.startPart st;
     Extname.end_ :=
       if Extname.end_ st =? -1 then i + 1 else Extname.end_ st;
     Extname.matchedSlash :=
       if Extname.end_ st =? -1 then false else Extname.matchedSlash st;
     Extname.preDotState := Extname.preDotState st;
     Extname.stopped := false |}.
Proof.
  induction l as [|c l IH]; intros i st Hs Hd Hi Hstop Hdot Hne;
    [congruence|].
  apply Forall_cons in Hs as [Hc Hs]. apply Forall_cons in Hd as [Hc' Hd].
  cbn [List.length] in Hi. cbn [Extname.loop].
  assert (Hstep : Extname.step i c st =
    {| Extname.startDot := -1;
       Extname.startPart := Extname.startPart st;
       Extname.end_ :=
         if Extname.end_ st =? -1 then i + 1 else Extname.end_ st;
       Extname.matchedSlash :=
         if Extname.end_ st =? -1 then false else Extname.matchedSlash st;
       Extname.preDotState := Extname.preDotState st;
       Extname.stopped := false |}).
  { unfold Extname.step. rewrite Hstop, (ascii_eqb_neq _ _ Hc),
      (ascii_eqb_neq _ _ Hc'), Hdot. cbn [Z.eqb].
    destruct (Extname.end_ st =? -1); reflexivity. }
  rewrite Hstep. destruct l as [|c2 l]; [reflexivity|].
  rewrite IH; [|assumption|assumption| |reflexivity|reflexivity|discriminate].
  2:{ cbn [List.length] in *. lia. }
  cbn [Extname.startPart Extname.end_ Extname.matchedSlash
       Extname.preDotState].
  destruct (Extname.end_ st =? -1) eqn:E.
  - assert ((i + 1 =? -1) = false) as -> by lia. reflexivity.
  - rewrite E. reflexivity.
Qed.

(** Characters before the last dot: the one at the start of the name
    decides. *)
Lemma loop_before_dot (l : list ascii) : forall i st,
  Forall (fun c => c <> "/"%char) l ->
  Extname.stopped st = false -> Extname.startDot st <> -1 ->
  Extname.end_ st <> -1 ->
  l <> [] ->
  Extname.loop l i st =
  {| Extname.startDot := Extname.startDot st;
     Extname.startPart := Extname.startPart st;
     Extname.end_ := Extname.end_ st;
     Extname.matchedSlash := Extname.matchedSlash st;
     Extname.preDotState :=
       if Ascii.eqb (List.last l "."%char) "." then 1 else -1;
     Extname.stopped := false |}.
Proof.
  induction l as [|c l IH]; intros i st Hs Hstop Hdot Hend Hne; [congruence|].
  apply Forall_cons in Hs as [Hc Hs]. cbn [Extname.loop].
  apply Z.eqb_neq in Hdot, Hend.
  assert (Hstep : Extname.step i c st =
    {| Extname.startDot := Extname.startDot st;
       Extname.startPart := Extname.startPart st;
       Extname.end_ := Extname.end_ st;
       Extname.matchedSlash := Extname.matchedSlash st;
       Extname.preDotState := if Ascii.eqb c "." then 1 else -1;
       Extname.stopped := false |}).
  { unfold Extname.step. rewrite Hstop, (ascii_eqb_neq _ _ Hc), Hdot, Hend.
    destruct (Ascii.eqb c "."); reflexivity. }
  rewrite Hstep. destruct l as [|c2 l]; [reflexivity|].
  rewrite IH; [reflexivity|assumption|reflexivity| | |discriminate].
  - cbn [Extname.startDot]. now apply Z.eqb_neq.
  - cbn [Extname.end_]. now apply Z.eqb_neq.
Qed.

Lemma loop_no_dot (l : list ascii) : forall i st,
  Forall (fun c => c <> "."%char) l -> Extname.startDot st = -1 ->
  Extname.startDot (Extname.loop l i st) = -1.
Proof.
  induction l as [|c l IH]; intros i st Hd Hdot; [assumption|].
  apply Forall_cons in Hd as [Hc Hd]. cbn [Extname.loop]. apply IH; [assumption|].
  unfold Extname.step. rewrite (ascii_eqb_neq _ _ Hc).
  destruct (Extname.stopped st); [assumption|].
  destruct (Ascii.eqb c "/"); [destruct (negb _); assumption|].
  rewrite Hdot. destruct (Extname.end_ st =? -1); reflexivity.
Qed.

Lemma step_dot (i : Z) (st : Extname.state) :
  Extname.stopped st = false -> Extname.startDot st = -1 ->
  Extname.step i "." st =
  {| Extname.startDot := i;
     Extname.startPart := Extname.startPart st;
     Extname.end_ :=
       if Extname.end_ st =? -1 then i + 1 else Extname.end_ st;
     Extname.matchedSlash :=
       if Extname.end_ st =? -1 then false else Extname.matchedSlash st;
     Extname.preDotState := Extname.preDotState st;
     Extname.stopped := false |}.
Proof.
  intros Hstop Hdot. unfold Extname.step. rewrite Hstop, Hdot.
  cbn [Ascii.eqb Bool.eqb andb Z.eqb].
  destruct (Extname.end_ st =? -1); reflexivity.
Qed.

(** A name without a dot has no extension. *)
Lemma extname_no_dot (s : string) : no_dot s -> Extname.extname s = "".
Proof.
  intros H. unfold Extname.extname. cbv zeta.
  rewrite loop_no_dot; [reflexivity| |reflexivity].
  apply Forall_rev. exact H.
Qed.

Lemma last_rev_cons {A : Type} (x : A) (l : list A) (d : A) :
  List.last (rev (x :: l)) d = x.
Proof. cbn [rev]. apply last_last. Qed.

(** The extension of a name with a last dot. *)
Lemma extname_split (base ext : string) :
  no_slash base -> no_slash ext -> no_dot ext ->
  Extname.extname (base +:+ "." +:+ ext) =
    (if String.eqb base "" || (String.eqb base "." && String.eqb ext "")
     then "" else "." +:+ ext).
Proof.
  intros Hb He Hd.
  unfold Extname.extname. cbv zeta.
  assert (Hsub : String.substring (String.length base)
                   (String.length ("." +:+ ext)) (base +:+ "." +:+ ext) =
                 "." +:+ ext) by apply substring_append.
  rewrite length_append in Hsub. cbn [String.length] in Hsub.
  rewrite !list_ascii_of_append, !length_app, !rev_app_distr.
  change (list_ascii_of_string ".") with ["."%char].
  cbn [rev app List.length]. rewrite <- !app_assoc. cbn [app].
  unfold no_slash, no_dot in *.
  rewrite <- (length_list_ascii base), <- (length_list_ascii ext) in Hsub.
  assert (Hbase : forall c l, list_ascii_of_string base = c :: l ->
                              String.eqb base "" = false /\
                              (String.eqb base "." = true <->
                               c = "."%char /\ l = [])).
  { intros c l E. destruct base as [|x r]; [discriminate|].
    cbn in E. injection E as -> <-. split; [reflexivity|].
    split.
    - intros H. apply String.eqb_eq in H. injection H as -> ->. auto.
    - intros [-> H]. destruct r; [reflexivity|discriminate]. }
  assert (Hext : String.eqb ext "" = true <-> list_ascii_of_string ext = []).
  { destruct ext; cbn; split; congruence. }
  assert (Hempty : list_ascii_of_string base = [] -> base = "")
    by (destruct base; [reflexivity|discriminate]).
  remember (list_ascii_of_string base) as lb eqn:Elb.
  remember (list_ascii_of_string ext) as le eqn:Ele.
  remember (Z.of_nat (List.length lb + (1 + List.length le))) as n eqn:En.
  assert (Hn : n = Z.of_nat (List.length lb) + 1 + Z.of_nat (List.length le))
    by lia.
  clear En Elb Ele.
  rewrite loop_app, length_rev. cbn [Extname.loop].
  (* the state after the characters of [ext] and the dot *)
  assert (Hdot :
    Extname.step (n - 1 - Z.of_nat (List.length le)) "."
      (Extname.loop (rev le) (n - 1) Extname.init) =
    {| Extname.startDot := Z.of_nat (List.length lb);
       Extname.startPart := 0;
       Extname.end_ := n;
       Extname.matchedSlash := false;
       Extname.preDotState := 0;
       Extname.stopped := false |}).
  { destruct le as [|c le'].
    - cbn [rev Extname.loop]. rewrite step_dot by reflexivity.
      cbn [Extname.init Extname.startPart Extname.end_ Extname.matchedSlash
           Extname.preDotState Z.eqb Pos.eqb].
      cbn [List.length] in *. f_equal; lia.
    - rewrite loop_after_dot;
        [|now apply Forall_rev|now apply Forall_rev|rewrite length_rev; lia
         |reflexivity|reflexivity|].
      + rewrite step_dot by reflexivity.
        cbn [Extname.init Extname.startPart Extname.end_ Extname.matchedSlash
             Extname.preDotState Z.eqb Pos.eqb].
        assert ((n - 1 + 1 =? -1) = false) as -> by lia.
        f_equal; lia.
      + intros E. apply (f_equal (@List.length ascii)) in E.
        rewrite length_rev in E. discriminate. }
  rewrite Hdot.
  replace (n - 1 - Z.of_nat (List.length le) - 1)
    with (Z.of_nat (List.length lb) - 1) by lia.
  assert (Hlen : Z.to_nat (n - Z.of_nat (List.length lb)) =
                 (1 + List.length le)%nat) by lia.
  destruct lb as [|c lb'].
  - (* the name starts with its only dot *)
    rewrite (Hempty eq_refl).
    cbn [rev Extname.loop Extname.preDotState Extname.startDot Extname.end_].
    change (0 =? 0) with true. now rewrite orb_true_r.
  - destruct (Hbase c lb' eq_refl) as [Hne Hdotname]. rewrite Hne. cbn [orb].
    rewrite loop_before_dot;
      [|now apply Forall_rev|reflexivity|cbn [Extname.startDot]; lia
       |cbn [Extname.end_]; lia|].
    2:{ intros E. apply (f_equal (@List.length ascii)) in E.
        rewrite length_rev in E. discriminate. }
    rewrite last_rev_cons.
    cbn [Extname.startDot Extname.end_ Extname.preDotState Extname.startPart].
    assert (E1 : (Z.of_nat (List.length (c :: lb')) =? -1) = false) by lia.
    assert (E2 : (n =? -1) = false) by lia.
    rewrite E1, E2. cbn [orb].
    rewrite Nat2Z.id, Hlen.
    destruct (String.eqb base "." && String.eqb ext "") eqn:Especial.
    + apply andb_true_iff in Especial as [E3 E4].
      apply Hdotname in E3 as [-> ->]. apply Hext in E4. subst le.
      cbn [List.length] in Hn. subst n. reflexivity.
    + assert (Hcond :
        ((if Ascii.eqb c "." then 1 else -1) =? 0) = false) by
        (destruct (Ascii.eqb c "."); reflexivity).
      rewrite Hcond. cbn [orb].
      assert (Hspecial :
        ((if Ascii.eqb c "." then 1 else -1) =? 1) &&
        (Z.of_nat (List.length (c :: lb')) =? n - 1) &&
        (Z.of_nat (List.length (c :: lb')) =? 0 + 1) = false).
      { destruct (Ascii.eqb c ".") eqn:Ec; [|reflexivity].
        apply Ascii.eqb_eq in Ec. subst c. cbn [Z.eqb andb].
        destruct lb' as [|c2 lb''].
        - destruct le as [|c3 le''].
          + exfalso. rewrite (proj2 Hdotname (conj eq_refl eq_refl)) in Especial.
            rewrite (proj2 Hext eq_refl) in Especial. discriminate.
          + cbn [List.length] in *.
            assert (Hn1 : (Z.of_nat 1 =? n - 1) = false)
              by (apply Z.eqb_neq; clear - Hn; lia).
            rewrite Hn1, andb_false_r. reflexivity.
        - cbn [List.length].
          assert (Hn2 : (Z.of_nat (S (S (List.length lb''))) =? 0 + 1) = false)
            by (apply Z.eqb_neq; clear; lia).
          rewrite Hn2. apply andb_false_r. }
      rewrite Hspecial. exact Hsub.
Qed.

(** X17. The extension of a file name, as [path.extname] finds it.  For a
    name without a slash that is [base], a dot, and an [ext] without a dot,
    the extension is the dot with [ext], but for two names: a name that
    starts with its only dot has no extension, and neither has the
    name of two dots.  A name without a dot has no extension. *)
Theorem extname_of_file_name (base ext : string) :
  no_slash base -> no_slash ext -> no_dot ext ->
  Extname.extname (base +:+ "." +:+ ext) =
    (if String.eqb base "" || (String.eqb base "." && String.eqb ext "")
     then "" else "." +:+ ext) /\
  Extname.extname ext = "".
Proof.
  intros Hb He Hd. split; [now apply extname_split|now apply extname_no_dot].
Qed.

Lemma no_slash_append (a b : string) :
  no_slash (a +:+ b) <-> no_slash a /\ no_slash b.
Proof. unfold no_slash. rewrite list_ascii_of_append. apply Forall_app. Qed.

(** A name has no dot, or it has a last one. *)
Lemma last_dot_split (s : string) :
  no_dot s \/ exists base ext, s = base +:+ "." +:+ ext /\ no_dot ext.
Proof.
  induction s as [|c r [IH|(base & ext & -> & He)]].
  - left. constructor.
  - destruct (Ascii.eqb c ".") eqn:E.
    + apply Ascii.eqb_eq in E. subst c. right. now exists "", r.
    + apply Ascii.eqb_neq in E. left. now constructor.
  - right. now exists (String c base), ext.
Qed.

(** X18. Which file names the scan takes.  A name without a slash passes
    the test of the extension exactly when it is a non-empty base followed
    by one of the extensions of the list: a file that is named like an
    extension and nothing more, as [.js], is not taken, and the letters
    are compared as they are, upper case apart from lower case. *)
Theorem allowed_file_names (name : string) :
  no_slash name ->
  (includes codeExtensions (Extname.extname name) = true <->
   exists base ext,
     name = base +:+ ext /\ base <> "" /\ In ext codeExtensions).
Proof.
  intros Hs. split.
  - destruct (last_dot_split name) as [Hd|(base & ext & -> & Hd)].
    + rewrite (extname_no_dot name Hd). discriminate.
    + apply no_slash_append in Hs as [Hb Hs].
      apply no_slash_append in Hs as [_ He].
      rewrite (extname_split base ext Hb He Hd).
      destruct (String.eqb base "") eqn:Eb; [discriminate|].
      destruct (String.eqb base "." && String.eqb ext ""); [discriminate|].
      cbn [orb]. intros H. apply includes_In in H.
      exists base, ("." +:+ ext). repeat split; [|assumption].
      intros ->. discriminate.
  - intros (base & ext & -> & Hb & Hin).
    apply no_slash_append in Hs as [Hsb _].
    assert (Hbase : String.eqb base "" = false) by (now apply String.eqb_neq).
    assert (Hgo : forall x, no_slash x -> no_dot x -> x <> "" ->
              includes codeExtensions ("." +:+ x) = true ->
              includes codeExtensions
                (Extname.extname (base +:+ "." +:+ x)) = true).
    { intros x Hx Hd Hne Hin'.
      rewrite (extname_split base x Hsb Hx Hd), Hbase.
      apply String.eqb_neq in Hne. rewrite Hne, andb_false_r. exact Hin'. }
    cbn [codeExtensions In] in Hin.
    repeat (destruct Hin as [<-|Hin];
            [apply Hgo;
             [repeat constructor; discriminate
             |repeat constructor; discriminate
             |discriminate|reflexivity]|]).
    destruct Hin.
Qed.

(** ** The earlier version of the controller: properties *)

Section LegacyFacts.

Variable isValidGitHubUrl : string -> bool.
Variable Number_toString : float -> string.
Variable toFixed2 : float -> string.

Local Abbreviation legacy_gradeSubmission :=
  (Legacy.gradeSubmission isValidGitHubUrl Number_toString toFixed2).
Local Abbreviation validateRequestData :=
  (Legacy.validateRequestData isValidGitHubUrl).

(** The world after the [finally] block removed (or failed to remove) the
    workspace. *)
Definition legacy_release (o : Legacy.Outcomes) (path : string)
    (w : Legacy.World) : Legacy.World :=
  match Legacy.cleanup_error o with
  | Some _ => Legacy.log_event (Legacy.EvCleanupRepo path) w
  | None =>
      {| Legacy.fs := delete path (Legacy.fs w);
         Legacy.clock := Legacy.clock w;
         Legacy.next_token := Legacy.next_token w;
         Legacy.trace := Legacy.trace w ++ [Legacy.EvCleanupRepo path] |}
  end.

Definition legacy_failed (message : string) (w : Legacy.World)
  : Legacy.Response :=
  Legacy.respond 500 (Legacy.Failed "Grading failed" message (Legacy.clock w)).

Definition legacy_summary (r : Legacy.Results) : Summary.t :=
  {| Summary.totalScore := Legacy.totalScore r;
     Summary.maxScore := Legacy.maxTotalScore r;
     Summary.percentage :=
       toFixed2 (Legacy.totalScore r / Legacy.maxTotalScore r * 100)%float;
     Summary.status :=
       getGradingStatus (Legacy.totalScore r) (Legacy.maxTotalScore r) |}.

(** The handler as a decision tree. *)
Lemma legacy_cases o req w :
  let repo := str_of (Legacy.repoUrl req) in
  let student := str_of (Legacy.studentName req) in
  let n := Legacy.num_of (Legacy.moduleNumber req) in
  legacy_gradeSubmission o req w =
  match validateRequestData (Legacy.repoUrl req) (Legacy.moduleNumber req)
          (Legacy.studentName req) with
  | Some e => (Legacy.respond 400 (Legacy.Rejected e), w)
  | None =>
      let w1 := Legacy.log_event (Legacy.EvCloneRepo repo student) w in
      match Legacy.clone_result o with
      | inl msg => (legacy_failed msg w, Legacy.tick w1)
      | inr tree =>
          let dest := workspace_path student (Legacy.next_token w) in
          let w2 := Legacy.add_workspace dest tree w1 in
          if (n =? 2)%float then
            let w3 := Legacy.log_event (Legacy.EvGrade dest) w2 in
            match Legacy.grade_result o with
            | inl msg =>
                (legacy_failed msg w, legacy_release o dest (Legacy.tick w3))
            | inr r =>
                (Legacy.respond 200
                   (Legacy.Graded student n repo (Legacy.document r)
                      (legacy_summary r) (Legacy.clock w)),
                 legacy_release o dest (Legacy.tick w3))
            end
          else
            (legacy_failed
               ("Module " +:+ Number_toString n +:+
                " grading handler not implemented") w,
             legacy_release o dest (Legacy.tick w2))
      end
  end.
Proof.
  intros repo student n.
  unfold Legacy.gradeSubmission, Legacy.try_block.
  destruct (validateRequestData _ _ _) as [e|]; [reflexivity|].
  fold repo student n.
  unfold Legacy.cloneRepo, Legacy.routeToModuleHandler,
    Legacy.module02Handler_grade, legacy_release, legacy_failed.
  destruct (Legacy.clone_result o) as [msg|tree]; [reflexivity|].
  destruct (n =? 2)%float.
  - destruct (Legacy.grade_result o) as [msg|r];
      unfold Legacy.finally_block, Legacy.try_catch, Legacy.cleanupRepo;
      destruct (Legacy.cleanup_error o); reflexivity.
  - unfold Legacy.finally_block, Legacy.try_catch, Legacy.cleanupRepo;
      destruct (Legacy.cleanup_error o); reflexivity.
Qed.

(** The requests the validation lets through: [repoUrl] is a non-empty
    string with the URL shape, [moduleNumber] is a number other than zero
    and [NaN], and [studentName] is a string that is not blank. *)
Definition acceptable (req : Legacy.Body) : Prop :=
  exists u n s,
    Legacy.repoUrl req = VStr u /\ u <> "" /\ isValidGitHubUrl u = true /\
    Legacy.moduleNumber req = VNum n /\ is_zero n = false /\
    is_nan n = false /\
    Legacy.studentName req = VStr s /\ trim s <> "".

Lemma validateRequestData_None req :
  validateRequestData (Legacy.repoUrl req) (Legacy.moduleNumber req)
    (Legacy.studentName req) = None <-> acceptable req.
Proof.
  unfold Legacy.validateRequestData, acceptable.
  destruct req as [u m s]. cbn [Legacy.repoUrl Legacy.moduleNumber
                                  Legacy.studentName].
  split.
  - destruct u as [| |b|x|u|]; cbn [truthy typeof_string negb orb str_of];
      rewrite ?orb_true_r; try discriminate.
    destruct (String.eqb u "") eqn:Eu; cbn [negb orb]; [discriminate|].
    destruct (isValidGitHubUrl u) eqn:Ev; cbn [negb]; [|discriminate].
    destruct m as [| |b|n|x|];
      cbn [truthy Legacy.typeof_number negb orb];
      rewrite ?orb_true_r; try discriminate.
    destruct (is_zero n || is_nan n) eqn:En; cbn [negb orb]; [discriminate|].
    apply orb_false_iff in En as [Ez En].
    destruct s as [| |b|x|s|]; cbn [truthy typeof_string negb orb str_of];
      rewrite ?orb_true_r; try discriminate.
    destruct (String.eqb s "") eqn:Es; cbn [negb orb]; [discriminate|].
    destruct (String.eqb (trim s) "") eqn:Et; [discriminate|].
    intros _. exists u, n, s. apply String.eqb_neq in Eu, Et. auto 10.
  - intros (u' & n & s' & -> & Hu & Hv & -> & Hz & Hn & -> & Ht).
    cbn [truthy typeof_string Legacy.typeof_number negb orb str_of].
    apply String.eqb_neq in Hu, Ht. rewrite Hu, Hv, Hz, Hn, Ht.
    cbn [negb orb].
    destruct (String.eqb s' "") eqn:Es; [|reflexivity].
    apply String.eqb_eq in Es. subst s'. discriminate.
Qed.


(** X20. A module number other than 2 is turned down only after the
    repository was cloned: the request passes the validation, the clone is
    made, and then the response is a 500 whose message names the module;
    no module handler was called, and the workspace was released. *)
Theorem legacy_unsupported_module o req w n tree :
  acceptable req ->
  Legacy.moduleNumber req = VNum n ->
  (n =? 2)%float = false ->
  Legacy.clone_result o = inr tree ->
  let student := str_of (Legacy.studentName req) in
  let dest := workspace_path student (Legacy.next_token w) in
  let w' := snd (legacy_gradeSubmission o req w) in
  fst (legacy_gradeSubmission o req w) =
    Legacy.respond 500
      (Legacy.Failed "Grading failed"
         ("Module " +:+ Number_toString n +:+
          " grading handler not implemented") (Legacy.clock w)) /\
  Legacy.trace w' =
    Legacy.trace w ++
    [Legacy.EvCloneRepo (str_of (Legacy.repoUrl req)) student;
     Legacy.EvCleanupRepo dest] /\
  (Legacy.cleanup_error o = None -> Legacy.fs w' !! dest = None).
Proof.
  intros Ha Hm Hn Hclone student dest w'. subst w' dest student.
  rewrite legacy_cases. cbv zeta.
  apply validateRequestData_None in Ha. rewrite Ha, Hclone, Hm.
  cbn [Legacy.num_of]. rewrite Hn. cbn [fst snd].
  split; [reflexivity|]. unfold legacy_release.
  destruct (Legacy.cleanup_error o).
  - split; [|discriminate].
    cbn [Legacy.trace Legacy.log_event Legacy.tick Legacy.add_workspace].
    now rewrite <- app_assoc.
  - split.
    + cbn [Legacy.trace Legacy.log_event Legacy.tick Legacy.add_workspace].
      now rewrite <- app_assoc.
    + intros _. cbn [Legacy.fs]. apply lookup_delete_eq.
Qed.

(** The same answers of the collaborators, but for the removal of the
    workspace. *)
Definition legacy_with_cleanup_error (o : Legacy.Outcomes) (e : option string)
  : Legacy.Outcomes :=
  {| Legacy.clone_result := Legacy.clone_result o;
     Legacy.grade_result := Legacy.grade_result o;
     Legacy.cleanup_error := e |}.

(** X21. The earlier handler releases the workspace on every way out.
    The calls of a request are none, or a clone that fails, or the clone,
    at most one call of the module handler, and last the release of the
    workspace the clone made, after which the path is gone unless the
    release failed; and the response is the same whether the release
    fails or not. *)
Theorem legacy_workspace_released o req w :
  let student := str_of (Legacy.studentName req) in
  let clone := Legacy.EvCloneRepo (str_of (Legacy.repoUrl req)) student in
  let dest := workspace_path student (Legacy.next_token w) in
  let w' := snd (legacy_gradeSubmission o req w) in
  (exists evs,
     Legacy.trace w' = Legacy.trace w ++ evs /\
     (evs = [] \/
      (evs = [clone] /\ exists msg, Legacy.clone_result o = inl msg) \/
      (exists tree mid,
         Legacy.clone_result o = inr tree /\
         evs = clone :: mid ++ [Legacy.EvCleanupRepo dest] /\
         (mid = [] \/ mid = [Legacy.EvGrade dest]) /\
         (Legacy.cleanup_error o = None -> Legacy.fs w' !! dest = None)))) /\
  (forall e,
     fst (legacy_gradeSubmission (legacy_with_cleanup_error o e) req w) =
     fst (legacy_gradeSubmission o req w)).
Proof.
  cbv zeta. split.
  - rewrite legacy_cases. cbv zeta.
    destruct (validateRequestData _ _ _) as [e|].
    { exists []. cbn [snd]. rewrite app_nil_r. auto. }
    destruct (Legacy.clone_result o) as [msg|tree] eqn:Hclone.
    { eexists. split; [reflexivity|]. right. left. eauto. }
    assert (Hrel : forall x,
      Legacy.fs x = <[workspace_path (str_of (Legacy.studentName req))
                        (Legacy.next_token w) := tree]> (Legacy.fs w) ->
      Legacy.cleanup_error o = None ->
      Legacy.fs (legacy_release o
                   (workspace_path (str_of (Legacy.studentName req))
                      (Legacy.next_token w)) x)
        !! workspace_path (str_of (Legacy.studentName req))
             (Legacy.next_token w) = None).
    { intros x _ Hc. unfold legacy_release. rewrite Hc. cbn [Legacy.fs].
      apply lookup_delete_eq. }
    assert (Htr : forall x,
      Legacy.trace (legacy_release o
                      (workspace_path (str_of (Legacy.studentName req))
                         (Legacy.next_token w)) x) =
      Legacy.trace x ++
      [Legacy.EvCleanupRepo
         (workspace_path (str_of (Legacy.studentName req))
            (Legacy.next_token w))]).
    { intros x. unfold legacy_release.
      destruct (Legacy.cleanup_error o); reflexivity. }
    assert (Hgo : forall x mid,
      Legacy.trace x =
        Legacy.trace w ++
        Legacy.EvCloneRepo (str_of (Legacy.repoUrl req))
          (str_of (Legacy.studentName req)) :: mid ->
      Legacy.fs x = <[workspace_path (str_of (Legacy.studentName req))
                        (Legacy.next_token w) := tree]> (Legacy.fs w) ->
      mid = [] \/
      mid = [Legacy.EvGrade (workspace_path (str_of (Legacy.studentName req))
                               (Legacy.next_token w))] ->
      exists evs,
        Legacy.trace
          (legacy_release o
             (workspace_path (str_of (Legacy.studentName req))
                (Legacy.next_token w)) x) = Legacy.trace w ++ evs /\
        (evs = [] \/
         (evs = [Legacy.EvCloneRepo (str_of (Legacy.repoUrl req))
                   (str_of (Legacy.studentName req))] /\
          exists msg, @inr string _ tree = inl msg) \/
         (exists tree' mid',
            @inr string _ tree = inr tree' /\
            evs = Legacy.EvCloneRepo (str_of (Legacy.repoUrl req))
                    (str_of (Legacy.studentName req)) :: mid' ++
                  [Legacy.EvCleanupRepo
                     (workspace_path (str_of (Legacy.studentName req))
                        (Legacy.next_token w))] /\
            (mid' = [] \/
             mid' = [Legacy.EvGrade
                       (workspace_path (str_of (Legacy.studentName req))
                          (Legacy.next_token w))]) /\
            (Legacy.cleanup_error o = None ->
             Legacy.fs
               (legacy_release o
                  (workspace_path (str_of (Legacy.studentName req))
                     (Legacy.next_token w)) x)
               !! workspace_path (str_of (Legacy.studentName req))
                    (Legacy.next_token w) = None)))).
    { intros x mid Hx Hfs Hmid. eexists. split.
      - rewrite Htr, Hx, <- app_assoc. reflexivity.
      - right. right. exists tree, mid. repeat split; auto. }
    destruct (_ =? 2)%float; [destruct (Legacy.grade_result o)|]; cbn [snd].
    + eapply Hgo. 3: right; reflexivity. 2: reflexivity.
      cbn [Legacy.trace Legacy.log_event Legacy.tick Legacy.add_workspace].
      now rewrite <- !app_assoc.
    + eapply Hgo. 3: right; reflexivity. 2: reflexivity.
      cbn [Legacy.trace Legacy.log_event Legacy.tick Legacy.add_workspace].
      now rewrite <- !app_assoc.
    + eapply Hgo. 3: left; reflexivity. 2: reflexivity.
      reflexivity.
  - intros e. rewrite !legacy_cases. cbv zeta.
    cbn [legacy_with_cleanup_error Legacy.clone_result Legacy.grade_result].
    destruct (validateRequestData _ _ _); [reflexivity|].
    destruct (Legacy.clone_result o); [reflexivity|].
    destruct (_ =? 2)%float; [destruct (Legacy.grade_result o)|];
      reflexivity.
Qed.

End LegacyFacts.

(** ** The Notion service: properties *)

Section NotionFacts.

Variable Number_toString : float -> string.

Local Abbreviation extractRichText := (Notion.extractRichText Number_toString).
Local Abbreviation extractTextFromBlock :=
  (Notion.extractTextFromBlock Number_toString).
Local Abbreviation fetchPageContent :=
  (Notion.fetchPageContent Number_toString).

(** A rich text object with the plain text [s]. *)
Definition has_plain_text (textObj : json) (s : string) : Prop :=
  exists props, textObj = JObj props /\ assoc "plain_text" props = Some (JStr s).

(** The strings one after the other. *)
Definition concat_all (ss : list string) : string :=
  fold_right String.append "" ss.

(** What is put before and after the text of a block, by the type of the
    block. *)
Definition markup (blockType : string) : option (string * string) :=
  if String.eqb blockType "paragraph" then Some ("", "")
  else if String.eqb blockType "heading_1" then Some ("# ", "")
  else if String.eqb blockType "heading_2" then Some ("## ", "")
  else if String.eqb blockType "heading_3" then Some ("### ", "")
  else if String.eqb blockType "bulleted_list_item" then
    Some (Notion.bullet, "")
  else if String.eqb blockType "numbered_list_item" then Some ("- ", "")
  else if String.eqb blockType "code" then
    Some (Notion.fence +:+ newline, newline +:+ Notion.fence)
  else if String.eqb blockType "quote" then Some ("> ", "")
  else if String.eqb blockType "callout" then Some (Notion.bulb, "")
  else None.

Lemma extractRichText_plain items ss :
  Forall2 has_plain_text items ss ->
  extractRichText (Some (JArr items)) = inr (concat_all ss).
Proof.
  intros H. unfold Notion.extractRichText.
  assert (Hmap : Notion.map_throwing Notion.plain_text_or_empty items =
                 inr (map JStr ss)).
  { induction H as [|obj s items ss (props & -> & Hp) _ IH]; [reflexivity|].
    cbn [Notion.map_throwing]. unfold Notion.plain_text_or_empty at 1.
    cbn [get_prop]. rewrite Hp, IH. cbn [Notion.truthy map].
    destruct (String.eqb s "") eqn:E; cbn [negb]; [|reflexivity].
    apply String.eqb_eq in E. now subst. }
  rewrite Hmap. clear. induction ss as [|s ss IH]; [reflexivity|].
  cbn [map Notion.join_empty Notion.to_string]. now rewrite IH.
Qed.

(** X22. The text of a block.  For a block that is an object with a
    string [type] and, under the name of that type, an object whose
    [rich_text] is an array of objects with string [plain_text]s, the
    text is the plain texts one after the other, between the marks of the
    type: nothing for a paragraph, [# ], [## ], [### ] for the headings, a
    bullet or a dash for the list items, a fence around code, [> ] for a
    quote and the bulb for a callout; a block of any other type has no
    text. *)
Theorem extractTextFromBlock_renders props t content items ss :
  assoc "type" props = Some (JStr t) ->
  assoc t props = Some (JObj content) ->
  assoc "rich_text" content = Some (JArr items) ->
  Forall2 has_plain_text items ss ->
  extractTextFromBlock (JObj props) =
  match markup t with
  | Some (before, after) => Some (before +:+ concat_all ss +:+ after)
  | None => None
  end.
Proof.
  intros Ht Hc Hr Hss.
  pose proof (extractRichText_plain items ss Hss) as Htext.
  unfold Notion.extractTextFromBlock, markup. cbn [get_prop]. rewrite Ht.
  assert (Hgo : forall name,
    Notion.rich_text_of Number_toString (JObj props) (Some (JStr t)) name =
    if String.eqb t name then Some (inr (concat_all ss)) else None).
  { intros name. unfold Notion.rich_text_of.
    destruct (String.eqb t name) eqn:E; [|reflexivity].
    apply String.eqb_eq in E. subst name. cbn [get_prop]. rewrite Hc.
    cbn [Notion.get_optional]. rewrite Hr. cbn [Notion.truthy].
    now rewrite Htext. }
  rewrite !Hgo.
  repeat (destruct (String.eqb t _); [reflexivity|]).
  reflexivity.
Qed.

(** The texts of a page: those of the blocks that have one that is not
    empty. *)
Definition page_texts (blocks : list json) : list string :=
  List.filter (fun text => negb (String.eqb text ""))
    (omap extractTextFromBlock blocks).

Lemma collect_page_texts blocks : forall acc,
  Notion.collect Number_toString blocks acc = acc ++ page_texts blocks.
Proof.
  induction blocks as [|b blocks IH]; intros acc.
  - cbn. now rewrite app_nil_r.
  - cbn [Notion.collect]. unfold page_texts in *. cbn [omap list_omap].
    destruct (extractTextFromBlock b) as [text|]; [|apply IH].
    cbn [List.filter].
    destruct (negb (String.eqb text "")); [|apply IH].
    rewrite IH. now rewrite <- app_assoc.
Qed.

(** X23. The content of a page.  When the answer of the API has an array
    of [results], whatever its blocks are, the call succeeds, and the
    content is the texts of the blocks that have one that is not empty, in
    the order of the blocks and two newlines apart: a block of an unknown
    type, a block that is not as expected, and a paragraph without text
    add nothing.  Nothing else of the answer is read. *)
Theorem fetchPageContent_joins_block_texts props blocks :
  assoc "results" props = Some (JArr blocks) ->
  fetchPageContent (inr (JObj props)) =
    inr (String.concat (newline +:+ newline) (page_texts blocks)) /\
  fetchPageContent (inr (JObj props)) =
    fetchPageContent (inr (JObj [("results", JArr blocks)])) /\
  Forall (fun text => text <> "" /\
                      exists block, In block blocks /\
                                    extractTextFromBlock block = Some text)
         (page_texts blocks).
Proof.
  intros H.
  assert (Hgo : forall ps,
    assoc "results" ps = Some (JArr blocks) ->
    fetchPageContent (inr (JObj ps)) =
      inr (String.concat (newline +:+ newline) (page_texts blocks))).
  { intros ps Hps. unfold Notion.fetchPageContent. cbn [get_prop].
    rewrite Hps. cbn [Notion.iterate]. now rewrite collect_page_texts. }
  split; [now apply Hgo|]. split; [now rewrite !Hgo|].
  apply Forall_forall. intros text Hin. apply list_elem_of_In in Hin.
  unfold page_texts in Hin. apply filter_In in Hin as [Hin Hne].
  split.
  - intros ->. discriminate.
  - apply list_elem_of_In, list_elem_of_omap in Hin as (block & Hb & Ht).
    exists block. split; [now apply list_elem_of_In|assumption].
Qed.

(** X24. Failures of [fetchPageContent].  An error of the API call is
    passed on with its message after "Failed to fetch Notion page: ", and
    so is every other failure: no error leaves the function without that
    prefix.  The function fails only when the call failed or the answer
    has no [results] that can be iterated. *)
Theorem fetchPageContent_wraps_every_error :
  (forall cause,
     fetchPageContent (inl cause) =
       inl ("Failed to fetch Notion page: " +:+ cause)) /\
  (forall answer message,
     fetchPageContent answer = inl message ->
     (exists cause, message = "Failed to fetch Notion page: " +:+ cause) /\
     ((exists cause, answer = inl cause) \/
      exists response,
        answer = inr response /\
        forall items, get_prop response "results" <> inr (Some (JArr items)))).
Proof.
  split; [reflexivity|].
  intros answer message. unfold Notion.fetchPageContent.
  destruct answer as [cause|response].
  { intros [= <-]. split; eauto. }
  destruct (get_prop response "results") as [e|[results|]] eqn:Hres.
  - intros [= <-]. split; [eauto|]. right. exists response.
    split; [reflexivity|]. intros items. rewrite Hres. discriminate.
  - destruct results as [|b|n|s|items|ps]; cbn [Notion.iterate];
      try (intros [= <-]; split; [eauto|]; right; exists response;
           split; [reflexivity|]; intros items'; congruence).
    + discriminate.
    + discriminate.
  - intros [= <-]. split; [eauto|]. right. exists response.
    split; [reflexivity|]. intros items. rewrite Hres. discriminate.
Qed.

End NotionFacts.

(** ** The dashboard and the reviews the handler stores *)

Section DashboardFacts.

Variable JSON_parse : string -> string + json.
Variable JSON_stringify : json -> string.
Variable Number_toString : float -> string.
Variable toFixed2 : float -> string.
Variable isValidGitHubUrl : string -> bool.

(** X25. What the dashboard shows for a review the handler stored.  When
    the [reviewContent] of the selected review is the serialized document
    of a grading, and [JSON.parse] reads that document back, the feedback
    box shows the feedback of the scoring service, or "No feedback
    available" when the service gave none or an empty one; the older
    fields [feedbackContent] and [aiFeedback] of the review are not
    used. *)
Theorem dashboard_shows_stored_feedback gr summary selectedReview :
  let doc := review_content gr summary in
  JSON_parse (JSON_stringify doc) = inr doc ->
  JSON_stringify doc <> "" ->
  assoc "reviewContent" selectedReview = Some (JStr (JSON_stringify doc)) ->
  Dashboard.feedback_shown JSON_parse Number_toString selectedReview =
    JStr (option_or (CodeQuality.feedback (codeQuality gr))
            "No feedback available").
Proof.
  intros doc Hparse Hne Hrc. unfold Dashboard.feedback_shown.
  rewrite Hrc. unfold Dashboard.content_text. cbn [Dashboard.or_else Notion.truthy].
  apply String.eqb_neq in Hne. rewrite Hne. cbn [negb]. rewrite Hparse.
  subst doc. unfold review_content.
  cbn [get_prop assoc String.eqb Ascii.eqb Bool.eqb andb Dashboard.or_else
       Notion.truthy].
  assert (Hf : String.eqb (option_or (CodeQuality.feedback (codeQuality gr))
                             "No feedback available") "" = false).
  { unfold option_or. destruct (CodeQuality.feedback (codeQuality gr)) as [f|];
      [|reflexivity].
    destruct (String.eqb f "") eqn:E; [reflexivity|assumption]. }
  now rewrite Hf.
Qed.

(** X26. The reviews the handler stores and the list of the dashboard.
    The list keeps the reviews whose [status] is "GRADED"; a row that a
    request adds to the store has the status "COMPLETED", so a review with
    the status of such a row is not kept. *)
Theorem stored_reviews_are_not_listed o req w row :
  In row (reviews (snd (gradeSubmission JSON_parse JSON_stringify
                          Number_toString toFixed2 isValidGitHubUrl
                          o req w))) ->
  In row (reviews w) \/
  (Review.status row = "COMPLETED" /\
   forall props,
     assoc "status" props = Some (JStr (Review.status row)) ->
     Dashboard.is_graded (JObj props) = inr false /\
     Dashboard.gradedReviews (JObj [("data", JArr [JObj props])]) = inr []).
Proof.
  intros Hin.
  destruct (store_after JSON_parse JSON_stringify Number_toString toFixed2
              isValidGitHubUrl o req w)
    as [E|(st & gr & x & _ & _ & E)]; rewrite E in Hin; [now left|].
  apply in_app_or in Hin as [Hin|[<-|[]]]; [now left|right].
  split; [reflexivity|]. intros props Hp.
  assert (Hg : Dashboard.is_graded (JObj props) = inr false).
  { unfold Dashboard.is_graded. cbn [get_prop]. rewrite Hp. reflexivity. }
  split; [assumption|].
  unfold Dashboard.gradedReviews.
  cbn [get_prop assoc String.eqb Ascii.eqb Bool.eqb andb
       Dashboard.filter_throwing].
  now rewrite Hg.
Qed.

End DashboardFacts.

(** ** The handler on concrete requests *)

Module Demo.

Definition world0 : World :=
  {| reviews := []; fs := ∅; clock := 1000; next_id := 1; next_token := 0;
     trace := [] |}.

Definition tree : list entry :=
  [File "index.js" "console.log(1)";
   Dir "node_modules" [File "dep.js" "module.exports = 1"];
   File "README.md" "notes"].

Definition answer : Ai.result :=
  {| Ai.score := 85%float; Ai.feedback := Some "Well done";
     Ai.passed := Some ["tests"]; Ai.errors := None |}.

Definition outcomes : Outcomes :=
  {| find_error := None; clone_result := inr tree; ai_result := inr answer;
     create_error := None; cleanup_error := None |}.

Definition request : Body :=
  {| repoName := VStr "https://github.com/org/repo";
     branchName := VStr "module-02";
     studentName := VStr "alice";
     customInstructions := VStr "grade for correctness" |}.


Definition key : WhereClause :=
  {| where_repoName := "https://github.com/org/repo";
     where_branchName := "module-02";
     where_studentName := Some "alice" |}.

(** The store after the first grading. *)
Definition graded : World := snd (Ref.gradeSubmission outcomes request world0).

Definition no_row : Review.t := Review.make 0 "" "" None "" "" "" 0.

Definition stored_row : Review.t := nth 0 (reviews graded) no_row.


(** A row whose content is the text of a review and no JSON. *)
Definition text_row : Review.t :=
  Review.make 7 "https://github.com/org/repo" "module-02" (Some "alice")
    "The pull request looks good to me." "n/a" "GRADED" 400.

Definition with_text_row : World :=
  {| reviews := [text_row]; fs := ∅; clock := 1000; next_id := 8;
     next_token := 0; trace := [] |}.

(** A repository with no source file. *)
Definition notes_only : Outcomes :=
  {| find_error := None; clone_result := inr [File "README.md" "notes"];
     ai_result := inr answer; create_error := None; cleanup_error := None |}.

(** What the first grading responded. *)
Definition first_response : Response :=
  fst (Ref.gradeSubmission outcomes request world0).

Definition first_results : json :=
  match body first_response with
  | Graded _ _ _ _ (Some results) _ _ _ _ => results
  | _ => JNull
  end.

Definition first_summary : json :=
  match body first_response with
  | Graded _ _ _ _ _ (Some summary) _ _ _ => summary
  | _ => JNull
  end.

(** The request with an empty student name, and without one. *)
Definition blank_student : Body :=
  {| repoName := VStr "https://github.com/org/repo";
     branchName := VStr "module-02";
     studentName := VStr "";
     customInstructions := VStr "grade for correctness" |}.

Definition anonymous : Body :=
  {| repoName := VStr "https://github.com/org/repo";
     branchName := VStr "module-02";
     studentName := VUndefined;
     customInstructions := VStr "grade for correctness" |}.

(** A checked-out workspace, for the grading step alone. *)
Definition checked_out : Frame :=
  {| world :=
       {| reviews := []; fs := {[ "/work/alice-0" := tree ]}; clock := 1000;
          next_id := 1; next_token := 1; trace := [] |};
     clonedPath := Some "/work/alice-0" |}.

End Demo.


(** The request for a key whose row holds the text of a review. *)
Lemma cache_hit_invalid_json_witness :
  Ref.gradeSubmission Demo.outcomes Demo.request Demo.with_text_row =
    (respond 500 (Failed "Grading failed" "Unexpected token in JSON" 1000),
     tick (log_event (find_event Demo.request) Demo.with_text_row)) /\
  success
    (fst (Ref.gradeSubmission Demo.outcomes Demo.request Demo.with_text_row)) =
    false.
Proof.
  apply (cache_hit_invalid_json_fails Ref.JSON_parse Ref.JSON_stringify
           Ref.Number_toString Ref.toFixed2 Ref.isValidGitHubUrl
           Demo.outcomes Demo.request Demo.with_text_row Demo.key
           Demo.text_row "Unexpected token in JSON");
    vm_compute; reflexivity.
Defined.


(** After a grading for correctness, the request that asks for a grading
    of style gets the stored results. *)
Lemma instructions_not_in_cache_key_witness :
  Ref.gradeSubmission Demo.outcomes
    {| repoName := VStr "https://github.com/org/repo";
       branchName := VStr "module-02"; studentName := VStr "alice";
       customInstructions := VStr "grade for correctness" |} Demo.graded =
  Ref.gradeSubmission Demo.outcomes
    {| repoName := VStr "https://github.com/org/repo";
       branchName := VStr "module-02"; studentName := VStr "alice";
       customInstructions := VStr "grade for style only" |} Demo.graded /\
  fst (Ref.gradeSubmission Demo.outcomes
         {| repoName := VStr "https://github.com/org/repo";
            branchName := VStr "module-02"; studentName := VStr "alice";
            customInstructions := VStr "grade for style only" |}
         Demo.graded) =
    respond 200
      (Graded "database" "alice" "module-02" "https://github.com/org/repo"
         (Some Demo.first_results) (Some Demo.first_summary) 1 1000 1000).
Proof.
  split.
  - apply (proj1 (proj2 (instructions_not_in_cache_key Ref.JSON_parse
                           Ref.JSON_stringify Ref.Number_toString
                           Ref.toFixed2 Ref.isValidGitHubUrl))
             Demo.outcomes (VStr "https://github.com/org/repo")
             (VStr "module-02") (VStr "alice")
             (VStr "grade for correctness") (VStr "grade for style only")
             Demo.graded Demo.key Demo.stored_row);
      vm_compute; reflexivity.
  - apply (proj2 (proj2 (instructions_not_in_cache_key Ref.JSON_parse
                           Ref.JSON_stringify Ref.Number_toString
                           Ref.toFixed2 Ref.isValidGitHubUrl))
             Demo.outcomes (VStr "https://github.com/org/repo")
             (VStr "module-02") (VStr "alice")
             (VStr "grade for correctness") (VStr "grade for style only")
             Demo.world0 "alice" "module-02" "https://github.com/org/repo"
             Demo.first_results Demo.first_summary 1%nat 1000 1001
             Demo.graded Demo.outcomes);
      vm_compute; reflexivity.
Defined.

(** A repository that holds a [README.md] and nothing else. *)
Lemma empty_corpus_fails_witness :
  fst (Ref.gradeSubmission Demo.notes_only Demo.request Demo.world0) =
    respond 500
      (Failed "Grading failed" "No code files found in the repository" 1000) /\
  reviews (snd (Ref.gradeSubmission Demo.notes_only Demo.request Demo.world0)) =
    reviews Demo.world0 /\
  trace (snd (Ref.gradeSubmission Demo.notes_only Demo.request Demo.world0)) =
    trace Demo.world0 ++
    [find_event Demo.request; clone_event Demo.request] ++
    map EvReaddir
      (opened (scan (workspace_of Demo.request Demo.world0)
                 [File "README.md" "notes"] empty_scan)) ++
    [EvCleanupRepo (workspace_of Demo.request Demo.world0)] /\
  (cleanup_error Demo.notes_only = None ->
   fs (snd (Ref.gradeSubmission Demo.notes_only Demo.request Demo.world0))
     !! workspace_of Demo.request Demo.world0 = None).
Proof.
  apply (empty_corpus_fails Ref.JSON_parse Ref.JSON_stringify
           Ref.Number_toString Ref.toFixed2 Ref.isValidGitHubUrl
           Demo.notes_only Demo.request Demo.world0 Demo.key
           [File "README.md" "notes"]);
    vm_compute; reflexivity.
Defined.

(** The request whose [studentName] is the empty string. *)
Lemma falsy_student_is_anonymous_witness :
  cache_key Demo.blank_student =
    Some {| where_repoName := "https://github.com/org/repo";
            where_branchName := "module-02";
            where_studentName := None |} /\
  cache_key Demo.blank_student = cache_key Demo.anonymous /\
  (forall o w,
     Ref.gradeSubmission o Demo.blank_student w =
     Ref.gradeSubmission o Demo.anonymous w) /\
  (forall o w row,
     In row (reviews (snd (Ref.gradeSubmission o Demo.blank_student w))) ->
     In row (reviews w) \/ Review.studentName row = None) /\
  (forall o w repo submitter branch,
     In (EvCloneRepo repo submitter branch)
        (trace (snd (Ref.gradeSubmission o Demo.blank_student w))) ->
     In (EvCloneRepo repo submitter branch) (trace w) \/
     submitter = "submission").
Proof.
  apply (falsy_student_is_anonymous Ref.JSON_parse Ref.JSON_stringify
           Ref.Number_toString Ref.toFixed2 Ref.isValidGitHubUrl
           (VStr "") (VStr "https://github.com/org/repo") (VStr "module-02")
           (VStr "grade for correctness")).
  reflexivity.
Defined.

(** The grading step on a checked-out workspace, with a score of 85. *)
Lemma completeness_is_function_of_score_witness :
  exists ai,
    ai_result Demo.outcomes = inr ai /\
    totalScore (results_of Demo.answer 1 "rubric" "module-02") = Ai.score ai /\
    Completeness.score
      (completeness (results_of Demo.answer 1 "rubric" "module-02")) =
      completeness_spec (Ai.score ai) /\
    Completeness.maxScore
      (completeness (results_of Demo.answer 1 "rubric" "module-02")) =
      40%float /\
    exists evs code,
      trace (world (snd (performCustomGrading Demo.outcomes "/work/alice-0"
                           "rubric" "module-02" Demo.checked_out))) =
        trace (world Demo.checked_out) ++ evs ++
        [EvAnalyze code "rubric" "module-02"] /\
      Forall is_scan_event evs.
Proof.
  apply (proj2 completeness_is_function_of_score Demo.outcomes
           "/work/alice-0" "rubric" "module-02" Demo.checked_out
           (results_of Demo.answer 1 "rubric" "module-02")
           (snd (performCustomGrading Demo.outcomes "/work/alice-0" "rubric"
                   "module-02" Demo.checked_out))).
  vm_compute. reflexivity.
Defined.

(** ** More concrete requests *)

Module Scenario.

(** The scoring service is down. *)
Definition scoring_down : Outcomes :=
  {| find_error := None; clone_result := inr Demo.tree;
     ai_result := inl "Rate limit exceeded";
     create_error := None; cleanup_error := None |}.

(** The store accepts no insert. *)
Definition store_down : Outcomes :=
  {| find_error := None; clone_result := inr Demo.tree;
     ai_result := inr Demo.answer;
     create_error := Some "Connection refused"; cleanup_error := None |}.

(** A request to the earlier handler, for a module it has no handler
    for. *)
Definition module_three : Legacy.Body :=
  {| Legacy.repoUrl := VStr "https://github.com/org/repo";
     Legacy.moduleNumber := VNum 3;
     Legacy.studentName := VStr "alice" |}.

Definition legacy_world : Legacy.World :=
  {| Legacy.fs := ∅; Legacy.clock := 1000; Legacy.next_token := 0;
     Legacy.trace := [] |}.

Definition legacy_outcomes : Legacy.Outcomes :=
  {| Legacy.clone_result := inr Demo.tree;
     Legacy.grade_result := inl "not reached";
     Legacy.cleanup_error := None |}.

End Scenario.

Lemma demo_is_new_grading (o : Outcomes) :
  find_error o = None ->
  new_grading Ref.isValidGitHubUrl o Demo.request Demo.world0.
Proof.
  intros H. unfold new_grading, cache_miss.
  repeat split; try reflexivity; try assumption.
  exists Demo.key. split; reflexivity.
Qed.

(** The grading step on the checked-out workspace: one file is selected,
    listed after the root, read, and sent as one section. *)
Lemma combined_code_is_sections_witness :
  exists contents,
    Forall2 (fun file content =>
               find_file "/work/alice-0" Demo.tree file = Some content)
            ["/work/alice-0/index.js"] contents /\
    trace (world (snd (performCustomGrading Demo.outcomes "/work/alice-0"
                         "rubric" "module-02" Demo.checked_out))) =
      [EvReaddir "/work/alice-0"; EvReadFile "/work/alice-0/index.js";
       EvAnalyze (sections "/work/alice-0"
                    (zip ["/work/alice-0/index.js"] contents))
         "rubric" "module-02"] /\
    (forall gr,
       fst (performCustomGrading Demo.outcomes "/work/alice-0" "rubric"
              "module-02" Demo.checked_out) = inr gr ->
       filesAnalyzed gr = 1%nat) /\
    Forall (fun file =>
              exists dirs name,
                In (dirs, name) (listing Demo.tree) /\
                file = below "/work/alice-0" (dirs ++ [name]) /\
                path_relative "/work/alice-0" file =
                  String.concat "/" (dirs ++ [name]))
           ["/work/alice-0/index.js"].
Proof.
  apply (combined_code_is_sections Demo.outcomes "/work/alice-0" "rubric"
           "module-02" Demo.checked_out Demo.tree).
  - reflexivity.
  - vm_compute. discriminate.
Defined.

(** The instructions "rubric" are kept whole, with the dots. *)
Lemma customCriteria_is_truncated_witness :
  (exists kept rest,
     "rubric" = kept +:+ rest /\
     customCriteria (results_of Demo.answer 1 "rubric" "module-02") =
       kept +:+ "..." /\
     String.length kept = Nat.min 200 (String.length "rubric")) /\
  (String.length
     (customCriteria (results_of Demo.answer 1 "rubric" "module-02")) <= 203)%nat /\
  ((String.length "rubric" <= 200)%nat ->
   customCriteria (results_of Demo.answer 1 "rubric" "module-02") =
     "rubric" +:+ "...").
Proof.
  apply (customCriteria_is_truncated Demo.outcomes "/work/alice-0" "rubric"
           "module-02" Demo.checked_out
           (results_of Demo.answer 1 "rubric" "module-02")
           (snd (performCustomGrading Demo.outcomes "/work/alice-0" "rubric"
                   "module-02" Demo.checked_out))).
  vm_compute. reflexivity.
Defined.

(** The request of the examples when the scoring service is down. *)
Lemma scoring_failure_is_surfaced_witness :
  fst (Ref.gradeSubmission Scenario.scoring_down Demo.request Demo.world0) =
    respond 500 (Failed "Grading failed" "Rate limit exceeded" 1000) /\
  reviews (snd (Ref.gradeSubmission Scenario.scoring_down Demo.request
                  Demo.world0)) = [] /\
  (exists code,
     trace (snd (Ref.gradeSubmission Scenario.scoring_down Demo.request
                   Demo.world0)) =
       [] ++ [find_event Demo.request; clone_event Demo.request] ++
       map EvReaddir
         (opened (scan (workspace_of Demo.request Demo.world0) Demo.tree
                    empty_scan)) ++
       map EvReadFile
         (files (scan (workspace_of Demo.request Demo.world0) Demo.tree
                   empty_scan)) ++
       [EvAnalyze code "grade for correctness" "module-02";
        EvCleanupRepo (workspace_of Demo.request Demo.world0)]) /\
  (cleanup_error Scenario.scoring_down = None ->
   fs (snd (Ref.gradeSubmission Scenario.scoring_down Demo.request
              Demo.world0))
     !! workspace_of Demo.request Demo.world0 = None).
Proof.
  apply (scoring_failure_is_surfaced Ref.JSON_parse Ref.JSON_stringify
           Ref.Number_toString Ref.toFixed2 Ref.isValidGitHubUrl
           Scenario.scoring_down Demo.request Demo.world0 Demo.tree
           "Rate limit exceeded").
  - now apply demo_is_new_grading.
  - reflexivity.
  - vm_compute. discriminate.
  - reflexivity.
Defined.

(** The request of the examples when the store accepts no insert. *)
Lemma insert_failure_loses_the_grading_witness :
  fst (Ref.gradeSubmission Scenario.store_down Demo.request Demo.world0) =
    respond 500 (Failed "Grading failed" "Connection refused" 1000) /\
  reviews (snd (Ref.gradeSubmission Scenario.store_down Demo.request
                  Demo.world0)) = [] /\
  (exists code gr,
     totalScore gr = 85%float /\
     trace (snd (Ref.gradeSubmission Scenario.store_down Demo.request
                   Demo.world0)) =
       [] ++ [find_event Demo.request; clone_event Demo.request] ++
       map EvReaddir
         (opened (scan (workspace_of Demo.request Demo.world0) Demo.tree
                    empty_scan)) ++
       map EvReadFile
         (files (scan (workspace_of Demo.request Demo.world0) Demo.tree
                   empty_scan)) ++
       [EvAnalyze code "grade for correctness" "module-02";
        create_event Ref.JSON_stringify Ref.toFixed2 Demo.request gr;
        EvCleanupRepo (workspace_of Demo.request Demo.world0)]) /\
  new_grading Ref.isValidGitHubUrl Scenario.store_down Demo.request
    (snd (Ref.gradeSubmission Scenario.store_down Demo.request Demo.world0)) /\
  (cleanup_error Scenario.store_down = None ->
   fs (snd (Ref.gradeSubmission Scenario.store_down Demo.request
              Demo.world0))
     !! workspace_of Demo.request Demo.world0 = None).
Proof.
  apply (insert_failure_loses_the_grading Ref.JSON_parse Ref.JSON_stringify
           Ref.Number_toString Ref.toFixed2 Ref.isValidGitHubUrl
           Scenario.store_down Demo.request Demo.world0 Demo.tree
           Demo.answer "Connection refused").
  - now apply demo_is_new_grading.
  - reflexivity.
  - vm_compute. discriminate.
  - reflexivity.
  - reflexivity.
Defined.


(** A score of 85 out of 100 is "Good". *)
Lemma getGradingStatus_whole_scores_witness :
  getGradingStatus (Num.of_Z 85) 100 = "Good".
Proof. apply (getGradingStatus_whole_scores 85). lia. Defined.

(** A score of 60 gives 24, a score of 61 gives 40. *)
Lemma completeness_of_whole_scores_witness :
  (completeness_score (Num.of_Z 60) = Num.of_Z 24 /\ 0 <= 24 <= 40) /\
  (completeness_score (Num.of_Z 61) = Num.of_Z 40 /\ 0 <= 40 <= 40).
Proof.
  split.
  - apply (completeness_of_whole_scores 60). lia.
  - apply (completeness_of_whole_scores 61). lia.
Defined.

(** [index.test.js] has the extension [.js], and [Makefile] has none. *)
Lemma extname_of_file_name_witness :
  Extname.extname "index.test.js" = ".js" /\ Extname.extname "js" = "".
Proof.
  apply (extname_of_file_name "index.test" "js");
    repeat constructor; discriminate.
Defined.

(** [index.js] is taken. *)
Lemma allowed_file_names_witness :
  includes codeExtensions (Extname.extname "index.js") = true <->
  exists base ext,
    "index.js"%string = base +:+ ext /\ base <> "" /\ In ext codeExtensions.
Proof.
  apply (allowed_file_names "index.js"). repeat constructor; discriminate.
Defined.

(** Module 3 is turned down after the clone. *)
Lemma legacy_unsupported_module_witness :
  fst (Legacy.gradeSubmission Ref.isValidGitHubUrl Ref.Number_toString
         Ref.toFixed2 Scenario.legacy_outcomes Scenario.module_three
         Scenario.legacy_world) =
    Legacy.respond 500
      (Legacy.Failed "Grading failed"
         ("Module " +:+ Ref.Number_toString 3 +:+
          " grading handler not implemented") 1000) /\
  Legacy.trace
    (snd (Legacy.gradeSubmission Ref.isValidGitHubUrl Ref.Number_toString
            Ref.toFixed2 Scenario.legacy_outcomes Scenario.module_three
            Scenario.legacy_world)) =
    [] ++
    [Legacy.EvCloneRepo "https://github.com/org/repo" "alice";
     Legacy.EvCleanupRepo (workspace_path "alice" 0)] /\
  (Legacy.cleanup_error Scenario.legacy_outcomes = None ->
   Legacy.fs
     (snd (Legacy.gradeSubmission Ref.isValidGitHubUrl Ref.Number_toString
             Ref.toFixed2 Scenario.legacy_outcomes Scenario.module_three
             Scenario.legacy_world))
     !! workspace_path "alice" 0 = None).
Proof.
  apply (legacy_unsupported_module Ref.isValidGitHubUrl Ref.Number_toString
           Ref.toFixed2 Scenario.legacy_outcomes Scenario.module_three
           Scenario.legacy_world 3%float Demo.tree).
  - exists "https://github.com/org/repo", 3%float, "alice".
    repeat split; try reflexivity; discriminate.
  - reflexivity.
  - reflexivity.
  - reflexivity.
Defined.

Module Page.

Definition text (s : string) : json :=
  JObj [("type", JStr "text"); ("plain_text", JStr s)].

Definition heading : list (string * json) :=
  [("object", JStr "block"); ("type", JStr "heading_2");
   ("heading_2", JObj [("rich_text", JArr [text "Setup"; text " steps"])])].

Definition paragraph (texts : list json) : json :=
  JObj [("type", JStr "paragraph");
        ("paragraph", JObj [("rich_text", JArr texts)])].

(** A heading, a block of a type the service does not know, a paragraph
    without text, a [null], and a paragraph. *)
Definition blocks : list json :=
  [JObj heading;
   JObj [("type", JStr "divider"); ("divider", JObj [])];
   paragraph [];
   JNull;
   paragraph [text "Run it"]].

Definition answer : list (string * json) :=
  [("object", JStr "list"); ("results", JArr blocks);
   ("has_more", JBool true)].

End Page.

(** A heading of the second level with two pieces of text. *)
Lemma extractTextFromBlock_renders_witness :
  Notion.extractTextFromBlock Ref.Number_toString (JObj Page.heading) =
    Some "## Setup steps".
Proof.
  apply (extractTextFromBlock_renders Ref.Number_toString Page.heading
           "heading_2" [("rich_text", JArr [Page.text "Setup";
                                            Page.text " steps"])]
           [Page.text "Setup"; Page.text " steps"] ["Setup"; " steps"]).
  - reflexivity.
  - reflexivity.
  - reflexivity.
  - repeat constructor; eexists; split; reflexivity.
Defined.

(** Of the five blocks of the page, two have a text. *)
Lemma fetchPageContent_joins_block_texts_witness :
  Notion.fetchPageContent Ref.Number_toString (inr (JObj Page.answer)) =
    inr (String.concat (newline +:+ newline)
           (page_texts Ref.Number_toString Page.blocks)) /\
  Notion.fetchPageContent Ref.Number_toString (inr (JObj Page.answer)) =
    Notion.fetchPageContent Ref.Number_toString
      (inr (JObj [("results", JArr Page.blocks)])) /\
  Forall (fun text =>
            text <> "" /\
            exists block,
              In block Page.blocks /\
              Notion.extractTextFromBlock Ref.Number_toString block =
                Some text)
         (page_texts Ref.Number_toString Page.blocks).
Proof.
  apply (fetchPageContent_joins_block_texts Ref.Number_toString Page.answer
           Page.blocks).
  reflexivity.
Defined.

Example page_content :
  Notion.fetchPageContent Ref.Number_toString (inr (JObj Page.answer)) =
    inr ("## Setup steps" +:+ newline +:+ newline +:+ "Run it").
Proof. vm_compute. reflexivity. Qed.

(** The review the first grading of the examples stored, as the selected
    review of the dashboard. *)
Lemma dashboard_shows_stored_feedback_witness :
  Dashboard.feedback_shown Ref.JSON_parse Ref.Number_toString
    [("id", JNum 1);
     ("reviewContent", JStr (Review.reviewContent Demo.stored_row));
     ("aiFeedback", JStr "an older text")] =
    JStr "Well done".
Proof.
  apply (dashboard_shows_stored_feedback Ref.JSON_parse Ref.JSON_stringify
           Ref.Number_toString
           (results_of Demo.answer 1 "grade for correctness" "module-02")
           (make_summary Ref.toFixed2
              (results_of Demo.answer 1 "grade for correctness" "module-02"))).
  - vm_compute. reflexivity.
  - vm_compute. discriminate.
  - vm_compute. reflexivity.
Defined.

(** The row the first grading of the examples stored is not listed. *)
Lemma stored_reviews_are_not_listed_witness :
  In Demo.stored_row (reviews Demo.world0) \/
  (Review.status Demo.stored_row = "COMPLETED" /\
   forall props,
     assoc "status" props = Some (JStr (Review.status Demo.stored_row)) ->
     Dashboard.is_graded (JObj props) = inr false /\
     Dashboard.gradedReviews (JObj [("data", JArr [JObj props])]) = inr []).
Proof.
  apply (stored_reviews_are_not_listed Ref.JSON_parse Ref.JSON_stringify
           Ref.Number_toString Ref.toFixed2 Ref.isValidGitHubUrl
           Demo.outcomes Demo.request Demo.world0 Demo.stored_row).
  vm_compute. now left.
Defined.
